(** * CCCC.AI chat widget: a shallow embedding of [frontend/static/js/chat.js]

    The script is one immediately-invoked function that owns a [state]
    object (the transcript and a [loading] flag), a handful of DOM nodes and
    five operations: [escapeHTML], [liteMarkdown], [render], [updateCounter]
    and [send].  This development embeds them as functions over an explicit
    [World] and proves the properties the specification states about them.

    Conventions.
    - A JavaScript string is the list of its UTF-16 code units, so [length]
      and [slice] count what the script counts.
    - A JavaScript number is [NaN], an infinity, or a finite double given by
      its exact rational value.  The script only compares numbers and
      truncates them, and both are exact on that representation.
    - A regular expression is a term of [regex], run by a backtracking
      [matcher]; [replace] is [String.prototype.replace] with a global
      pattern.  The four patterns of [liteMarkdown] are also read directly,
      as functions on strings, and the two readings are proved equal.
    - Handlers run in an exception-and-state monad [M]; the [await] in [send]
      splits it in a synchronous half ([send]) and a continuation
      ([send_settle]) that the event loop runs when the exchange settles. *)

From Stdlib Require Import Strings.String Strings.Ascii Numbers.DecimalString.
From Stdlib Require Import ZArith NArith QArith Qround List Bool Lia.
From Stdlib Require Qcanon.
From Equations Require Import Equations.
Import ListNotations.
Close Scope Q_scope.

Set Implicit Arguments.
Set Warnings "-register-all".

(** ** Strings as UTF-16 code units *)

Abbreviation jsstring := (list N).

(** [lit "abc"] is the JavaScript literal ["abc"], for ASCII text. *)
Fixpoint lit (s : string) : jsstring :=
  match s with
  | EmptyString => []
  | String a s' => N_of_ascii a :: lit s'
  end.

Module Ch.
Definition newline : N := 10.   (* \n *)
Definition amp : N := 38.       (* & *)
Definition star : N := 42.      (* * *)
Definition dash : N := 45.      (* - *)
Definition lt : N := 60.        (* < *)
Definition gt : N := 62.        (* > *)
Definition space : N := 32.
Definition bullet : N := 8226.  (* U+2022 *)
Definition ellipsis : N := 8230. (* U+2026 *)
End Ch.

(** ECMAScript LineTerminator: what [.] refuses to match (no [s] flag). *)
Definition is_line_terminator (c : N) : bool :=
  ((c =? 10) || (c =? 13) || (c =? 8232) || (c =? 8233))%N.

(** ECMAScript WhiteSpace and LineTerminator: the class [\s], and what
    [String.prototype.trim] strips. *)
Definition is_space (c : N) : bool :=
  ((c =? 9) || (c =? 11) || (c =? 12) || (c =? 32) || (c =? 160)
   || (c =? 5760) || ((8192 <=? c) && (c <=? 8202)) || (c =? 8239)
   || (c =? 8287) || (c =? 12288) || (c =? 65279)
   || is_line_terminator c)%N.

Fixpoint drop_while {A} (p : A -> bool) (l : list A) : list A :=
  match l with
  | [] => []
  | x :: l' => if p x then drop_while p l' else l
  end.

(** [String.prototype.trim]. *)
Definition trim (s : jsstring) : jsstring :=
  rev (drop_while is_space (rev (drop_while is_space s))).

(** [!s] for a string. *)
Definition is_empty (s : jsstring) : bool :=
  match s with [] => true | _ => false end.

(** ** Numbers *)

Inductive number :=
| NaN
| Inf (negative : bool)
| Fin (q : Q).

Definition num_of_Z (z : Z) : number := Fin (inject_Z z).
Definition num_of_nat (n : nat) : number := num_of_Z (Z.of_nat n).

Definition Qltb (a b : Q) : bool :=
  (Qnum a * Zpos (Qden b) <? Qnum b * Zpos (Qden a))%Z.

(** The relational operator [a > b] on numbers: false as soon as one side
    is [NaN]. *)
Definition num_gt (a b : number) : bool :=
  match a, b with
  | NaN, _ | _, NaN => false
  | Inf false, Inf false => false
  | Inf false, _ => true
  | Inf true, _ => false
  | Fin _, Inf n => n
  | Fin x, Fin y => Qltb y x
  end.

(** Integers extended with the two infinities, the range of
    ToIntegerOrInfinity. *)
Inductive intinf :=
| NegInfinity
| Int (z : Z)
| PosInfinity.

Definition Qtruncate (q : Q) : Z :=
  if (Qnum q <? 0)%Z then Qceiling q else Qfloor q.

Definition ToIntegerOrInfinity (n : number) : intinf :=
  match n with
  | NaN => Int 0
  | Inf true => NegInfinity
  | Inf false => PosInfinity
  | Fin q => Int (Qtruncate q)
  end.

(** The relative index of [slice]: negative counts from the end, and the
    result is clamped to [0 .. len]. *)
Definition relative_index (len : nat) (i : intinf) : nat :=
  match i with
  | NegInfinity => 0
  | PosInfinity => len
  | Int z => if (z <? 0)%Z then Z.to_nat (Z.max (Z.of_nat len + z) 0)
             else Nat.min (Z.to_nat z) len
  end.

(** [Array.prototype.slice] and [String.prototype.slice] share their index
    arithmetic; [stop = None] is the omitted second argument. *)
Definition slice {A} (l : list A) (start : number) (stop : option number)
  : list A :=
  let len := length l in
  let from := relative_index len (ToIntegerOrInfinity start) in
  let to := match stop with
            | None => len
            | Some e => relative_index len (ToIntegerOrInfinity e)
            end in
  firstn (to - from) (skipn from l).

(** ** Values *)

Inductive value :=
| VUndefined
| VNull
| VBool (b : bool)
| VNum (n : number)
| VStr (s : jsstring)
| VArr (elems : list value)
| VObj (props : list (jsstring * value)).

(** ToBoolean. *)
Definition truthy (v : value) : bool :=
  match v with
  | VUndefined | VNull => false
  | VBool b => b
  | VNum NaN => false
  | VNum (Inf _) => true
  | VNum (Fin q) => negb (Qnum q =? 0)%Z
  | VStr s => match s with [] => false | _ => true end
  | VArr _ | VObj _ => true
  end.

(** [a || b]. *)
Definition or_else (a b : value) : value := if truthy a then a else b.

Definition jsstring_eqb (a b : jsstring) : bool :=
  if list_eq_dec N.eq_dec a b then true else false.

Fixpoint own_property (k : jsstring) (props : list (jsstring * value))
  : value :=
  match props with
  | [] => VUndefined
  | (k', v) :: rest => if jsstring_eqb k k' then v else own_property k rest
  end.

(** [v?.name] for the three names the script reads ([content], [choices],
    [message]).  None of them is defined on a built-in prototype, so only
    an object's own properties can answer. *)
Definition get_named (v : value) (name : jsstring) : value :=
  match v with
  | VObj props => own_property name props
  | _ => VUndefined
  end.

Definition decimal (z : Z) : jsstring :=
  lit (NilZero.string_of_int (Z.to_int z)).

(** [v?.[i]] for an array index [i]: an element of an array, a one-unit
    string out of a string, the own property named by the decimal of [i]
    in an object. *)
Definition get_index (v : value) (i : nat) : value :=
  match v with
  | VArr elems => nth i elems VUndefined
  | VStr s => match nth_error s i with
              | Some c => VStr [c]
              | None => VUndefined
              end
  | VObj props => own_property (decimal (Z.of_nat i)) props
  | _ => VUndefined
  end.

(** ** Regular expressions *)

(** The fragment of the pattern language the script uses, and its
    backtracking semantics in the style of the language specification: a
    matcher takes a position, the captures so far and a continuation, and
    tries its alternatives in order until the continuation succeeds. *)
Inductive regex :=
| Char (c : N)                      (* a literal character *)
| Class (p : N -> bool)             (* a character class, [\s], [.] *)
| Bol                               (* [^], without the [m] flag *)
| Seq (r1 r2 : regex)
| Alt (r1 r2 : regex)
| Plus (greedy : bool) (r : regex)  (* [r+] and [r+?] *)
| Group (n : nat) (r : regex).      (* the [n]-th pair of parentheses *)

Declare Scope regex_scope.
Delimit Scope regex_scope with regex.
Infix ">>" := Seq (at level 60, right associativity) : regex_scope.

(** A position in the input: what is left of it, and whether it is
    index 0. *)
Record pos := {
  at_start : bool;
  rest : jsstring
}.

Definition captures := list (nat * jsstring).

(** The captures of a match and the input that follows it. *)
Definition result := option (captures * jsstring).

Definition cont := pos -> captures -> result.

Definition Matcher := pos -> captures -> cont -> result.

(** The input between two positions. *)
Definition consumed (x y : pos) : jsstring :=
  firstn (length (rest x) - length (rest y)) (rest x).

Definition one_char (p : N -> bool) : Matcher :=
  fun x c k =>
    match rest x with
    | a :: s => if p a then k {| at_start := false; rest := s |} c else None
    | [] => None
    end.

Definition or_result (a b : result) : result :=
  match a with Some r => Some r | None => b end.

(** RepeatMatcher with a minimum of 0: a greedy quantifier tries one more
    round before it tries what follows, a lazy one the other way round; a
    round that consumes nothing fails.  [fuel] is the length of the input
    that is left, which bounds the rounds. *)
Fixpoint repeat_matcher (greedy : bool) (m : Matcher) (fuel : nat) : Matcher :=
  fun x c k =>
    match fuel with
    | 0 => k x c
    | S fuel' =>
        let again :=
          m x c (fun y c' =>
                   if length (rest y) <? length (rest x)
                   then repeat_matcher greedy m fuel' y c' k
                   else None) in
        if greedy then or_result again (k x c) else or_result (k x c) again
    end.

Fixpoint matcher (r : regex) : Matcher :=
  match r with
  | Char a => one_char (N.eqb a)
  | Class p => one_char p
  | Bol => fun x c k => if at_start x then k x c else None
  | Seq r1 r2 => fun x c k => matcher r1 x c (fun y c' => matcher r2 y c' k)
  | Alt r1 r2 => fun x c k => or_result (matcher r1 x c k) (matcher r2 x c k)
  | Plus greedy r =>
      fun x c k =>
        matcher r x c
          (fun y c' =>
             repeat_matcher greedy (matcher r) (length (rest y)) y c' k)
  | Group n r =>
      fun x c k => matcher r x c (fun y c' => k y ((n, consumed x y) :: c'))
  end.

(** The continuation of a whole pattern. *)
Definition finish : cont := fun y c => Some (c, rest y).

(** The pattern at the head of [s]; [start] tells whether that is index 0. *)
Definition exec (r : regex) (start : bool) (s : jsstring) : result :=
  matcher r {| at_start := start; rest := s |} [] finish.

(** [$n], or the [n]-th argument of a replacer function.  In the patterns
    below every group takes part in every match, so the case of a group
    that did not ([undefined] for a function) does not arise. *)
Definition group (n : nat) (c : captures) : jsstring :=
  match find (fun e => Nat.eqb (fst e) n) c with
  | Some (_, s) => s
  | None => []
  end.

(** Pairs a value with the equation that names it, so that a [with] clause
    keeps the fact it matched on. *)
Definition inspect {A} (a : A) : {b | a = b} := exist _ a eq_refl.

(** [s.replace(r, replacer)] for a pattern with the [g] flag: scan from
    the left; at a match emit what [replacer] makes of the matched text and
    the captures and carry on behind the match, otherwise copy one
    character.  After an empty match the scan moves on by one character. *)
Equations replace (r : regex) (replacer : jsstring -> captures -> jsstring)
    (start : bool) (s : jsstring) : jsstring by wf (length s) lt :=
  replace r replacer start [] :=
    match exec r start [] with
    | Some (c, _) => replacer [] c
    | None => []
    end;
  replace r replacer start (a :: s') with inspect (exec r start (a :: s')) := {
    | exist _ (Some (c, after)) _
        with lt_dec (length after) (length (a :: s')) := {
        | left _ :=
            replacer (firstn (length (a :: s') - length after) (a :: s')) c
            ++ replace r replacer false after
        | right _ := replacer [] c ++ a :: replace r replacer false s' }
    | exist _ None _ := a :: replace r replacer false s' }.

(** ** Rendering: escapeHTML and liteMarkdown *)

(** [.]: any character but a line terminator (no [s] flag). *)
Definition dot : regex := Class (fun c => negb (is_line_terminator c)).

(** [/[&<>]/g] *)
Definition escape_re : regex :=
  Class (fun c => (c =? Ch.amp) || (c =? Ch.lt) || (c =? Ch.gt))%N.

(** [/\*\*(.+?)\*\*/g] *)
Definition bold_re : regex :=
  (Char Ch.star >> Char Ch.star >> Group 1 (Plus false dot)
   >> Char Ch.star >> Char Ch.star)%regex.

(** [[*-]] *)
Definition is_marker (c : N) : bool := ((c =? Ch.star) || (c =? Ch.dash))%N.

(** [/(^|\n)[*-]\s+(.+)/g] *)
Definition bullet_re : regex :=
  (Group 1 (Alt Bol (Char Ch.newline)) >> Class is_marker
   >> Plus true (Class is_space) >> Group 2 (Plus true dot))%regex.

(** [/\n/g] *)
Definition newline_re : regex := Char Ch.newline.

(** [c => ({'&':'&amp;','<':'&lt;','>':'&gt;'}[c])]; a key the object does
    not have would give [undefined], which [replace] writes out. *)
Definition entity (c : jsstring) (_ : captures) : jsstring :=
  if jsstring_eqb c (lit "&") then lit "&amp;"
  else if jsstring_eqb c (lit "<") then lit "&lt;"
  else if jsstring_eqb c (lit ">") then lit "&gt;"
  else lit "undefined".

(** ["<strong>$1</strong>"] *)
Definition strong (_ : jsstring) (c : captures) : jsstring :=
  lit "<strong>" ++ group 1 c ++ lit "</strong>".

(** [(_m, p1, p2) => `${p1}• ${p2}`] *)
Definition bulleted (_ : jsstring) (c : captures) : jsstring :=
  group 1 c ++ [Ch.bullet; Ch.space] ++ group 2 c.

(** ["<br>"] *)
Definition br (_ : jsstring) (_ : captures) : jsstring := lit "<br>".

(** [escapeHTML(s)]: [(s || "")] then [.replace].  A truthy value that is
    not a string has no [replace] method, and the call raises a TypeError
    ([None]). *)
Definition escapeHTML (s : value) : option jsstring :=
  match or_else s (VStr []) with
  | VStr str => Some (replace escape_re entity true str)
  | _ => None
  end.

(** [liteMarkdown(s)]; [None] is the TypeError of [escapeHTML]. *)
Definition liteMarkdown (s : value) : option jsstring :=
  match escapeHTML (or_else s (VStr [])) with
  | Some out =>
      let out := replace bold_re strong true out in
      let out := replace bullet_re bulleted true out in
      let out := replace newline_re br true out in
      Some out
  | None => None
  end.

(** ** The four patterns, read directly *)

(** The same four passes as plain functions on strings, which is how the
    statements below reason about them; they are proved equal to the
    passes above. *)

(** The replacer of [escapeHTML]: the object literal indexed by the matched
    character. *)
Definition escape_char (c : N) : jsstring :=
  if (c =? Ch.amp)%N then lit "&amp;"
  else if (c =? Ch.lt)%N then lit "&lt;"
  else if (c =? Ch.gt)%N then lit "&gt;"
  else [c].

(** [s.replace(/[&<>]/g, c => ...)] on a string. *)
Definition escape_string (s : jsstring) : jsstring := flat_map escape_char s.

(** *** The bold pass: [/\*\*(.+?)\*\*/g] *)

(** The two literal stars [\*\*] at the head of [s]; returns what follows. *)
Definition two_stars (s : jsstring) : option jsstring :=
  match s with
  | a :: b :: rest =>
      if ((a =? Ch.star) && (b =? Ch.star))%N then Some rest else None
  | _ => None
  end.

(** [(.+?)\*\*] at the head of [s]: the group takes one character that is
    not a line terminator, then tries the closing stars, and only on
    failure takes one more character (lazy).  Returns the capture and what
    follows the match. *)
Fixpoint bold_group (s : jsstring) : option (jsstring * jsstring) :=
  match s with
  | [] => None
  | c :: s' =>
      if is_line_terminator c then None
      else match two_stars s' with
           | Some rest => Some ([c], rest)
           | None => match bold_group s' with
                     | Some (cap, rest) => Some (c :: cap, rest)
                     | None => None
                     end
           end
  end.

(** The whole pattern at the head of [s]. *)
Definition match_bold (s : jsstring) : option (jsstring * jsstring) :=
  match two_stars s with
  | Some s' => bold_group s'
  | None => None
  end.

Lemma two_stars_shorter s rest :
  two_stars s = Some rest -> length s = 2 + length rest.
Proof.
  destruct s as [|a [|b s]]; simpl; try discriminate.
  destruct (_ && _); [|discriminate]. now intros [= <-].
Qed.

Lemma bold_group_shorter s cap rest :
  bold_group s = Some (cap, rest) -> length rest < length s.
Proof.
  revert cap rest. induction s as [|c s IH]; intros cap rest; simpl.
  - discriminate.
  - destruct (is_line_terminator c); [discriminate|].
    destruct (two_stars s) as [r|] eqn:E.
    + intros [= <- <-]. apply two_stars_shorter in E. lia.
    + destruct (bold_group s) as [[cap' rest']|]; [|discriminate].
      intros [= <- <-]. specialize (IH _ _ eq_refl). lia.
Qed.

Lemma match_bold_shorter s cap rest :
  match_bold s = Some (cap, rest) -> length rest < length s.
Proof.
  unfold match_bold. destruct (two_stars s) as [s'|] eqn:E; [|discriminate].
  intros H. apply bold_group_shorter in H. apply two_stars_shorter in E. lia.
Qed.

(** [out.replace(/\*\*(.+?)\*\*/g, "<strong>$1</strong>")]: scan left to
    right; at a match emit the tagged capture and carry on after it,
    otherwise copy one character. *)
Equations replace_bold (s : jsstring) : jsstring by wf (length s) lt :=
  replace_bold [] := [];
  replace_bold (c :: s') with inspect (match_bold (c :: s')) := {
    | exist _ (Some (cap, rest)) _ :=
        lit "<strong>" ++ cap ++ lit "</strong>" ++ replace_bold rest;
    | exist _ None _ := c :: replace_bold s' }.
Next Obligation.
  match goal with H : match_bold _ = Some _ |- _ =>
    apply match_bold_shorter in H; exact H end.
Qed.

(** *** The bullet pass: [/(^|\n)[*-]\s+(.+)/g] *)

(** [(.+)] at the head of [s], greedy, with nothing after it in the
    pattern: the longest run of characters that are not line terminators,
    which must not be empty. *)
Fixpoint dot_run (s : jsstring) : jsstring * jsstring :=
  match s with
  | [] => ([], [])
  | c :: s' => if is_line_terminator c then ([], s)
               else let (run, rest) := dot_run s' in (c :: run, rest)
  end.

Definition dot_plus (s : jsstring) : option (jsstring * jsstring) :=
  match dot_run s with
  | ([], _) => None
  | (run, rest) => Some (run, rest)
  end.

(** [\s+(.+)] at the head of [s]: the greedy [\s+] first tries to take one
    more white-space character; where the rest of the pattern then fails it
    gives that character back and lets [(.+)] start there. *)
Fixpoint spaces_then_text (s : jsstring) : option (jsstring * jsstring) :=
  match s with
  | [] => None
  | c :: s' =>
      if is_space c then
        match spaces_then_text s' with
        | Some r => Some r
        | None => dot_plus s'
        end
      else None
  end.

(** [[*-]\s+(.+)] at the head of [s]; returns the second group and what
    follows the match. *)
Definition bullet_tail (s : jsstring) : option (jsstring * jsstring) :=
  match s with
  | m :: s' => if is_marker m then spaces_then_text s' else None
  | [] => None
  end.

(** The whole pattern at the head of [s].  Without the [m] flag [^] holds
    at index 0 only ([at_start]); the alternative [\n] is tried when [^]
    or what follows it fails.  Returns both groups and the rest. *)
Definition match_bullet (at_start : bool) (s : jsstring)
  : option (jsstring * jsstring * jsstring) :=
  match (if at_start then bullet_tail s else None) with
  | Some (p2, rest) => Some ([], p2, rest)
  | None =>
      match s with
      | c :: s' =>
          if (c =? Ch.newline)%N then
            match bullet_tail s' with
            | Some (p2, rest) => Some ([c], p2, rest)
            | None => None
            end
          else None
      | [] => None
      end
  end.

Lemma dot_run_length s :
  length (fst (dot_run s)) + length (snd (dot_run s)) = length s.
Proof.
  induction s as [|c s IH]; simpl; [reflexivity|].
  destruct (is_line_terminator c); simpl; [reflexivity|].
  destruct (dot_run s); simpl in *. lia.
Qed.

Lemma dot_plus_shorter s p2 rest :
  dot_plus s = Some (p2, rest) -> length rest < length s.
Proof.
  unfold dot_plus. pose proof (dot_run_length s) as H.
  destruct (dot_run s) as [[|c run] r]; [discriminate|].
  intros [= <- <-]. simpl in H. lia.
Qed.

Lemma spaces_then_text_shorter s p2 rest :
  spaces_then_text s = Some (p2, rest) -> length rest < length s.
Proof.
  revert p2 rest. induction s as [|c s IH]; intros p2 rest; simpl.
  - discriminate.
  - destruct (is_space c); [|discriminate].
    destruct (spaces_then_text s) as [[p r]|].
    + intros [= <- <-]. specialize (IH _ _ eq_refl). lia.
    + intros H. apply dot_plus_shorter in H. lia.
Qed.

Lemma bullet_tail_shorter s p2 rest :
  bullet_tail s = Some (p2, rest) -> length rest < length s.
Proof.
  destruct s as [|m s]; simpl; [discriminate|].
  destruct (is_marker m); [|discriminate].
  intros H. apply spaces_then_text_shorter in H. lia.
Qed.

Lemma match_bullet_shorter b s p1 p2 rest :
  match_bullet b s = Some (p1, p2, rest) -> length rest < length s.
Proof.
  unfold match_bullet.
  destruct (if b then bullet_tail s else None) as [[q r]|] eqn:E.
  - intros [= <- <- <-]. destruct b; [|discriminate].
    now apply bullet_tail_shorter in E.
  - destruct s as [|c s]; [discriminate|].
    destruct (c =? Ch.newline)%N; [|discriminate].
    destruct (bullet_tail s) as [[q r]|] eqn:E'; [|discriminate].
    intros [= <- <- <-]. apply bullet_tail_shorter in E'. simpl. lia.
Qed.

(** [out.replace(/(^|\n)[*-]\s+(.+)/g, (_m, p1, p2) => `${p1}• ${p2}`)],
    scanning from the position whose "is index 0" flag is [at_start]. *)
Equations bullets_from (at_start : bool) (s : jsstring) : jsstring
  by wf (length s) lt :=
  bullets_from _ [] := [];
  bullets_from b (c :: s') with inspect (match_bullet b (c :: s')) := {
    | exist _ (Some (p1, p2, rest)) _ :=
        p1 ++ [Ch.bullet; Ch.space] ++ p2 ++ bullets_from false rest;
    | exist _ None _ := c :: bullets_from false s' }.
Next Obligation.
  match goal with H : match_bullet _ _ = Some _ |- _ =>
    apply match_bullet_shorter in H; exact H end.
Qed.

Definition replace_bullets (s : jsstring) : jsstring := bullets_from true s.

(** [out.replace(/\n/g, "<br>")]. *)
Definition replace_newlines (s : jsstring) : jsstring :=
  flat_map (fun c => if (c =? Ch.newline)%N then lit "<br>" else [c]) s.

(** A match of the direct reading as a [result] with one more capture. *)
Definition with_group (n : nat) (c : captures) (r : option (jsstring * jsstring))
  : result :=
  match r with
  | Some (cap, after) => Some ((n, cap) :: c, after)
  | None => None
  end.

(** *** Lines, for the statements about bullets *)





Definition not_newline (c : N) : bool := negb (c =? Ch.newline)%N.

(** No [**] anywhere in [s]. *)
Fixpoint no_two_stars (s : jsstring) : bool :=
  match s with
  | [] => true
  | _ :: s' => match two_stars s with
               | Some _ => false
               | None => no_two_stars s'
               end
  end.









(** ** The host: built-ins whose results the script only passes along *)

(** Both conversions between strings and doubles round, and how they round
    is the engine's business.  The script never looks inside their
    results, so they stay parameters. *)
Class Host := {
  (** StringToNumber, the core of [Number(s)] for a string [s]. *)
  StringToNumber : jsstring -> number;
  (** [Number(o)] for an array or object [o] (ToPrimitive, then ToNumber). *)
  ObjectToNumber : value -> number;
  (** Number::toString for a finite value that is not an integer of
      magnitude at most 2^53: beyond that the digits shown are the shortest
      that read back as the same double, not the digits of the value. *)
  NumberToString_other : Q -> jsstring
}.

Section Widget.
Context {host : Host}.

(** [Number(v)]. *)
Definition Number (v : value) : number :=
  match v with
  | VUndefined => NaN
  | VNull => num_of_Z 0
  | VBool b => num_of_Z (if b then 1 else 0)
  | VNum n => n
  | VStr s => StringToNumber s
  | VArr _ | VObj _ => ObjectToNumber v
  end.

(** The string a template literal shows for a number.  An integer of
    magnitude at most 2^53 is shown digit for digit. *)
Definition NumberToString (n : number) : jsstring :=
  match n with
  | NaN => lit "NaN"
  | Inf false => lit "Infinity"
  | Inf true => lit "-Infinity"
  | Fin q =>
      let r := Qred q in
      if ((Qden r =? 1)%positive && (Z.abs (Qnum r) <=? 2 ^ 53)%Z)%bool
      then decimal (Qnum r)
      else NumberToString_other q
  end.

(** *** Config *)

Record Config := {
  API_BASE : jsstring;
  INPUT_LIMIT : number
}.

(** [const INPUT_LIMIT = Number(window.INPUT_LIMIT || 350)]. *)
Definition input_limit_of (window_INPUT_LIMIT : value) : number :=
  Number (or_else window_INPUT_LIMIT (VNum (num_of_Z 350))).

(** [const API_BASE = (window.API_BASE || "").trim()]; a truthy value that
    is not a string has no [trim], and the script stops there ([None]). *)
Definition api_base_of (window_API_BASE : value) : option jsstring :=
  match or_else window_API_BASE (VStr []) with
  | VStr s => Some (trim s)
  | _ => None
  end.

Definition load_config (window_API_BASE window_INPUT_LIMIT : value)
  : option Config :=
  match api_base_of window_API_BASE with
  | Some base => Some {| API_BASE := base;
                         INPUT_LIMIT := input_limit_of window_INPUT_LIMIT |}
  | None => None
  end.

(** *** State and DOM *)

Inductive Role := user | assistant.

Record Message := {
  role : Role;
  content : value
}.

Record State := {
  messages : list Message;
  loading : bool
}.

(** The children [render] puts under [#messages]. *)
Inductive Node :=
| Bubble (wrap_class bubble_class innerHTML : jsstring)
| Typing (className textContent : jsstring).

(** Everything the handlers read or write.  The five DOM nodes are taken to
    exist, as the interface asks: the script dereferences each of them
    while it loads. *)
Record World := {
  config : Config;
  state : State;
  elInput_value : jsstring;          (* #chat-input .value *)
  elCounter_textContent : jsstring;  (* #char-counter .textContent *)
  elMessages : list Node;            (* children of #messages *)
  theme_dark : bool;                 (* body has class theme-dark *)
  btnTheme_textContent : jsstring;   (* #toggle-theme .textContent *)
  localStorage_theme : option jsstring
}.

Definition greeting : Message :=
  {| role := assistant;
     content := VStr (lit "Halo! Saya **CCCC.AI**. Tanyakan apa pun tentang CC Cup XL (cccup.id).") |}.

Definition initial_state : State :=
  {| messages := [greeting]; loading := false |}.

(** *** Handlers: state and exceptions *)

Inductive Res (A : Type) :=
| Ok (a : A)
| Throw.
Arguments Ok {A} a.
Arguments Throw {A}.

Definition M (A : Type) : Type := World -> Res A * World.

Definition ret {A} (a : A) : M A := fun w => (Ok a, w).

Definition bind {A B} (m : M A) (k : A -> M B) : M B :=
  fun w => match m w with
           | (Ok a, w') => k a w'
           | (Throw, w') => (Throw, w')
           end.

Definition throw {A} : M A := fun w => (Throw, w).

Definition get : M World := fun w => (Ok w, w).

Definition modify (f : World -> World) : M unit := fun w => (Ok tt, f w).

(** [try { body } catch { handler }]. *)
Definition try_catch {A} (body handler : M A) : M A :=
  fun w => match body w with
           | (Ok a, w') => (Ok a, w')
           | (Throw, w') => handler w'
           end.

(** [try { body } finally { final }]: [final] always runs; its own
    exception replaces the outcome of [body]. *)
Definition try_finally {A} (body : M A) (final : M unit) : M A :=
  fun w => match body w with
           | (r, w') => match final w' with
                        | (Ok _, w'') => (r, w'')
                        | (Throw, w'') => (Throw, w'')
                        end
           end.

Definition when (b : bool) (m : M unit) : M unit := if b then m else ret tt.

End Widget.

Arguments Ok {A} a.
Arguments Throw {A}.

Declare Scope handler_scope.
Delimit Scope handler_scope with handler.
Notation "x <- m ;; k" := (bind m (fun x => k))
  (at level 61, m at next level, right associativity) : handler_scope.
Notation "m ;; k" := (bind m (fun _ => k))
  (at level 61, right associativity) : handler_scope.
Open Scope handler_scope.

Section Handlers.
Context {host : Host}.

Definition with_state (w : World) (st : State) : World :=
  {| config := config w; state := st;
     elInput_value := elInput_value w;
     elCounter_textContent := elCounter_textContent w;
     elMessages := elMessages w;
     theme_dark := theme_dark w;
     btnTheme_textContent := btnTheme_textContent w;
     localStorage_theme := localStorage_theme w |}.

Definition with_input (w : World) (s : jsstring) : World :=
  {| config := config w; state := state w;
     elInput_value := s;
     elCounter_textContent := elCounter_textContent w;
     elMessages := elMessages w;
     theme_dark := theme_dark w;
     btnTheme_textContent := btnTheme_textContent w;
     localStorage_theme := localStorage_theme w |}.

Definition with_counter (w : World) (s : jsstring) : World :=
  {| config := config w; state := state w;
     elInput_value := elInput_value w;
     elCounter_textContent := s;
     elMessages := elMessages w;
     theme_dark := theme_dark w;
     btnTheme_textContent := btnTheme_textContent w;
     localStorage_theme := localStorage_theme w |}.

Definition with_children (w : World) (ns : list Node) : World :=
  {| config := config w; state := state w;
     elInput_value := elInput_value w;
     elCounter_textContent := elCounter_textContent w;
     elMessages := ns;
     theme_dark := theme_dark w;
     btnTheme_textContent := btnTheme_textContent w;
     localStorage_theme := localStorage_theme w |}.

Definition with_theme (w : World) (dark : bool) (label : jsstring)
    (stored : option jsstring) : World :=
  {| config := config w; state := state w;
     elInput_value := elInput_value w;
     elCounter_textContent := elCounter_textContent w;
     elMessages := elMessages w;
     theme_dark := dark;
     btnTheme_textContent := label;
     localStorage_theme := stored |}.

(** [state.messages.push(m)]. *)
Definition push (m : Message) : M unit :=
  modify (fun w => with_state w {| messages := messages (state w) ++ [m];
                                   loading := loading (state w) |}).

(** [state.loading = b]. *)
Definition set_loading (b : bool) : M unit :=
  modify (fun w => with_state w {| messages := messages (state w);
                                   loading := b |}).

(** [elInput.value = s]. *)
Definition set_input (s : jsstring) : M unit :=
  modify (fun w => with_input w s).

(** [elCounter.textContent = s]. *)
Definition set_counter (s : jsstring) : M unit :=
  modify (fun w => with_counter w s).

(** [elMessages.innerHTML = ""]. *)
Definition clear_children : M unit :=
  modify (fun w => with_children w []).

(** [elMessages.appendChild(n)]. *)
Definition appendChild (n : Node) : M unit :=
  modify (fun w => with_children w (elMessages w ++ [n])).

(** *** render *)

Definition bubble (r : Role) (html : jsstring) : Node :=
  Bubble (lit "msg " ++ match r with user => lit "right" | assistant => lit "left" end)
         (lit "bubble " ++ match r with user => lit "bubble-user"
                                      | assistant => lit "bubble-bot" end)
         html.

Definition typing_indicator : Node :=
  Typing (lit "typing bubble bubble-bot")
         (lit "CCCC.AI sedang mengetik" ++ [Ch.ellipsis]).

(** The body of the [forEach]: format, wrap, append. *)
Definition render_message (m : Message) : M unit :=
  match liteMarkdown (content m) with
  | Some html => appendChild (bubble (role m) html)
  | None => throw
  end.

Fixpoint forEach {A} (f : A -> M unit) (l : list A) : M unit :=
  match l with
  | [] => ret tt
  | x :: l' => f x ;; forEach f l'
  end.

(** [render()].  The final [scrollTo] moves the viewport only. *)
Definition render : M unit :=
  clear_children ;;
  w <- get ;;
  forEach render_message (messages (state w)) ;;
  w <- get ;;
  when (loading (state w)) (appendChild typing_indicator).

(** *** updateCounter *)

(** [updateCounter()].  The input box exists, so the leading [if (!elInput)
    return] never fires; the trailing [autoGrow()] only writes the height
    of the box. *)
Definition updateCounter : M unit :=
  w <- get ;;
  let limit := INPUT_LIMIT (config w) in
  when (num_gt (num_of_nat (length (elInput_value w))) limit)
       (set_input (slice (elInput_value w) (num_of_Z 0) (Some limit))) ;;
  w <- get ;;
  set_counter (NumberToString (num_of_nat (length (elInput_value w)))
               ++ lit " / " ++ NumberToString limit ++ lit " characters").

(** *** send *)

Record Request := {
  url : jsstring;
  method : jsstring;
  headers : list (jsstring * jsstring);
  body_messages : list Message   (* the value under "messages" in the JSON body *)
}.

(** How the exchange started by [fetch] ends.  [Rejected]: [fetch] itself
    rejects (network or transport failure).  [Responded status json]: a
    response with that status arrived; [json] is what [resp.json()] resolves
    to, [None] when it rejects (malformed JSON, body cut short). *)
Inductive FetchOutcome :=
| Rejected
| Responded (status : Z) (json : option value).

(** [resp.ok]. *)
Definition ok (status : Z) : bool := ((200 <=? status) && (status <=? 299))%Z.

Definition empty_notice : jsstring := lit "Maaf, respons kosong.".

Definition error_notice : jsstring :=
  lit "Maaf, terjadi kesalahan saat menghubungi server.".

(** [send()] up to its first [await]: the guard, the user turn, and the
    call of [fetch].  Returns the request handed to [fetch], or [None] when
    the guard returned early.  On the strings they are applied to,
    [elInput.value || ""] and [API_BASE || ""] change nothing. *)
Definition send : M (option Request) :=
  w <- get ;;
  let text := trim (elInput_value w) in
  if (is_empty text || loading (state w))%bool then ret None
  else
    push {| role := user; content := VStr text |} ;;
    set_input [] ;;
    updateCounter ;;
    set_loading true ;;
    render ;;
    w <- get ;;
    let url := API_BASE (config w) ++ lit "/v1/chat/completions" in
    let history := slice (messages (state w)) (num_of_Z 1) None in
    let last12 := slice history (num_of_Z (-12)) None in
    ret (Some {| url := url;
                 method := lit "POST";
                 headers := [(lit "Content-Type", lit "application/json")];
                 body_messages := last12 |}).

(** [data?.content || data?.choices?.[0]?.message?.content
     || "Maaf, respons kosong."]. *)
Definition answer (data : value) : value :=
  or_else (get_named data (lit "content"))
    (or_else
       (get_named
          (get_named (get_index (get_named data (lit "choices")) 0)
                     (lit "message"))
          (lit "content"))
       (VStr empty_notice)).

(** What is left of the [try] block once [fetch] has settled: the status
    check (reading the body of a failed response for the error text either
    rejects or is followed by the [throw]), the JSON body, the answer. *)
Definition receive (o : FetchOutcome) : M unit :=
  match o with
  | Rejected => throw
  | Responded status json =>
      if negb (ok status) then throw
      else match json with
           | None => throw
           | Some data => push {| role := assistant; content := answer data |}
           end
  end.

(** The continuation of [send()] after the [await]: the rest of [try], then
    [catch] and [finally]. *)
Definition send_settle (o : FetchOutcome) : M unit :=
  try_finally
    (try_catch
       (receive o)
       (push {| role := assistant; content := VStr error_notice |}))
    (set_loading false ;; render).

(** *** Theme toggle *)

Definition sun : jsstring := [9728; 65039]%N.
Definition moon : jsstring := [55356; 57113]%N.

(** The click listener of [#toggle-theme]. *)
Definition toggleTheme : M unit :=
  w <- get ;;
  let dark := negb (theme_dark w) in
  modify (fun w => with_theme w dark (if dark then sun else moon)
                              (Some (if dark then lit "dark" else lit "light"))).

(** *** Start-up and the event loop *)

(** The world right after the script has run: the seeded state, then
    [updateCounter(); render();] and the stored theme applied.
    [input] and [label] are what the page holds in the input box and on the
    theme button when the script starts. *)
Definition boot (c : Config) (stored : option jsstring)
    (input label : jsstring) : World :=
  let w0 := {| config := c; state := initial_state;
               elInput_value := input;
               elCounter_textContent := [];
               elMessages := [];
               theme_dark := false;
               btnTheme_textContent := label;
               localStorage_theme := stored |} in
  let w1 := snd ((updateCounter ;; render) w0) in
  match stored with
  | Some t => if jsstring_eqb t (lit "dark")
              then with_theme w1 true sun stored
              else w1
  | None => w1
  end.

(** The page: the world and the exchanges that are under way. *)
Record Page := {
  world : World;
  in_flight : list Request
}.

Inductive Event :=
| Input (text : jsstring)       (* the user edits the box: "input" *)
| Submit                        (* click on send, or Enter *)
| Settle (o : FetchOutcome)     (* the oldest exchange settles *)
| ToggleTheme.

(** One turn of the event loop.  An exception ends the handler and leaves
    the world as it was at the throw. *)
Definition step (p : Page) (e : Event) : Page :=
  match e with
  | Input text =>
      {| world := snd ((set_input text ;; updateCounter) (world p));
         in_flight := in_flight p |}
  | Submit =>
      match send (world p) with
      | (Ok (Some req), w') =>
          {| world := w'; in_flight := in_flight p ++ [req] |}
      | (_, w') => {| world := w'; in_flight := in_flight p |}
      end
  | Settle o =>
      match in_flight p with
      | [] => p
      | _ :: rest =>
          {| world := snd (send_settle o (world p)); in_flight := rest |}
      end
  | ToggleTheme =>
      {| world := snd (toggleTheme (world p)); in_flight := in_flight p |}
  end.

Definition run (p : Page) (trace : list Event) : Page := fold_left step trace p.

Definition start (c : Config) (stored : option jsstring)
    (input label : jsstring) : Page :=
  {| world := boot c stored input label; in_flight := [] |}.

(** *** Vocabulary of the statements *)

Definition is_text (v : value) : bool :=
  match v with VStr _ => true | _ => false end.

(** Every turn of the transcript holds a string, as the data model has it. *)
Definition text_only (ms : list Message) : bool :=
  forallb (fun m => is_text (content m)) ms.

(** The bubbles [render] builds for a transcript. *)
Definition bubbles (ms : list Message) : list Node :=
  flat_map (fun m => match liteMarkdown (content m) with
                     | Some html => [bubble (role m) html]
                     | None => []
                     end) ms.

(** The user turn [send] pushes for the current input. *)
Definition user_turn (w : World) : Message :=
  {| role := user; content := VStr (trim (elInput_value w)) |}.

(** The guard of [send] lets the call through. *)
Definition accepts (w : World) : bool :=
  (negb (is_empty (trim (elInput_value w))) && negb (loading (state w)))%bool.

(** An exchange that failed: [fetch] rejected, the status is not 2xx, or
    the body is not JSON. *)
Definition failed (o : FetchOutcome) : bool :=
  match o with
  | Rejected => true
  | Responded status json =>
      (negb (ok status) || match json with None => true | Some _ => false end)%bool
  end.

(** A response as the interface describes it: where the exchange succeeds,
    the answer the script picks is a string. *)
Definition conforming (o : FetchOutcome) : bool :=
  match o with
  | Responded status (Some data) => (negb (ok status) || is_text (answer data))%bool
  | _ => true
  end.

Definition conforming_event (e : Event) : bool :=
  match e with
  | Settle o => conforming o
  | _ => true
  end.

(** The text [updateCounter] writes for an input of [len] units. *)
Definition counter_text (len : nat) (limit : number) : jsstring :=
  NumberToString (num_of_nat len) ++ lit " / " ++ NumberToString limit
  ++ lit " characters".

(** The input as [updateCounter] leaves it. *)
Definition clipped (limit : number) (input : jsstring) : jsstring :=
  if num_gt (num_of_nat (length input)) limit
  then slice input (num_of_Z 0) (Some limit)
  else input.

(** The world [send] hands to its first [render]: the user turn pushed, the
    box emptied and counted, [loading] raised. *)
Definition turn_pushed (w : World) : World :=
  with_state
    (with_counter (with_input w []) (counter_text 0 (INPUT_LIMIT (config w))))
    {| messages := messages (state w) ++ [user_turn w]; loading := true |}.

(** The request [send] builds in world [w]. *)
Definition request_of (w : World) : Request :=
  {| url := API_BASE (config w) ++ lit "/v1/chat/completions";
     method := lit "POST";
     headers := [(lit "Content-Type", lit "application/json")];
     body_messages := slice (slice (messages (state w)) (num_of_Z 1) None)
                            (num_of_Z (-12)) None |}.

Definition error_turn : Message :=
  {| role := assistant; content := VStr error_notice |}.

(** The assistant turn an outcome ends in. *)
Definition reply (o : FetchOutcome) : Message :=
  match o with
  | Responded status (Some data) =>
      if ok status then {| role := assistant; content := answer data |}
      else error_turn
  | _ => error_turn
  end.

(** The world [send_settle] hands to its [render]: the reply pushed,
    [loading] lowered. *)
Definition settled (o : FetchOutcome) (w : World) : World :=
  with_state w {| messages := messages (state w) ++ [reply o];
                  loading := false |}.

(** The two fields [answer] reads. *)
Definition content_field (data : value) : value :=
  get_named data (lit "content").

Definition nested_field (data : value) : value :=
  get_named (get_named (get_index (get_named data (lit "choices")) 0)
                       (lit "message"))
            (lit "content").

(** The flag and the exchanges under way agree, on a transcript of text. *)
Definition in_sync (p : Page) : Prop :=
  text_only (messages (state (world p))) = true
  /\ length (in_flight p) = if loading (state (world p)) then 1 else 0.

End Handlers.

(** ** A host and a few worlds to run the model on *)

Fixpoint digits_value (acc : Z) (s : jsstring) : option Z :=
  match s with
  | [] => Some acc
  | c :: s' =>
      if ((48 <=? c) && (c <=? 57))%N
      then digits_value (10 * acc + (Z.of_N c - 48)) s'
      else None
  end.

(** A host that reads unsigned decimal integers and takes every other
    string, and every object, for not a number.  The runs below stay
    within what it gets right. *)
Definition decimal_host : Host :=
  {| StringToNumber := fun s =>
       match trim s with
       | [] => num_of_Z 0
       | t => match digits_value 0 t with
              | Some z => num_of_Z z
              | None => NaN
              end
       end;
     ObjectToNumber := fun _ => NaN;
     NumberToString_other := fun _ => lit "?" |}.

(** The page as it loads with no globals set and nothing stored. *)
Definition default_config : Config :=
  {| API_BASE := []; INPUT_LIMIT := input_limit_of (host := decimal_host) VUndefined |}.

Definition fresh_page : Page :=
  start (host := decimal_host) default_config None [] moon.

(** "Hello" typed into the fresh page. *)
Definition hello_typed : Page :=
  step (host := decimal_host) fresh_page (Input (lit "Hello")).

(** The same with thirteen earlier turns behind the greeting. *)
Definition long_session : World :=
  with_state (world hello_typed)
    {| messages := greeting
                   :: repeat {| role := user; content := VStr (lit "hi") |} 13;
       loading := false |}.

(** "Hello" submitted and under way. *)
Definition hello_sent : Page :=
  step (host := decimal_host) hello_typed Submit.

(** ** The keyboard and the buttons *)

Section More.
Context {host : Host}.

(** The fields of the [keydown] event the listener reads. *)
Record KeyboardEvent := {
  isComposing : bool;
  key : jsstring;
  shiftKey : bool
}.

(** The [keydown] listener of the input box.  The boolean tells whether
    [preventDefault] was called, which keeps the line break out of the
    box. *)
Definition keydown (e : KeyboardEvent) (p : Page) : bool * Page :=
  if isComposing e then (false, p)
  else if (jsstring_eqb (key e) (lit "Enter") && negb (shiftKey e))%bool
       then (true, step p Submit)
       else (false, p).

(** What the user and the network do to the page, listener by listener. *)
Inductive Gesture :=
| Edit (text : jsstring)          (* "input" on the box *)
| KeyDown (e : KeyboardEvent)     (* "keydown" on the box *)
| ClickSend                       (* "click" on #btn-send *)
| ClickTheme                      (* "click" on #toggle-theme *)
| Arrive (o : FetchOutcome).      (* the exchange settles *)

Definition react (p : Page) (g : Gesture) : Page :=
  match g with
  | Edit text => step p (Input text)
  | KeyDown e => snd (keydown e p)
  | ClickSend => step p Submit
  | ClickTheme => step p ToggleTheme
  | Arrive o => step p (Settle o)
  end.

(** [localStorage.getItem("theme") === "dark"], the test the script makes
    while it loads. *)
Definition prefers_dark (stored : option jsstring) : bool :=
  match stored with
  | Some t => jsstring_eqb t (lit "dark")
  | None => false
  end.

(** ** Vocabulary of the further statements *)

(** *** Keys and events *)

(** Enter without Shift, outside a composition. *)
Definition plain_enter (e : KeyboardEvent) : bool :=
  (negb (isComposing e) && jsstring_eqb (key e) (lit "Enter")
   && negb (shiftKey e))%bool.

(** The events of the loop a gesture amounts to. *)
Definition events_of (g : Gesture) : list Event :=
  match g with
  | Edit text => [Input text]
  | KeyDown e => if plain_enter e then [Submit] else []
  | ClickSend => [Submit]
  | ClickTheme => [ToggleTheme]
  | Arrive o => [Settle o]
  end.

Definition is_toggle (e : Event) : bool :=
  match e with ToggleTheme => true | _ => false end.

(** *** Strings and markup *)

Definition not_angle (c : N) : bool :=
  (negb (c =? Ch.lt) && negb (c =? Ch.gt))%N.

(** No line terminator in [s]: what a run of [.] can match. *)
Definition single_line (s : jsstring) : bool :=
  forallb (fun c => negb (is_line_terminator c)) s.

(** The end of the input or of a line: where a greedy [.+] stops. *)
Definition at_line_end (s : jsstring) : bool :=
  match s with
  | [] => true
  | c :: _ => is_line_terminator c
  end.

Definition stars : jsstring := [Ch.star; Ch.star].

(** A character none of the four passes looks for. *)
Definition plain (c : N) : bool :=
  (negb (c =? Ch.amp) && negb (c =? Ch.lt) && negb (c =? Ch.gt)
   && negb (c =? Ch.star) && negb (c =? Ch.dash) && negb (c =? Ch.newline))%N.

(** The HTML [liteMarkdown] is meant to write: text without angle
    brackets, [<br>] elements, and [<strong>] elements that are closed,
    not nested, and hold text on one line. *)
Inductive markup : jsstring -> Prop :=
| markup_nil : markup []
| markup_text c s : not_angle c = true -> markup s -> markup (c :: s)
| markup_br s : markup s -> markup (lit "<br>" ++ s)
| markup_strong cap s :
    cap <> [] -> forallb not_angle cap = true -> single_line cap = true ->
    markup s -> markup (lit "<strong>" ++ cap ++ lit "</strong>" ++ s).

(** *** Turns *)

(** A value [liteMarkdown] formats: a string, or a falsy value, which
    [s || ""] turns into the empty string. *)
Definition formattable (v : value) : bool := (is_text v || negb (truthy v))%bool.

Definition all_formattable (ms : list Message) : bool :=
  forallb (fun m => formattable (content m)) ms.

Definition role_eqb (a b : Role) : bool :=
  match a, b with
  | user, user | assistant, assistant => true
  | _, _ => false
  end.

Definition other (r : Role) : Role :=
  match r with user => assistant | assistant => user end.

(** The roles of [ms] are [first], the other one, [first], and so on. *)
Fixpoint alternates (first : Role) (ms : list Message) : bool :=
  match ms with
  | [] => true
  | m :: ms' => (role_eqb (role m) first && alternates (other first) ms')%bool
  end.

(** A user turn holds text within the limit. *)
Definition within (limit : number) (m : Message) : Prop :=
  role m = user ->
  exists text, content m = VStr text
               /\ num_gt (num_of_nat (length text)) limit = false.

(** *** Pages *)

(** The counter shows the length of the input, and under a limit that is
    not below zero the input is within the limit. *)
Definition counted (p : Page) : Prop :=
  let w := world p in
  let limit := INPUT_LIMIT (config w) in
  elCounter_textContent w = counter_text (length (elInput_value w)) limit
  /\ (num_gt (num_of_nat 0) limit = false ->
      num_gt (num_of_nat (length (elInput_value w))) limit = false).

(** The counter is right and the user turns are within the limit. *)
Definition bounded (p : Page) : Prop :=
  let limit := INPUT_LIMIT (config (world p)) in
  counted p /\ Forall (within limit) (messages (state (world p))).

(** The class on [body] says what the store says, and the button shows
    the sun while the page is dark. *)
Definition themed (label0 : jsstring) (p : Page) : Prop :=
  let w := world p in
  theme_dark w = prefers_dark (localStorage_theme w)
  /\ (theme_dark w = true -> btnTheme_textContent w = sun)
  /\ (theme_dark w = false ->
      btnTheme_textContent w = moon \/ btnTheme_textContent w = label0).

(** Turns alternate from the greeting on, none of them is falsy, the flag
    is up exactly when the last turn is the user's, and an exchange is
    under way only while the flag is up. *)
Definition orderly (p : Page) : Prop :=
  let st := state (world p) in
  alternates assistant (messages st) = true
  /\ forallb (fun m => truthy (content m)) (messages st) = true
  /\ loading st = Nat.even (length (messages st))
  /\ length (in_flight p) <= (if loading st then 1 else 0).

(** The children of [#messages] are the rendering of the state. *)
Definition shown (p : Page) : Prop :=
  let w := world p in
  text_only (messages (state w)) = true
  /\ elMessages w
     = bubbles (messages (state w))
       ++ (if loading (state w) then [typing_indicator] else []).

(** The flag is up with no exchange behind it: nothing is under way, and
    the guard lets nothing through. *)
Definition stuck (p : Page) : Prop :=
  loading (state (world p)) = true /\ in_flight p = [].

End More.


(** * Properties *)

(** ** Index arithmetic of slice *)

Lemma Qtruncate_inject_Z z : Qtruncate (inject_Z z) = z.
Proof.
  unfold Qtruncate. simpl.
  destruct (z <? 0)%Z; [apply Qceiling_Z | apply Qfloor_Z].
Qed.

Lemma ToIntegerOrInfinity_Z z : ToIntegerOrInfinity (num_of_Z z) = Int z.
Proof. unfold num_of_Z. simpl. now rewrite Qtruncate_inject_Z. Qed.

(** [l.slice(1)] drops the first element. *)
Lemma slice_from_1 {A} (l : list A) : slice l (num_of_Z 1) None = tl l.
Proof.
  unfold slice. rewrite ToIntegerOrInfinity_Z. simpl.
  destruct l as [|x l]; simpl; [reflexivity|].
  rewrite Nat.sub_0_r. apply firstn_all.
Qed.

(** [l.slice(-k)] keeps the last [k] elements, or all of [l] when it has
    fewer. *)
Lemma slice_last {A} (l : list A) (k : nat) :
  0 < k ->
  slice l (num_of_Z (- Z.of_nat k)) None = skipn (length l - k) l.
Proof.
  intros Hk. unfold slice. rewrite ToIntegerOrInfinity_Z.
  unfold relative_index.
  replace (- Z.of_nat k <? 0)%Z with true by (symmetry; apply Z.ltb_lt; lia).
  replace (Z.to_nat (Z.max (Z.of_nat (length l) + - Z.of_nat k) 0))
    with (length l - k) by lia.
  apply firstn_all2. rewrite length_skipn. lia.
Qed.

(** [l.slice(0, n)] for a natural number [n] is the prefix of length [n]. *)
Lemma slice_prefix {A} (l : list A) (n : nat) :
  slice l (num_of_Z 0) (Some (num_of_nat n)) = firstn n l.
Proof.
  unfold slice, num_of_nat. rewrite !ToIntegerOrInfinity_Z.
  unfold relative_index.
  replace (Z.of_nat n <? 0)%Z with false by (symmetry; apply Z.ltb_ge; lia).
  simpl. rewrite Nat.sub_0_r, Nat2Z.id.
  destruct (Nat.le_ge_cases n (length l)) as [H|H].
  - now rewrite Nat.min_l.
  - rewrite Nat.min_r by exact H. rewrite firstn_all.
    symmetry. now apply firstn_all2.
Qed.

Lemma skipn_last_length {A} (l : list A) (k : nat) :
  length (skipn (length l - k) l) = Nat.min k (length l).
Proof. rewrite length_skipn. lia. Qed.

(** ** Handlers, one at a time *)

Section HandlerFacts.
Context {host : Host}.

Arguments liteMarkdown : simpl never.
Arguments NumberToString : simpl never.
Arguments trim : simpl never.
Arguments slice : simpl never.
Arguments lit : simpl never.
Arguments num_gt : simpl never.

Lemma bind_Ok {A B} (m : M A) (k : A -> M B) w a w' :
  m w = (Ok a, w') -> bind m k w = k a w'.
Proof. unfold bind. now intros ->. Qed.

Lemma bind_Throw {A B} (m : M A) (k : A -> M B) w w' :
  m w = (Throw, w') -> bind m k w = (Throw, w').
Proof. unfold bind. now intros ->. Qed.

Lemma with_children_twice w ns ns' :
  with_children (with_children w ns) ns' = with_children w ns'.
Proof. reflexivity. Qed.

Lemma text_liteMarkdown v : is_text v = true -> exists html, liteMarkdown v = Some html.
Proof.
  destruct v; try discriminate. intros _.
  unfold liteMarkdown, escapeHTML, or_else.
  destruct s as [|c s]; simpl; eauto.
Qed.

Lemma bubbles_app ms ms' : bubbles (ms ++ ms') = bubbles ms ++ bubbles ms'.
Proof. apply flat_map_app. Qed.

(** One bubble per turn when the transcript holds text. *)
Lemma bubbles_length ms : text_only ms = true -> length (bubbles ms) = length ms.
Proof.
  induction ms as [|m ms IH]; simpl; [reflexivity|].
  intros H. apply andb_true_iff in H as [Hm Hms].
  destruct (text_liteMarkdown _ Hm) as [html ->]. simpl. now rewrite IH.
Qed.

(** The [forEach] of [render] appends one bubble per turn, or stops at the
    first turn it cannot format. *)
Lemma render_message_text m html w :
  liteMarkdown (content m) = Some html ->
  render_message m w
  = (Ok tt, with_children w (elMessages w ++ [bubble (role m) html])).
Proof. unfold render_message. now intros ->. Qed.

Lemma render_message_throws m w :
  liteMarkdown (content m) = None -> render_message m w = (Throw, w).
Proof. unfold render_message. now intros ->. Qed.

Lemma forEach_render_text ms :
  text_only ms = true ->
  forall w, forEach render_message ms w
            = (Ok tt, with_children w (elMessages w ++ bubbles ms)).
Proof.
  induction ms as [|m ms IH]; intros H w.
  - simpl. rewrite app_nil_r. now destruct w.
  - apply andb_true_iff in H as [Hm Hms].
    destruct (text_liteMarkdown _ Hm) as [html Hhtml].
    cbn [forEach].
    rewrite (bind_Ok _ _ _ (render_message_text _ _ Hhtml)).
    rewrite IH by exact Hms.
    cbn [bubbles flat_map]. rewrite Hhtml.
    rewrite with_children_twice. cbn [elMessages with_children].
    now rewrite <- app_assoc.
Qed.

Lemma forEach_render_frame ms :
  forall w, exists r ns, forEach render_message ms w = (r, with_children w ns).
Proof.
  induction ms as [|m ms IH]; intros w.
  - exists (Ok tt), (elMessages w). now destruct w.
  - cbn [forEach].
    destruct (liteMarkdown (content m)) as [html|] eqn:E.
    + rewrite (bind_Ok _ _ _ (render_message_text _ _ E)).
      destruct (IH (with_children w (elMessages w ++ [bubble (role m) html])))
        as (r & ns & ->). now exists r, ns.
    + rewrite (bind_Throw _ _ _ (render_message_throws _ _ E)).
      exists Throw, (elMessages w). now destruct w.
Qed.

(** [render] on a transcript of text rebuilds the list: one bubble per
    turn, then the typing indicator while [loading]. *)
Lemma render_text w :
  text_only (messages (state w)) = true ->
  render w = (Ok tt,
              with_children w (bubbles (messages (state w))
                               ++ if loading (state w) then [typing_indicator]
                                  else [])).
Proof.
  intros H. unfold render.
  rewrite (bind_Ok _ _ _ (eq_refl : clear_children w = (Ok tt, with_children w []))).
  rewrite (bind_Ok _ _ _ (eq_refl : get (with_children w []) = (Ok _, _))).
  cbn [state with_children].
  rewrite (bind_Ok _ _ _ (forEach_render_text _ H _)).
  rewrite with_children_twice. cbn [elMessages with_children app].
  unfold bind, get. cbn [state with_children].
  destruct (loading (state w)); [reflexivity|].
  cbn [when ret]. rewrite app_nil_r. reflexivity.
Qed.

(** Whatever happens, [render] writes the children of [#messages] only. *)
Lemma render_frame w : exists r ns, render w = (r, with_children w ns).
Proof.
  unfold render.
  rewrite (bind_Ok _ _ _ (eq_refl : clear_children w = (Ok tt, with_children w []))).
  rewrite (bind_Ok _ _ _ (eq_refl : get (with_children w []) = (Ok _, _))).
  cbn [state with_children].
  destruct (forEach_render_frame (messages (state w)) (with_children w []))
    as (r & ns & E).
  rewrite with_children_twice in E.
  destruct r as [[]|].
  - rewrite (bind_Ok _ _ _ E). unfold bind, get. cbn [state with_children].
    destruct (loading (state w)); cbn [when].
    + exists (Ok tt), (ns ++ [typing_indicator]). reflexivity.
    + exists (Ok tt), ns. reflexivity.
  - rewrite (bind_Throw _ _ _ E). eauto.
Qed.

(** [updateCounter] clips the input and rewrites the counter. *)
Lemma updateCounter_eq w :
  updateCounter w
  = (Ok tt,
     let input := clipped (INPUT_LIMIT (config w)) (elInput_value w) in
     with_counter (with_input w input)
                  (counter_text (length input) (INPUT_LIMIT (config w)))).
Proof.
  unfold updateCounter, clipped, counter_text, bind, get, set_input,
    set_counter, modify.
  destruct (num_gt _ _); cbn [when ret]; [reflexivity|].
  now destruct w.
Qed.

Lemma slice_nil {A} start stop : slice (@nil A) start stop = [].
Proof. unfold slice. rewrite skipn_nil. apply firstn_nil. Qed.

Lemma clipped_nil limit : clipped limit [] = [].
Proof. unfold clipped. destruct (num_gt _ _); [apply slice_nil | reflexivity]. Qed.

Lemma accepts_true w :
  accepts w = true <->
  is_empty (trim (elInput_value w)) = false /\ loading (state w) = false.
Proof.
  unfold accepts. rewrite andb_true_iff, !negb_true_iff. tauto.
Qed.

(** The guard of [send]: nothing happens unless the trimmed input is not
    empty and no exchange is under way. *)
Lemma send_rejects w : accepts w = false -> send w = (Ok None, w).
Proof.
  unfold accepts, send, bind, get. intros H.
  replace (is_empty (trim (elInput_value w)) || loading (state w))%bool
    with true; [reflexivity|].
  destruct (is_empty _), (loading _); simpl in *; congruence.
Qed.

(** Past the guard, [send] pushes the turn, renders, and calls [fetch]
    with the request built from the transcript, unless [render] raised. *)
Lemma send_accepts w :
  accepts w = true ->
  send w = match render (turn_pushed w) with
           | (Ok _, w') => (Ok (Some (request_of w')), w')
           | (Throw, w') => (Throw, w')
           end.
Proof.
  intros H. apply accepts_true in H as [Htext Hload].
  unfold send. rewrite (bind_Ok _ _ _ (eq_refl : get w = (Ok w, w))).
  rewrite Htext, Hload. cbn [orb].
  unfold push, set_input, set_loading.
  rewrite (bind_Ok _ _ _ (eq_refl : modify _ w = (Ok tt, _))).
  rewrite (bind_Ok _ _ _ (eq_refl : modify _ _ = (Ok tt, _))).
  rewrite (bind_Ok _ _ _ (updateCounter_eq _)).
  cbn [config elInput_value with_input with_state].
  rewrite clipped_nil. cbn [length].
  rewrite (bind_Ok _ _ _ (eq_refl : modify _ _ = (Ok tt, _))).
  cbn [state with_input with_state with_counter messages loading config
       elInput_value elCounter_textContent elMessages theme_dark
       btnTheme_textContent localStorage_theme].
  unfold bind at 1. unfold turn_pushed, user_turn.
  cbn [state with_input with_state with_counter messages loading config
       elInput_value elCounter_textContent elMessages theme_dark
       btnTheme_textContent localStorage_theme].
  destruct (render _) as [[[]|] w']; reflexivity.
Qed.

Lemma try_catch_receive o w :
  try_catch (receive o) (push error_turn) w
  = (Ok tt, with_state w {| messages := messages (state w) ++ [reply o];
                            loading := loading (state w) |}).
Proof.
  unfold try_catch, receive, reply.
  destruct o as [|status [data|]]; try reflexivity;
    destruct (ok status); reflexivity.
Qed.

(** The continuation of [send]: one reply pushed, [loading] lowered, then
    [render]. *)
Lemma send_settle_eq o w :
  send_settle o w = match render (settled o w) with
                    | (Ok _, w') => (Ok tt, w')
                    | (Throw, w') => (Throw, w')
                    end.
Proof.
  unfold send_settle, try_finally. fold error_turn.
  rewrite try_catch_receive.
  unfold set_loading.
  rewrite (bind_Ok _ _ _ (eq_refl : modify _ _ = (Ok tt, _))).
  unfold settled.
  cbn [state with_state messages loading config elInput_value
       elCounter_textContent elMessages theme_dark btnTheme_textContent
       localStorage_theme].
  destruct (render _) as [[[]|] w']; reflexivity.
Qed.

Lemma send_settle_state o w :
  state (snd (send_settle o w))
  = {| messages := messages (state w) ++ [reply o]; loading := false |}.
Proof.
  rewrite send_settle_eq.
  destruct (render_frame (settled o w)) as (r & ns & ->).
  destruct r as [[]|]; reflexivity.
Qed.

Lemma send_state w :
  state (snd (send w))
  = if accepts w
    then {| messages := messages (state w) ++ [user_turn w]; loading := true |}
    else state w.
Proof.
  destruct (accepts w) eqn:E.
  - rewrite send_accepts by exact E.
    destruct (render_frame (turn_pushed w)) as (r & ns & ->).
    destruct r as [[]|]; reflexivity.
  - now rewrite send_rejects.
Qed.

Lemma render_state w : state (snd (render w)) = state w.
Proof. destruct (render_frame w) as (r & ns & ->). reflexivity. Qed.

Lemma updateCounter_state w : state (snd (updateCounter w)) = state w.
Proof. rewrite updateCounter_eq. reflexivity. Qed.

Lemma toggleTheme_state w : state (snd (toggleTheme w)) = state w.
Proof. reflexivity. Qed.

Lemma reply_failed o : failed o = true -> reply o = error_turn.
Proof.
  destruct o as [|status [data|]]; simpl; try reflexivity.
  rewrite orb_false_r. intros H. apply negb_true_iff in H. now rewrite H.
Qed.

Lemma reply_text o : conforming o = true -> is_text (content (reply o)) = true.
Proof.
  destruct o as [|status [data|]]; simpl; try reflexivity.
  destruct (ok status); simpl; [tauto | reflexivity].
Qed.

Lemma text_only_app ms ms' :
  text_only (ms ++ ms') = (text_only ms && text_only ms')%bool.
Proof. apply forallb_app. Qed.

End HandlerFacts.

(** ** The session: what a submit does *)

Section Session.
Context {host : Host}.

Lemma turn_pushed_text w :
  text_only (messages (state w)) = true ->
  text_only (messages (state (turn_pushed w))) = true.
Proof.
  intros H. cbn [turn_pushed state with_state messages].
  rewrite text_only_app, H. reflexivity.
Qed.

(** A submit that passes the guard, on a transcript of text: the world it
    leaves and the request it sends. *)
Lemma send_accepts_text w :
  accepts w = true ->
  text_only (messages (state w)) = true ->
  let w' := with_children (turn_pushed w)
              (bubbles (messages (state w) ++ [user_turn w])
               ++ [typing_indicator]) in
  send w = (Ok (Some (request_of w')), w').
Proof.
  intros Ha Ht. rewrite send_accepts by exact Ha.
  rewrite render_text by (now apply turn_pushed_text). reflexivity.
Qed.

(** The three kinds of failure the specification lists, and no other
    outcome, count as failed. *)
Lemma failed_iff o :
  failed o = true <->
  o = Rejected
  \/ exists status json,
       o = Responded status json /\ (ok status = false \/ json = None).
Proof.
  split.
  - destruct o as [|status json]; [now left|]. simpl. intros H. right.
    exists status, json. split; [reflexivity|].
    apply orb_true_iff in H as [H|H].
    + left. now apply negb_true_iff.
    + right. now destruct json.
  - intros [->|(status & json & -> & H)]; [reflexivity|]. simpl.
    destruct H as [H|H]; [now rewrite H|].
    rewrite H. apply orb_true_r.
Qed.

(** C3. Whatever way the exchange fails (the transport, a status outside
    2xx, a body that is not JSON), the continuation appends exactly one
    assistant turn that carries the fixed error text, and leaves [loading]
    false. *)
Theorem failed_exchange_appends_error o w :
  (o = Rejected
   \/ exists status json,
        o = Responded status json /\ (ok status = false \/ json = None)) ->
  let w' := snd (send_settle o w) in
  messages (state w')
  = messages (state w)
    ++ [{| role := assistant;
           content := VStr (lit "Maaf, terjadi kesalahan saat menghubungi server.") |}]
  /\ loading (state w') = false.
Proof.
  intros Hf w'. subst w'. apply failed_iff in Hf.
  rewrite send_settle_state, (reply_failed _ Hf). split; reflexivity.
Qed.

(** A submit that passes the guard is one step that adds one exchange. *)
Lemma submit_accepted p :
  accepts (world p) = true ->
  text_only (messages (state (world p))) = true ->
  exists req w',
    send (world p) = (Ok (Some req), w')
    /\ step p Submit = {| world := w'; in_flight := in_flight p ++ [req] |}.
Proof.
  intros Ha Ht. eexists. eexists.
  split; [apply (send_accepts_text _ Ha Ht)|].
  unfold step. rewrite (send_accepts_text _ Ha Ht). reflexivity.
Qed.

(** *** One turn of the event loop *)

Lemma input_world p text :
  world (step p (Input text))
  = let w := world p in
    let input := clipped (INPUT_LIMIT (config w)) text in
    with_counter (with_input w input)
                 (counter_text (length input) (INPUT_LIMIT (config w))).
Proof.
  unfold step. cbn [world].
  unfold set_input.
  rewrite (bind_Ok _ _ _ (eq_refl : modify _ _ = (Ok tt, _))).
  rewrite updateCounter_eq. reflexivity.
Qed.

Lemma submit_world p : world (step p Submit) = snd (send (world p)).
Proof.
  unfold step. destruct (send (world p)) as [[[req|]|] w']; reflexivity.
Qed.

(** The state after one event. *)
Lemma step_state p e :
  state (world (step p e))
  = match e with
    | Submit =>
        if accepts (world p)
        then {| messages := messages (state (world p)) ++ [user_turn (world p)];
                loading := true |}
        else state (world p)
    | Settle o =>
        match in_flight p with
        | [] => state (world p)
        | _ :: _ => {| messages := messages (state (world p)) ++ [reply o];
                       loading := false |}
        end
    | _ => state (world p)
    end.
Proof.
  destruct e as [text| |o|].
  - rewrite input_world. reflexivity.
  - rewrite submit_world. apply send_state.
  - unfold step. destruct (in_flight p); [reflexivity|].
    cbn [world]. apply send_settle_state.
  - reflexivity.
Qed.

(** No handler writes the configuration. *)
Lemma step_config p e : config (world (step p e)) = config (world p).
Proof.
  destruct e as [text| |o|].
  - rewrite input_world. reflexivity.
  - rewrite submit_world. destruct (accepts (world p)) eqn:E.
    + rewrite send_accepts by exact E.
      destruct (render_frame (turn_pushed (world p))) as (r & ns & ->).
      destruct r as [[]|]; reflexivity.
    + now rewrite send_rejects.
  - unfold step. destruct (in_flight p) as [|req rest]; [reflexivity|].
    cbn [world]. rewrite send_settle_eq.
    destruct (render_frame (settled o (world p))) as (r & ns & ->).
    destruct r as [[]|]; reflexivity.
  - reflexivity.
Qed.

Lemma boot_state c stored input label :
  state (boot c stored input label) = initial_state
  /\ config (boot c stored input label) = c.
Proof.
  unfold boot.
  rewrite (bind_Ok _ _ _ (updateCounter_eq _)).
  match goal with |- context [render ?w] =>
    let r := fresh "r" in let ns := fresh "ns" in
    destruct (render_frame w) as (r & ns & ->) end.
  destruct stored as [t|]; [destruct (jsstring_eqb t (lit "dark"))|];
    split; reflexivity.
Qed.

Lemma run_app p t1 t2 : run p (t1 ++ t2) = run (run p t1) t2.
Proof. apply fold_left_app. Qed.

Lemma run_cons p e t : run p (e :: t) = run (step p e) t.
Proof. reflexivity. Qed.

End Session.

(** ** The transcript only grows *)

Section Transcript.
Context {host : Host}.

Lemma step_appends p e :
  exists added,
    messages (state (world (step p e)))
    = messages (state (world p)) ++ added.
Proof.
  rewrite step_state. destruct e as [text| |o|].
  - exists []. now rewrite app_nil_r.
  - destruct (accepts (world p)).
    + eexists. reflexivity.
    + exists []. now rewrite app_nil_r.
  - destruct (in_flight p).
    + exists []. now rewrite app_nil_r.
    + eexists. reflexivity.
  - exists []. now rewrite app_nil_r.
Qed.

Lemma run_appends trace :
  forall p, exists added,
    messages (state (world (run p trace)))
    = messages (state (world p)) ++ added.
Proof.
  induction trace as [|e trace IH]; intros p.
  - exists []. simpl. now rewrite app_nil_r.
  - rewrite run_cons. destruct (IH (step p e)) as [added2 ->].
    destruct (step_appends p e) as [added1 ->].
    exists (added1 ++ added2). now rewrite app_assoc.
Qed.

(** C9. The transcript is append-only.  A submit adds turns at the end
    (the user turn; then, when the exchange settles, one reply, on success
    and on failure alike); [render], [updateCounter] and the theme toggle
    leave the state alone.  So every turn stays where it is for the whole
    session, and the greeting stays first. *)
Theorem transcript_is_append_only :
  (forall w, exists added,
      messages (state (snd (send w))) = messages (state w) ++ added)
  /\ (forall o w,
      messages (state (snd (send_settle o w))) = messages (state w) ++ [reply o])
  /\ (forall w, state (snd (render w)) = state w)
  /\ (forall w, state (snd (updateCounter w)) = state w)
  /\ (forall w, state (snd (toggleTheme w)) = state w)
  /\ (forall p trace, exists added,
      messages (state (world (run p trace)))
      = messages (state (world p)) ++ added)
  /\ (forall c stored input label trace, exists rest,
      messages (state (world (run (start c stored input label) trace)))
      = greeting :: rest).
Proof.
  repeat split.
  - intros w. rewrite send_state. destruct (accepts w).
    + eexists. reflexivity.
    + exists []. now rewrite app_nil_r.
  - intros o w. now rewrite send_settle_state.
  - apply render_state.
  - apply updateCounter_state.
  - intros p trace. apply run_appends.
  - intros c stored input label trace.
    destruct (run_appends trace (start c stored input label)) as [added ->].
    cbn [start world].
    destruct (boot_state c stored input label) as [-> _].
    exists added. reflexivity.
Qed.

End Transcript.

(** ** The loading flag and the exchange under way *)

Section Loading.
Context {host : Host}.

Lemma step_in_flight p e :
  in_flight (step p e)
  = match e with
    | Submit => match send (world p) with
                | (Ok (Some req), _) => in_flight p ++ [req]
                | _ => in_flight p
                end
    | Settle _ => tl (in_flight p)
    | _ => in_flight p
    end.
Proof.
  destruct e as [text| |o|]; try reflexivity.
  - unfold step. destruct (send (world p)) as [[[req|]|] w']; reflexivity.
  - unfold step. destruct (in_flight p) eqn:E; [now rewrite E | reflexivity].
Qed.

Lemma step_in_sync p e :
  conforming_event e = true -> in_sync p -> in_sync (step p e).
Proof.
  intros Hc [Ht Hn]. unfold in_sync.
  rewrite step_state, step_in_flight.
  destruct e as [text| |o|]; try (split; assumption).
  - destruct (accepts (world p)) eqn:Ea.
    + rewrite (send_accepts_text _ Ea Ht).
      apply accepts_true in Ea as [_ El]. rewrite El in Hn.
      cbn [messages loading]. rewrite text_only_app, Ht, length_app, Hn.
      split; reflexivity.
    + rewrite (send_rejects _ Ea). split; assumption.
  - destruct (in_flight p) as [|req rest] eqn:Ef; [split; assumption|].
    cbn [messages loading tl]. rewrite text_only_app, Ht.
    cbn [text_only forallb andb]. simpl in Hc. rewrite (reply_text _ Hc).
    split; [reflexivity|].
    destruct (loading (state (world p))); simpl in Hn; [|discriminate].
    destruct rest; [reflexivity|discriminate].
Qed.

Lemma start_in_sync c stored input label :
  in_sync (start c stored input label).
Proof.
  unfold in_sync. cbn [start world in_flight].
  destruct (boot_state c stored input label) as [-> _]. split; reflexivity.
Qed.

Lemma run_in_sync trace :
  forall p, forallb conforming_event trace = true ->
            in_sync p -> in_sync (run p trace).
Proof.
  induction trace as [|e trace IH]; intros p Hc Hp; [exact Hp|].
  simpl in Hc. apply andb_true_iff in Hc as [He Hc].
  rewrite run_cons. apply IH; [exact Hc|]. now apply step_in_sync.
Qed.

End Loading.

(** ** One whole exchange *)

Section Exchange.
Context {host : Host}.

(** Type, submit, and let the exchange settle: the transcript gains the
    user turn and one reply. *)
Lemma one_exchange p text o :
  text_only (messages (state (world p))) = true ->
  loading (state (world p)) = false ->
  in_flight p = [] ->
  let sent := trim (clipped (INPUT_LIMIT (config (world p))) text) in
  is_empty sent = false ->
  let p' := run p [Input text; Submit; Settle o] in
  messages (state (world p'))
  = messages (state (world p))
    ++ [{| role := user; content := VStr sent |}; reply o]
  /\ loading (state (world p')) = false
  /\ in_flight p' = [].
Proof.
  intros Ht Hl Hf sent Hs p'. subst p'.
  rewrite !run_cons. cbn [run fold_left].
  set (p1 := step p (Input text)).
  assert (H1 : state (world p1) = state (world p)) by apply step_state.
  assert (V1 : elInput_value (world p1)
               = clipped (INPUT_LIMIT (config (world p))) text)
    by (unfold p1; rewrite input_world; reflexivity).
  assert (F1 : in_flight p1 = []) by exact Hf.
  assert (A1 : accepts (world p1) = true).
  { apply accepts_true. rewrite V1, H1. split; assumption. }
  assert (T1 : text_only (messages (state (world p1))) = true)
    by (rewrite H1; exact Ht).
  destruct (submit_accepted p1 A1 T1) as (req & w' & _ & E2).
  set (p2 := step p1 Submit) in *.
  assert (H2 : state (world p2)
               = {| messages := messages (state (world p1)) ++ [user_turn (world p1)];
                    loading := true |}).
  { unfold p2. rewrite step_state, A1. reflexivity. }
  assert (F2 : in_flight p2 = [req]) by (rewrite E2, F1; reflexivity).
  rewrite step_state, step_in_flight, F2, H2, H1.
  cbn [messages loading tl]. unfold user_turn. rewrite V1.
  rewrite <- app_assoc. repeat split.
Qed.

(** From the seeded transcript and the default limit: "Hello" is sent and
    the exchange settles with [o]. *)
Lemma hello_scenario base stored label o :
  let c := {| API_BASE := base; INPUT_LIMIT := input_limit_of VUndefined |} in
  let p := run (start c stored [] label) [Input (lit "Hello"); Submit; Settle o] in
  messages (state (world p))
  = [greeting; {| role := user; content := VStr (lit "Hello") |}; reply o]
  /\ loading (state (world p)) = false.
Proof.
  intros c p.
  destruct (boot_state c stored [] label) as [Hst Hcfg].
  destruct (@one_exchange (start c stored [] label) (lit "Hello") o)
    as (Hm & Hl & _).
  - cbn [start world]. rewrite Hst. reflexivity.
  - cbn [start world]. rewrite Hst. reflexivity.
  - reflexivity.
  - cbn [start world]. rewrite Hcfg. vm_compute. reflexivity.
  - split; [|exact Hl].
    fold p in Hm. rewrite Hm. cbn [start world]. rewrite Hst, Hcfg.
    f_equal. f_equal. vm_compute. reflexivity.
Qed.

(** C2, as the code has it.  A 2xx response whose body is JSON makes the
    continuation append exactly one assistant turn and lower [loading].
    The turn carries the top-level [content] when that is truthy, else
    [choices[0].message.content] when that is truthy, else the fixed
    notice; in particular the notice when both fields are absent.  From
    the seeded transcript, "Hello" answered by [{"content":"Hi there"}]
    ends in greeting, user "Hello", assistant "Hi there", not loading. *)
Theorem success_appends_the_answer status data w :
  ok status = true ->
  let w' := snd (send_settle (Responded status (Some data)) w) in
  messages (state w')
  = messages (state w) ++ [{| role := assistant; content := answer data |}]
  /\ loading (state w') = false
  /\ answer data
     = (if truthy (content_field data) then content_field data
        else if truthy (nested_field data) then nested_field data
             else VStr (lit "Maaf, respons kosong."))
  /\ (content_field data = VUndefined -> nested_field data = VUndefined ->
      answer data = VStr (lit "Maaf, respons kosong."))
  /\ (forall base stored label,
        let c := {| API_BASE := base; INPUT_LIMIT := input_limit_of VUndefined |} in
        let hi := VObj [(lit "content", VStr (lit "Hi there"))] in
        let p := run (start c stored [] label)
                     [Input (lit "Hello"); Submit; Settle (Responded 200 (Some hi))] in
        messages (state (world p))
        = [greeting;
           {| role := user; content := VStr (lit "Hello") |};
           {| role := assistant; content := VStr (lit "Hi there") |}]
        /\ loading (state (world p)) = false).
Proof.
  intros Hok w'. subst w'. rewrite send_settle_state.
  cbn [messages loading reply]. rewrite Hok.
  split; [reflexivity|]. split; [reflexivity|]. split; [reflexivity|].
  split.
  - unfold answer. fold (content_field data). fold (nested_field data).
    intros -> ->. reflexivity.
  - intros base stored label.
    exact (hello_scenario base stored label
             (Responded 200 (Some (VObj [(lit "content", VStr (lit "Hi there"))])))).
Qed.

(** The scenario of a server that answers 500: greeting, the user turn,
    one error turn. *)
Lemma http_500_scenario base stored label json :
  let c := {| API_BASE := base; INPUT_LIMIT := input_limit_of VUndefined |} in
  let p := run (start c stored [] label)
               [Input (lit "Hello"); Submit; Settle (Responded 500 json)] in
  messages (state (world p))
  = [greeting; {| role := user; content := VStr (lit "Hello") |}; error_turn]
  /\ loading (state (world p)) = false.
Proof.
  pose proof (hello_scenario base stored label (Responded 500 json)) as H.
  cbv zeta in *. rewrite reply_failed in H by reflexivity. exact H.
Qed.

End Exchange.

(** C2 as stated fails: with [{"content": ""}] the field is there, and the
    turn carries the notice all the same. *)
Lemma notice_although_content_is_present :
  let data := VObj [(lit "content", VStr [])] in
  content_field data = VStr []
  /\ content_field data <> VUndefined
  /\ answer data = VStr empty_notice
  /\ ~ (answer data = VStr empty_notice <->
        content_field data = VUndefined /\ nested_field data = VUndefined).
Proof.
  cbv zeta. split; [reflexivity|]. split; [discriminate|].
  split; [reflexivity|]. intros [H _]. destruct (H eq_refl) as [H' _].
  discriminate.
Qed.

(** ** The character limit *)

Section Limit.
Context {host : Host}.

Lemma num_gt_nat (a b : nat) : num_gt (num_of_nat a) (num_of_nat b) = (b <? a).
Proof.
  unfold num_gt, num_of_nat, num_of_Z, Qltb. simpl.
  rewrite !Z.mul_1_r.
  destruct (Nat.ltb_spec b a); [apply Z.ltb_lt | apply Z.ltb_ge]; lia.
Qed.


(** A natural number up to 2^53 is shown in decimal. *)
Lemma NumberToString_nat (n : nat) :
  (Z.of_nat n <= 2 ^ 53)%Z ->
  NumberToString (num_of_nat n) = decimal (Z.of_nat n).
Proof.
  intros H. unfold NumberToString, num_of_nat, num_of_Z.
  rewrite Qcanon.Qred_identity by (simpl; apply Z.gcd_1_r).
  cbn [inject_Z Qnum Qden]. rewrite Pos.eqb_refl.
  replace (Z.abs (Z.of_nat n) <=? 2 ^ 53)%Z with true
    by (symmetry; apply Z.leb_le; lia).
  reflexivity.
Qed.

Lemma clipped_over (n : nat) input :
  n < length input -> clipped (num_of_nat n) input = firstn n input.
Proof.
  intros H. unfold clipped. rewrite num_gt_nat.
  replace (n <? length input) with true by (symmetry; now apply Nat.ltb_lt).
  apply slice_prefix.
Qed.

Lemma clipped_under (n : nat) input :
  length input <= n -> clipped (num_of_nat n) input = input.
Proof.
  intros H. unfold clipped. rewrite num_gt_nat.
  now replace (n <? length input) with false by (symmetry; now apply Nat.ltb_ge).
Qed.

(** C7, as the code has it.  With a limit that is a whole number [n],
    not negative, [updateCounter] cuts an input longer than [n] down to its
    first [n] characters and shows [n] over [n]; an input of at most [n]
    characters stays as it is and the counter shows its length over [n].
    The counter reads "len / n characters", digit for digit while [n] is at
    most 2^53.  The limit is 350 unless [window.INPUT_LIMIT] gives
    another. *)
Theorem updateCounter_truncates_to_limit w (n : nat) :
  INPUT_LIMIT (config w) = num_of_nat n ->
  let w' := snd (updateCounter w) in
  (n < length (elInput_value w) ->
     elInput_value w' = firstn n (elInput_value w)
     /\ length (elInput_value w') = n
     /\ elCounter_textContent w' = counter_text n (num_of_nat n))
  /\ (length (elInput_value w) <= n ->
     elInput_value w' = elInput_value w
     /\ elCounter_textContent w'
        = counter_text (length (elInput_value w)) (num_of_nat n))
  /\ (forall len, len <= n -> (Z.of_nat n <= 2 ^ 53)%Z ->
      counter_text len (num_of_nat n)
      = decimal (Z.of_nat len) ++ lit " / " ++ decimal (Z.of_nat n)
        ++ lit " characters")
  /\ input_limit_of VUndefined = num_of_nat 350
  /\ (forall k, 0 < k -> input_limit_of (VNum (num_of_nat k)) = num_of_nat k).
Proof.
  intros Hn w'. subst w'. rewrite updateCounter_eq, Hn.
  cbn [snd elInput_value elCounter_textContent with_counter with_input].
  split; [|split; [|split; [|split]]].
  - intros H. rewrite (clipped_over _ H).
    assert (L : length (firstn n (elInput_value w)) = n)
      by (rewrite length_firstn; lia).
    rewrite L. repeat split.
  - intros H. rewrite (clipped_under _ H). split; reflexivity.
  - intros len Hlen Hbig. unfold counter_text.
    rewrite !NumberToString_nat by lia. reflexivity.
  - reflexivity.
  - intros k Hk. unfold input_limit_of, or_else, num_of_nat, num_of_Z.
    cbn [truthy inject_Z Qnum].
    replace (Z.of_nat k =? 0)%Z with false by (symmetry; apply Z.eqb_neq; lia).
    reflexivity.
Qed.


End Limit.

(** C7 as stated fails where the limit is negative or not a whole
    number.  With [window.INPUT_LIMIT = -1] the input "abc" is longer
    than the limit; [updateCounter] leaves "ab", which has not the length
    of the limit and is still longer than it.  With 12.5, thirteen
    characters are longer than the limit and are cut to twelve. *)
Lemma limit_that_is_no_length :
  let below := {| API_BASE := [];
                  INPUT_LIMIT := input_limit_of (host := decimal_host)
                                   (VNum (num_of_Z (-1))) |} in
  let w := with_input (boot (host := decimal_host) below None [] moon)
             (lit "abc") in
  let w' := snd (updateCounter (host := decimal_host) w) in
  let between := {| API_BASE := [];
                    INPUT_LIMIT := input_limit_of (host := decimal_host)
                                     (VNum (Fin (25 # 2))) |} in
  let v := with_input (boot (host := decimal_host) between None [] moon)
             (repeat 97%N 13) in
  let v' := snd (updateCounter (host := decimal_host) v) in
  (INPUT_LIMIT below = num_of_Z (-1)
   /\ num_gt (num_of_nat (length (elInput_value w))) (INPUT_LIMIT below) = true
   /\ elInput_value w' = lit "ab"
   /\ num_of_nat (length (elInput_value w')) <> INPUT_LIMIT below
   /\ num_gt (num_of_nat (length (elInput_value w'))) (INPUT_LIMIT below) = true)
  /\ (INPUT_LIMIT between = Fin (25 # 2)
      /\ num_gt (num_of_nat (length (elInput_value v))) (INPUT_LIMIT between) = true
      /\ elInput_value v' = repeat 97%N 12
      /\ num_of_nat (length (elInput_value v')) <> INPUT_LIMIT between).
Proof.
  cbv zeta. split.
  - split; [reflexivity|]. split; [vm_compute; reflexivity|].
    split; [vm_compute; reflexivity|]. split; [|vm_compute; reflexivity].
    vm_compute. discriminate.
  - split; [reflexivity|]. split; [vm_compute; reflexivity|].
    split; [vm_compute; reflexivity|].
    vm_compute. discriminate.
Qed.

(** ** liteMarkdown *)

(** One step of the bold scan. *)
Lemma replace_bold_step c s :
  replace_bold (c :: s)
  = match match_bold (c :: s) with
    | Some (cap, rest) =>
        lit "<strong>" ++ cap ++ lit "</strong>" ++ replace_bold rest
    | None => c :: replace_bold s
    end.
Proof.
  rewrite replace_bold_equation_2.
  destruct (inspect (match_bold (c :: s))) as [[[cap rest]|] E];
    cbn [replace_bold_unfold_clause_2]; rewrite E; reflexivity.
Qed.

(** One step of the bullet scan. *)
Lemma bullets_from_step b c s :
  bullets_from b (c :: s)
  = match match_bullet b (c :: s) with
    | Some (p1, p2, rest) =>
        p1 ++ [Ch.bullet; Ch.space] ++ p2 ++ bullets_from false rest
    | None => c :: bullets_from false s
    end.
Proof.
  rewrite bullets_from_equation_2.
  destruct (inspect (match_bullet b (c :: s))) as [[[[p1 p2] rest]|] E];
    cbn [bullets_from_unfold_clause_2]; rewrite E; reflexivity.
Qed.

(** *** The patterns and their direct reading agree *)

Lemma replace_nil r replacer b :
  replace r replacer b [] = match exec r b [] with
                            | Some (c, _) => replacer [] c
                            | None => []
                            end.
Proof. apply replace_equation_1. Qed.

(** One step of the scan of [replace]. *)
Lemma replace_step r replacer b a s :
  replace r replacer b (a :: s)
  = match exec r b (a :: s) with
    | Some (c, after) =>
        if lt_dec (length after) (length (a :: s))
        then replacer (firstn (length (a :: s) - length after) (a :: s)) c
             ++ replace r replacer false after
        else replacer [] c ++ a :: replace r replacer false s
    | None => a :: replace r replacer false s
    end.
Proof.
  rewrite replace_equation_2.
  destruct (inspect (exec r b (a :: s))) as [[[c after]|] E];
    cbn [replace_unfold_clause_2].
  - destruct (lt_dec (length after) (length (a :: s))) as [L|L] eqn:D;
      cbn [replace_unfold_clause_2_clause_1]; rewrite E, D; reflexivity.
  - rewrite E. reflexivity.
Qed.

Lemma one_char_cons p b a s c k :
  one_char p {| at_start := b; rest := a :: s |} c k
  = if p a then k {| at_start := false; rest := s |} c else None.
Proof. reflexivity. Qed.

Lemma one_char_nil p b c k :
  one_char p {| at_start := b; rest := [] |} c k = None.
Proof. reflexivity. Qed.

Lemma consumed_prefix b b' pre s :
  consumed {| at_start := b; rest := pre ++ s |} {| at_start := b'; rest := s |}
  = pre.
Proof.
  unfold consumed. cbn [rest]. rewrite length_app.
  replace (length pre + length s - length s) with (length pre) by lia.
  rewrite firstn_app, Nat.sub_diag, firstn_all. cbn. apply app_nil_r.
Qed.

Lemma consumed_none x : consumed x x = [].
Proof. unfold consumed. now rewrite Nat.sub_diag. Qed.

Lemma consumed_one b b' a s :
  consumed {| at_start := b; rest := a :: s |} {| at_start := b'; rest := s |}
  = [a].
Proof. apply (consumed_prefix b b' [a] s). Qed.

(** [\*\*] *)
Lemma two_stars_matcher b t c (k : cont) :
  matcher (Char Ch.star >> Char Ch.star)%regex {| at_start := b; rest := t |} c k
  = match two_stars t with
    | Some after => k {| at_start := false; rest := after |} c
    | None => None
    end.
Proof.
  cbn [matcher]. destruct t as [|a [|a' t]]; cbn [one_char rest two_stars].
  - reflexivity.
  - destruct (Ch.star =? a)%N; reflexivity.
  - rewrite (N.eqb_sym a), (N.eqb_sym a').
    destruct (Ch.star =? a)%N; [|reflexivity].
    destruct (Ch.star =? a')%N; reflexivity.
Qed.

(** The rounds of the lazy [(.+?)] after its first character, with the
    closing stars behind it: [pre] is what the group holds so far. *)
Lemma lazy_dots fuel : forall s pre b c,
  length s <= fuel ->
  repeat_matcher false (one_char (fun a => negb (is_line_terminator a))) fuel
    {| at_start := false; rest := s |} c
    (fun y c' =>
       matcher (Char Ch.star >> Char Ch.star)%regex y
         ((1, consumed {| at_start := b; rest := pre ++ s |} y) :: c') finish)
  = match two_stars s with
    | Some after => Some ((1, pre) :: c, after)
    | None => match bold_group s with
              | Some (cap, after) => Some ((1, pre ++ cap) :: c, after)
              | None => None
              end
    end.
Proof.
  induction fuel as [|fuel IH]; intros s pre b c Hlen.
  - destruct s; [reflexivity | simpl in Hlen; lia].
  - destruct s as [|a s]; [reflexivity|].
    cbn [repeat_matcher]. rewrite two_stars_matcher, consumed_prefix.
    destruct (two_stars (a :: s)) as [after|] eqn:E; [reflexivity|].
    cbn [or_result finish]. rewrite one_char_cons. cbn [bold_group].
    destruct (is_line_terminator a); [reflexivity|]. cbn [negb rest].
    replace (length s <? length (a :: s)) with true
      by (symmetry; apply Nat.ltb_lt; simpl; lia).
    specialize (IH s (pre ++ [a]) b c ltac:(simpl in Hlen; lia)).
    rewrite <- app_assoc in IH. cbn [app] in IH. rewrite IH.
    destruct (two_stars s); [reflexivity|].
    destruct (bold_group s) as [[cap after]|]; [|reflexivity].
    now rewrite <- app_assoc.
Qed.

(** The bold pattern matches where [match_bold] does, with the same
    capture and the same rest. *)
Lemma exec_bold b s : exec bold_re b s = with_group 1 [] (match_bold s).
Proof.
  unfold exec, bold_re.
  change (matcher (Char Ch.star >> Char Ch.star >> ?r)%regex ?x ?c ?k)
    with (matcher (Char Ch.star >> Char Ch.star)%regex x c
            (fun y c' => matcher r y c' k)).
  rewrite two_stars_matcher. unfold match_bold.
  destruct (two_stars s) as [t|]; [|reflexivity].
  cbn [matcher dot].
  destruct t as [|a t]; [reflexivity|].
  rewrite one_char_cons. cbn [bold_group].
  destruct (is_line_terminator a); [reflexivity|]. cbn [negb rest].
  pose proof (@lazy_dots (length t) t [a] false [] (le_n _)) as H.
  cbn [app matcher] in H. rewrite H.
  destruct (two_stars t); [reflexivity|].
  destruct (bold_group t) as [[cap after]|]; reflexivity.
Qed.

(** The rounds of the greedy [(.+)] after its first character, at the end
    of the pattern. *)
Lemma greedy_dots fuel : forall s pre b c,
  length s <= fuel ->
  repeat_matcher true (one_char (fun a => negb (is_line_terminator a))) fuel
    {| at_start := false; rest := s |} c
    (fun y c' =>
       finish y ((2, consumed {| at_start := b; rest := pre ++ s |} y) :: c'))
  = Some ((2, pre ++ fst (dot_run s)) :: c, snd (dot_run s)).
Proof.
  induction fuel as [|fuel IH]; intros s pre b c Hlen.
  - destruct s; [|simpl in Hlen; lia].
    cbn [repeat_matcher finish rest dot_run fst snd].
    now rewrite consumed_prefix, app_nil_r.
  - destruct s as [|a s].
    + cbn [repeat_matcher]. rewrite one_char_nil.
      cbn [or_result finish rest dot_run fst snd].
      now rewrite consumed_prefix, app_nil_r.
    + cbn [repeat_matcher]. rewrite one_char_cons. cbn [dot_run].
      destruct (is_line_terminator a).
      * cbn [negb or_result finish rest fst snd].
        now rewrite consumed_prefix, app_nil_r.
      * cbn [negb rest].
        replace (length s <? length (a :: s)) with true
          by (symmetry; apply Nat.ltb_lt; simpl; lia).
        specialize (IH s (pre ++ [a]) b c ltac:(simpl in Hlen; lia)).
        rewrite <- app_assoc in IH. cbn [app] in IH. rewrite IH.
        cbn [or_result]. destruct (dot_run s) as [run after].
        cbn [fst snd]. now rewrite <- app_assoc.
Qed.

(** [(.+)] at the end of the pattern. *)
Lemma group_dots b t c :
  matcher (Group 2 (Plus true dot)) {| at_start := b; rest := t |} c finish
  = with_group 2 c (dot_plus t).
Proof.
  cbn [matcher dot]. unfold dot_plus.
  destruct t as [|a t]; [reflexivity|].
  rewrite one_char_cons. cbn [dot_run].
  destruct (is_line_terminator a); [reflexivity|]. cbn [negb rest].
  pose proof (@greedy_dots (length t) t [a] b c (le_n _)) as H.
  cbn [app] in H. rewrite H.
  destruct (dot_run t); reflexivity.
Qed.

(** The rounds of the greedy [\s+] after its first character, with [(.+)]
    behind it. *)
Lemma greedy_spaces fuel : forall s c,
  length s <= fuel ->
  repeat_matcher true (one_char is_space) fuel
    {| at_start := false; rest := s |} c
    (fun y c' => matcher (Group 2 (Plus true dot)) y c' finish)
  = or_result (with_group 2 c (spaces_then_text s))
              (with_group 2 c (dot_plus s)).
Proof.
  induction fuel as [|fuel IH]; intros s c Hlen.
  - destruct s; [|simpl in Hlen; lia].
    cbn [repeat_matcher]. now rewrite group_dots.
  - destruct s as [|a s].
    + cbn [repeat_matcher]. now rewrite one_char_nil, group_dots.
    + cbn [repeat_matcher]. rewrite one_char_cons, group_dots.
      cbn [spaces_then_text rest].
      destruct (is_space a); [|reflexivity].
      replace (length s <? length (a :: s)) with true
        by (symmetry; apply Nat.ltb_lt; simpl; lia).
      rewrite IH by (simpl in Hlen; lia).
      destruct (spaces_then_text s) as [[p2 after]|]; [reflexivity|].
      cbn [with_group or_result].
      destruct (dot_plus s) as [[p2 after]|]; reflexivity.
Qed.

(** [[*-]\s+(.+)] *)
Lemma bullet_tail_matcher b t c :
  matcher (Class is_marker >> Plus true (Class is_space)
           >> Group 2 (Plus true dot))%regex
    {| at_start := b; rest := t |} c finish
  = with_group 2 c (bullet_tail t).
Proof.
  cbn [matcher]. fold (matcher (Group 2 (Plus true dot))).
  destruct t as [|m t]; [reflexivity|].
  rewrite one_char_cons. cbn [bullet_tail].
  destruct (is_marker m); [|reflexivity].
  destruct t as [|a t]; [reflexivity|].
  rewrite one_char_cons. cbn [spaces_then_text rest].
  destruct (is_space a); [|reflexivity].
  pose proof (@greedy_spaces (length t) t c (le_n _)) as H.
  cbn [matcher] in H. rewrite H.
  destruct (spaces_then_text t) as [[p2 after]|]; [reflexivity|].
  destruct (dot_plus t) as [[p2 after]|]; reflexivity.
Qed.

(** [(^|\n)] as first group, then [r]. *)
Lemma line_start_matcher r b s c k :
  matcher (Group 1 (Alt Bol (Char Ch.newline)) >> r)%regex
    {| at_start := b; rest := s |} c k
  = or_result
      (if b then matcher r {| at_start := b; rest := s |} ((1, []) :: c) k
       else None)
      (match s with
       | a :: s' =>
           if (a =? Ch.newline)%N
           then matcher r {| at_start := false; rest := s' |}
                  ((1, [Ch.newline]) :: c) k
           else None
       | [] => None
       end).
Proof.
  cbn [matcher at_start]. rewrite consumed_none.
  f_equal. destruct s as [|a s]; [reflexivity|].
  rewrite one_char_cons, (N.eqb_sym a).
  destruct (Ch.newline =? a)%N eqn:E; [|reflexivity].
  apply N.eqb_eq in E. subst a. now rewrite consumed_one.
Qed.

(** The bullet pattern matches where [match_bullet] does, with the same
    captures and the same rest. *)
Lemma exec_bullet b s :
  exec bullet_re b s
  = match match_bullet b s with
    | Some (p1, p2, after) => Some ([(2, p2); (1, p1)], after)
    | None => None
    end.
Proof.
  unfold exec, bullet_re, match_bullet.
  rewrite line_start_matcher.
  destruct b.
  - rewrite bullet_tail_matcher.
    destruct (bullet_tail s) as [[p2 after]|]; [reflexivity|].
    cbn [with_group or_result].
    destruct s as [|a s]; [reflexivity|].
    destruct (a =? Ch.newline)%N eqn:E; [|reflexivity].
    apply N.eqb_eq in E. subst a.
    rewrite bullet_tail_matcher.
    destruct (bullet_tail s) as [[p2 after]|]; reflexivity.
  - cbn [or_result].
    destruct s as [|a s]; [reflexivity|].
    destruct (a =? Ch.newline)%N eqn:E; [|reflexivity].
    apply N.eqb_eq in E. subst a.
    rewrite bullet_tail_matcher.
    destruct (bullet_tail s) as [[p2 after]|]; reflexivity.
Qed.

(** The bold pass is [replace_bold]. *)
Lemma replace_bold_eq s b : replace bold_re strong b s = replace_bold s.
Proof.
  revert b. remember (length s) as n eqn:Hn. revert s Hn.
  induction n as [n IH] using lt_wf_ind. intros s -> b.
  destruct s as [|a s].
  - rewrite replace_nil. reflexivity.
  - rewrite replace_step, replace_bold_step, exec_bold.
    destruct (match_bold (a :: s)) as [[cap after]|] eqn:E; cbn [with_group].
    + pose proof (match_bold_shorter _ E) as L.
      destruct (lt_dec (length after) (length (a :: s))); [|contradiction].
      rewrite (IH _ L after eq_refl). unfold strong.
      cbn [group find fst Nat.eqb]. now rewrite <- !app_assoc.
    + rewrite (IH _ (Nat.lt_succ_diag_r _) s eq_refl). reflexivity.
Qed.

(** The bullet pass is [bullets_from]. *)
Lemma replace_bullets_eq s b :
  replace bullet_re bulleted b s = bullets_from b s.
Proof.
  revert b. remember (length s) as n eqn:Hn. revert s Hn.
  induction n as [n IH] using lt_wf_ind. intros s -> b.
  destruct s as [|a s].
  - rewrite replace_nil. now destruct b.
  - rewrite replace_step, bullets_from_step, exec_bullet.
    destruct (match_bullet b (a :: s)) as [[[p1 p2] after]|] eqn:E.
    + pose proof (match_bullet_shorter _ _ E) as L.
      destruct (lt_dec (length after) (length (a :: s))); [|contradiction].
      rewrite (IH _ L after eq_refl). unfold bulleted.
      cbn [group find fst Nat.eqb]. now rewrite <- !app_assoc.
    + rewrite (IH _ (Nat.lt_succ_diag_r _) s eq_refl). reflexivity.
Qed.

(** [replace] sees a pattern through [exec] only. *)
Lemma replace_ext r r' replacer :
  (forall b s, exec r b s = exec r' b s) ->
  forall s b, replace r replacer b s = replace r' replacer b s.
Proof.
  intros H s. remember (length s) as n eqn:Hn. revert s Hn.
  induction n as [n IH] using lt_wf_ind. intros s -> b.
  destruct s as [|a s].
  - now rewrite !replace_nil, H.
  - rewrite !replace_step, H.
    destruct (exec r' b (a :: s)) as [[c after]|].
    + destruct (lt_dec (length after) (length (a :: s))) as [L|L].
      * now rewrite (IH _ L after eq_refl).
      * now rewrite (IH _ (Nat.lt_succ_diag_r _) s eq_refl).
    + now rewrite (IH _ (Nat.lt_succ_diag_r _) s eq_refl).
Qed.

(** A pattern of one character class replaces character by character. *)
Lemma replace_class p replacer (f : N -> jsstring) :
  (forall a c, p a = true -> replacer [a] c = f a) ->
  (forall a, p a = false -> f a = [a]) ->
  forall s b, replace (Class p) replacer b s = flat_map f s.
Proof.
  intros Hyes Hno. induction s as [|a s IH]; intros b.
  - rewrite replace_nil. reflexivity.
  - rewrite replace_step. change (exec (Class p) b (a :: s))
      with (if p a then Some ([], s) else @None (captures * jsstring)).
    cbn [flat_map].
    destruct (p a) eqn:E.
    + destruct (lt_dec (length s) (length (a :: s))) as [_|L];
        [|exfalso; apply L; simpl; lia].
      replace (length (a :: s) - length s) with 1 by (cbn [length]; lia).
      cbn [firstn]. now rewrite (Hyes _ _ E), IH.
    + now rewrite (Hno _ E), IH.
Qed.

(** The escape pass is [escape_string]. *)
Lemma replace_escape_eq s b : replace escape_re entity b s = escape_string s.
Proof.
  unfold escape_re, escape_string. apply replace_class.
  - intros a c H. unfold entity, escape_char.
    destruct (N.eqb_spec a Ch.amp) as [->|Ha]; [reflexivity|].
    destruct (N.eqb_spec a Ch.lt) as [->|Hl]; [reflexivity|].
    destruct (N.eqb_spec a Ch.gt) as [->|Hg]; [reflexivity|].
    discriminate H.
  - intros a H. unfold escape_char.
    destruct (a =? Ch.amp)%N; [discriminate|].
    destruct (a =? Ch.lt)%N; [discriminate|].
    destruct (a =? Ch.gt)%N; [discriminate|]. reflexivity.
Qed.

(** The newline pass is [replace_newlines]. *)
Lemma replace_newlines_eq s b : replace newline_re br b s = replace_newlines s.
Proof.
  unfold newline_re, replace_newlines.
  rewrite (@replace_ext (Char Ch.newline) (Class (N.eqb Ch.newline)))
    by reflexivity.
  apply replace_class.
  - intros a c H. rewrite N.eqb_sym, H. reflexivity.
  - intros a H. now rewrite N.eqb_sym, H.
Qed.

(** [liteMarkdown] on a string, in the direct reading. *)
Lemma liteMarkdown_string s :
  liteMarkdown (VStr s)
  = Some (replace_newlines (replace_bullets (replace_bold (escape_string s)))).
Proof.
  unfold liteMarkdown, escapeHTML, replace_bullets.
  replace (or_else (or_else (VStr s) (VStr [])) (VStr [])) with (VStr s)
    by (destruct s; reflexivity).
  now rewrite replace_escape_eq, replace_bold_eq, replace_bullets_eq,
    replace_newlines_eq.
Qed.

Lemma escape_char_no_angle c :
  ~ In Ch.lt (escape_char c) /\ ~ In Ch.gt (escape_char c).
Proof.
  unfold escape_char.
  destruct (N.eqb_spec c Ch.amp) as [->|Ha];
    [split; vm_compute; intuition discriminate|].
  destruct (N.eqb_spec c Ch.lt) as [->|Hl];
    [split; vm_compute; intuition discriminate|].
  destruct (N.eqb_spec c Ch.gt) as [->|Hg];
    [split; vm_compute; intuition discriminate|].
  split; intros [H|[]]; congruence.
Qed.

(** What [escapeHTML] returns holds no [<] and no [>]. *)
Lemma escape_string_no_angle s :
  ~ In Ch.lt (escape_string s) /\ ~ In Ch.gt (escape_string s).
Proof.
  unfold escape_string. split; intros H; apply in_flat_map in H as (c & _ & H);
    now apply (escape_char_no_angle c) in H.
Qed.

(** C5. [liteMarkdown] is four passes in this order: escape [&], [<], [>]
    to their entities; wrap [**bold**] spans in [<strong>]; turn bullet
    lines; turn newlines into [<br>].  The escape pass maps each of the
    three characters to its entity, leaves every other character alone,
    and leaves no angle bracket behind.  So ["**bold**"] comes out as
    [<strong>bold</strong>] and ["<script>"] as [&lt;script&gt;]. *)
Theorem liteMarkdown_is_four_passes_in_order :
  (forall s,
      liteMarkdown (VStr s)
      = Some (replace newline_re br true
                (replace bullet_re bulleted true
                   (replace bold_re strong true
                      (replace escape_re entity true s)))))
  /\ (forall s,
      liteMarkdown (VStr s)
      = Some (replace_newlines
                (replace_bullets (replace_bold (escape_string s)))))
  /\ (forall s, replace escape_re entity true s = flat_map escape_char s)
  /\ (escape_char Ch.amp = lit "&amp;" /\ escape_char Ch.lt = lit "&lt;"
      /\ escape_char Ch.gt = lit "&gt;"
      /\ forall c, c <> Ch.amp -> c <> Ch.lt -> c <> Ch.gt -> escape_char c = [c])
  /\ (forall s, ~ In Ch.lt (replace escape_re entity true s)
                /\ ~ In Ch.gt (replace escape_re entity true s))
  /\ liteMarkdown (VStr (lit "**bold**")) = Some (lit "<strong>bold</strong>")
  /\ (liteMarkdown (VStr (lit "<script>")) = Some (lit "&lt;script&gt;")
      /\ ~ In Ch.lt (lit "&lt;script&gt;") /\ ~ In Ch.gt (lit "&lt;script&gt;"))
  /\ liteMarkdown (VStr (lit "**<b>**")) = Some (lit "<strong>&lt;b&gt;</strong>")
  /\ liteMarkdown (VStr (lit "- **a**")) = Some ([Ch.bullet] ++ lit " <strong>a</strong>")
  /\ liteMarkdown (VStr (lit "x" ++ [Ch.newline] ++ lit "- a"))
     = Some (lit "x<br>" ++ [Ch.bullet] ++ lit " a").
Proof.
  split; [intros s; now destruct s|].
  split; [exact liteMarkdown_string|].
  split; [intros s; apply replace_escape_eq|].
  split.
  { repeat split. intros c Ha Hl Hg. unfold escape_char.
    destruct (N.eqb_spec c Ch.amp); [contradiction|].
    destruct (N.eqb_spec c Ch.lt); [contradiction|].
    destruct (N.eqb_spec c Ch.gt); [contradiction|]. reflexivity. }
  split; [intros s; rewrite replace_escape_eq; apply escape_string_no_angle|].
  split; [vm_compute; reflexivity|].
  split.
  { split; [vm_compute; reflexivity|].
    split; vm_compute; intuition discriminate. }
  repeat split; vm_compute; reflexivity.
Qed.


(** *** What the bold pattern matches *)

Lemma two_stars_eq s r : two_stars s = Some r -> s = stars ++ r.
Proof.
  unfold two_stars. destruct s as [|a [|b s]]; try discriminate.
  destruct (N.eqb_spec a Ch.star) as [->|]; [|discriminate].
  destruct (N.eqb_spec b Ch.star) as [->|]; [|discriminate].
  now intros [= <-].
Qed.

Lemma two_stars_stars r : two_stars (stars ++ r) = Some r.
Proof. reflexivity. Qed.

Lemma two_stars_none s : two_stars s = None -> forall z, s <> stars ++ z.
Proof. intros H z ->. discriminate H. Qed.

(** What [(.+?)\*\*] takes: the shortest run of characters on one line,
    at least one, that two stars follow. *)
Lemma bold_group_spec s : forall cap rest,
  bold_group s = Some (cap, rest) ->
  s = cap ++ stars ++ rest
  /\ cap <> []
  /\ single_line cap = true
  /\ (forall pre x, cap = pre ++ x -> pre <> [] -> x <> [] ->
        forall z, x ++ stars ++ rest <> stars ++ z).
Proof.
  induction s as [|c s IH]; intros cap rest; [discriminate|].
  cbn [bold_group]. destruct (is_line_terminator c) eqn:Ec; [discriminate|].
  destruct (two_stars s) as [r|] eqn:E.
  - intros [= <- <-]. apply two_stars_eq in E. subst s.
    split; [reflexivity|]. split; [discriminate|].
    split; [cbn; now rewrite Ec|].
    intros [|p pre] x Hx Hpre Hne; [contradiction|].
    injection Hx as _ Hx. destruct pre; [|discriminate Hx].
    cbn in Hx. subst x. contradiction.
  - destruct (bold_group s) as [[cap' rest']|] eqn:Eg; [|discriminate].
    intros [= <- <-]. destruct (IH _ _ eq_refl) as (Es & Hne & Hsl & Hshort).
    split; [cbn [app]; now rewrite <- Es|]. split; [discriminate|].
    split; [cbn [single_line forallb]; rewrite Ec; exact Hsl|].
    intros [|p pre] x Hx Hpre Hx'; [contradiction|].
    injection Hx as _ Hx. destruct pre as [|p' pre].
    + cbn [app] in Hx. subst x. rewrite <- Es. now apply two_stars_none.
    + apply (Hshort (p' :: pre) x Hx); [discriminate | exact Hx'].
Qed.

Lemma bold_group_complete x : forall y,
  x <> [] -> single_line x = true ->
  exists cap rest,
    bold_group (x ++ stars ++ y) = Some (cap, rest) /\ length cap <= length x.
Proof.
  induction x as [|c x IH]; intros y Hne Hsl; [contradiction|].
  cbn [single_line forallb] in Hsl. apply andb_true_iff in Hsl as [Hc Hsl].
  apply negb_true_iff in Hc.
  cbn [bold_group app]. rewrite Hc.
  destruct (two_stars (x ++ stars ++ y)) as [r|] eqn:E.
  - exists [c], r. split; [reflexivity | simpl; lia].
  - destruct x as [|c' x]; [discriminate E|].
    destruct (IH y) as (cap & rest & -> & Hlen); [discriminate | exact Hsl |].
    exists (c :: cap), rest. split; [reflexivity | simpl in *; lia].
Qed.

Lemma match_bold_spec s cap rest :
  match_bold s = Some (cap, rest) ->
  s = stars ++ cap ++ stars ++ rest
  /\ cap <> []
  /\ single_line cap = true
  /\ (forall pre x, cap = pre ++ x -> pre <> [] -> x <> [] ->
        forall z, x ++ stars ++ rest <> stars ++ z).
Proof.
  unfold match_bold. destruct (two_stars s) as [s'|] eqn:E; [|discriminate].
  intros H. apply two_stars_eq in E. subst s.
  destruct (bold_group_spec _ H) as (-> & H1 & H2 & H3). now repeat split.
Qed.

(** *** Bullet lines *)

Section BulletLines.






(** **** The bullet pass *)

Lemma match_bullet_off_newline c s :
  not_newline c = true -> match_bullet false (c :: s) = None.
Proof.
  unfold match_bullet, not_newline. intros H. apply negb_true_iff in H.
  now rewrite H.
Qed.

(** Away from newlines the scan copies. *)
Lemma bullets_copy u R :
  forallb not_newline u = true ->
  bullets_from false (u ++ R) = u ++ bullets_from false R.
Proof.
  induction u as [|c u IH]; intros H; [reflexivity|].
  simpl in H. apply andb_true_iff in H as [Hc Hu].
  cbn [app]. rewrite bullets_from_step, match_bullet_off_newline by exact Hc.
  now rewrite IH.
Qed.

(** Where [^] leads nowhere, index 0 is a position like any other. *)
Lemma bullets_from_start s :
  bullet_tail s = None -> bullets_from true s = bullets_from false s.
Proof.
  intros H. destruct s as [|c s]; [reflexivity|].
  rewrite !bullets_from_step. unfold match_bullet. now rewrite H.
Qed.



Lemma line_terminator_is_space c :
  is_line_terminator c = true -> is_space c = true.
Proof. unfold is_space. intros ->. apply orb_true_r. Qed.

(** The gap is taken whole when a text follows it. *)
Lemma spaces_then_text_gap gap X r :
  gap <> [] ->
  forallb is_space gap = true ->
  spaces_then_text X = None ->
  dot_plus X = Some r ->
  spaces_then_text (gap ++ X) = Some r.
Proof.
  intros Hne Hsp HX Hr. induction gap as [|c gap IH]; [contradiction|].
  simpl in Hsp. apply andb_true_iff in Hsp as [Hc Hgap].
  cbn [app spaces_then_text]. rewrite Hc.
  destruct gap as [|c' gap'].
  - cbn [app]. now rewrite HX.
  - rewrite IH by (assumption || discriminate). reflexivity.
Qed.





(** **** The bold pass where there is no [**] *)

Lemma replace_bold_id s : no_two_stars s = true -> replace_bold s = s.
Proof.
  induction s as [|c s IH]; intros H; [reflexivity|].
  rewrite replace_bold_step. unfold match_bold.
  cbn [no_two_stars] in H.
  destruct (two_stars (c :: s)); [discriminate|]. now rewrite IH.
Qed.

Lemma no_two_stars_cons c s :
  no_two_stars (c :: s) = true <->
  two_stars (c :: s) = None /\ no_two_stars s = true.
Proof.
  cbn [no_two_stars]. destruct (two_stars (c :: s)); split;
    try discriminate; try tauto.
  intros [H _]. discriminate.
Qed.

Lemma two_stars_off c s : (c =? Ch.star)%N = false -> two_stars (c :: s) = None.
Proof. intros H. destruct s; simpl; [reflexivity|]. now rewrite H. Qed.



(** [two_stars] reads two characters. *)
Lemma two_stars_two c d X Y :
  two_stars (c :: d :: X) = None -> two_stars (c :: d :: Y) = None.
Proof. simpl. destruct (_ && _); [discriminate | reflexivity]. Qed.


(** **** The escape pass keeps the lines well formed *)


Lemma escape_string_cons c s :
  escape_string (c :: s) = escape_char c ++ escape_string s.
Proof. reflexivity. Qed.

Lemma escape_char_other c :
  (c =? Ch.amp)%N = false -> (c =? Ch.lt)%N = false ->
  (c =? Ch.gt)%N = false -> escape_char c = [c].
Proof. unfold escape_char. now intros -> -> ->. Qed.













(** **** The newline pass joins the lines with [<br>] *)

Lemma replace_newlines_app u v :
  replace_newlines (u ++ v) = replace_newlines u ++ replace_newlines v.
Proof. apply flat_map_app. Qed.

Lemma replace_newlines_id u :
  forallb not_newline u = true -> replace_newlines u = u.
Proof.
  induction u as [|c u IH]; intros H; [reflexivity|].
  simpl in H. apply andb_true_iff in H as [Hc Hu].
  apply negb_true_iff in Hc.
  change (replace_newlines (c :: u))
    with ((if (c =? Ch.newline)%N then lit "<br>" else [c])
          ++ replace_newlines u).
  now rewrite Hc, (IH Hu).
Qed.




(** **** The bold pass works line by line *)


















End BulletLines.

(** * The statements at work on concrete inputs *)

Lemma success_appends_the_answer_witness :
  let hi := VObj [(lit "content", VStr (lit "Hi there"))] in
  ok 200 = true
  /\ messages (state (snd (send_settle
                             (Responded 200 (Some hi)) (world hello_sent))))
     = messages (state (world hello_sent))
       ++ [{| role := assistant; content := VStr (lit "Hi there") |}].
Proof.
  intros hi. split; [reflexivity|].
  exact (proj1 (@success_appends_the_answer decimal_host 200 hi
                  (world hello_sent) eq_refl)).
Defined.

Lemma failed_exchange_appends_error_witness :
  let o := Responded 500 None in
  (o = Rejected
   \/ exists status json,
        o = Responded status json /\ (ok status = false \/ json = None))
  /\ loading (state (snd (send_settle o (world hello_sent))))
     = false.
Proof.
  intros o.
  assert (H : o = Rejected
              \/ exists status json,
                   o = Responded status json /\ (ok status = false \/ json = None)).
  { right. exists 500%Z, None. split; [reflexivity|]. left. reflexivity. }
  split; [exact H|].
  exact (proj2 (@failed_exchange_appends_error o (world hello_sent) H)).
Defined.

Lemma liteMarkdown_is_four_passes_in_order_witness :
  97%N <> Ch.amp /\ 97%N <> Ch.lt /\ 97%N <> Ch.gt /\ escape_char 97 = [97%N].
Proof.
  assert (Ha : 97%N <> Ch.amp) by discriminate.
  assert (Hl : 97%N <> Ch.lt) by discriminate.
  assert (Hg : 97%N <> Ch.gt) by discriminate.
  repeat (split; [assumption|]).
  destruct liteMarkdown_is_four_passes_in_order
    as (_ & _ & _ & (_ & _ & _ & H) & _).
  exact (H 97%N Ha Hl Hg).
Defined.


Lemma updateCounter_truncates_to_limit_witness :
  let w := with_input (world fresh_page) (repeat 97%N 351) in
  INPUT_LIMIT (config w) = num_of_nat 350
  /\ 350 < length (elInput_value w)
  /\ elInput_value (snd (updateCounter (host := decimal_host) w)) = repeat 97%N 350
  /\ elCounter_textContent (snd (updateCounter (host := decimal_host) w))
     = lit "350 / 350 characters".
Proof.
  intros w.
  assert (Hn : INPUT_LIMIT (config w) = num_of_nat 350) by (vm_compute; reflexivity).
  assert (Hlen : 350 < length (elInput_value w)) by (vm_compute; lia).
  split; [exact Hn|]. split; [exact Hlen|].
  destruct (proj1 (@updateCounter_truncates_to_limit decimal_host w 350 Hn) Hlen)
    as (Hv & _ & Hc).
  split.
  - rewrite Hv. vm_compute. reflexivity.
  - rewrite Hc. vm_compute. reflexivity.
Defined.


(** * The script as a whole *)

(** The rest of the script (the keyboard handler, the configuration, the
    theme), further behaviour of [escapeHTML], [liteMarkdown], [render],
    [updateCounter] and [send], and what a session does when a turn
    cannot be formatted. *)

(** ** escapeHTML and liteMarkdown *)

Lemma escape_char_not_nil c : escape_char c <> [].
Proof.
  unfold escape_char.
  destruct (c =? Ch.amp)%N; [discriminate|].
  destruct (c =? Ch.lt)%N; [discriminate|].
  destruct (c =? Ch.gt)%N; discriminate.
Qed.

(** Two characters whose escapes start two equal strings are equal, and so
    are the strings behind them. *)
Lemma escape_char_prefix a b S T :
  escape_char a ++ S = escape_char b ++ T -> a = b /\ S = T.
Proof.
  unfold escape_char.
  destruct (N.eqb_spec a Ch.amp) as [->|Ha];
    [|destruct (N.eqb_spec a Ch.lt) as [->|Hal];
      [|destruct (N.eqb_spec a Ch.gt) as [->|Hag]]];
  (destruct (N.eqb_spec b Ch.amp) as [->|Hb];
    [|destruct (N.eqb_spec b Ch.lt) as [->|Hbl];
      [|destruct (N.eqb_spec b Ch.gt) as [->|Hbg]]]);
  cbn; intros H; try discriminate H;
    try (split; [reflexivity | congruence]);
    try (injection H as H1 H2; subst; now split);
    try (injection H as H1; subst; congruence);
    try (injection H as H1 H2; subst; congruence).
Qed.

Lemma escape_string_injective s : forall t,
  escape_string s = escape_string t -> s = t.
Proof.
  induction s as [|a s IH]; intros [|b t] H.
  - reflexivity.
  - rewrite escape_string_cons in H. cbn in H.
    destruct (escape_char b) eqn:E; [now apply escape_char_not_nil in E|].
    discriminate.
  - rewrite escape_string_cons in H. cbn in H.
    destruct (escape_char a) eqn:E; [now apply escape_char_not_nil in E|].
    discriminate.
  - rewrite !escape_string_cons in H.
    apply escape_char_prefix in H as [-> H]. now rewrite (IH _ H).
Qed.

(** X1. [escapeHTML] loses nothing: two strings with the same escape are
    the same string. *)
Theorem escapeHTML_is_injective s t :
  escapeHTML (VStr s) = escapeHTML (VStr t) -> s = t.
Proof.
  unfold escapeHTML.
  replace (or_else (VStr s) (VStr [])) with (VStr s) by (now destruct s).
  replace (or_else (VStr t) (VStr [])) with (VStr t) by (now destruct t).
  rewrite !replace_escape_eq. intros [= H]. now apply escape_string_injective.
Qed.

Lemma escapeHTML_cases v :
  escapeHTML v
  = if truthy v
    then match v with VStr s => Some (escape_string s) | _ => None end
    else Some [].
Proof.
  unfold escapeHTML, or_else. destruct (truthy v) eqn:E.
  - destruct v; try reflexivity. now rewrite replace_escape_eq.
  - reflexivity.
Qed.

Lemma liteMarkdown_cases v :
  liteMarkdown v
  = if truthy v
    then match v with
         | VStr s => Some (replace_newlines
                             (replace_bullets (replace_bold (escape_string s))))
         | _ => None
         end
    else Some [].
Proof.
  destruct (truthy v) eqn:E.
  - destruct v; try (unfold liteMarkdown, or_else; rewrite E;
                     rewrite escapeHTML_cases, E; reflexivity).
    apply liteMarkdown_string.
  - unfold liteMarkdown, or_else. rewrite E. reflexivity.
Qed.

(** X2. [escapeHTML] and [liteMarkdown] raise exactly on a truthy value
    that is not a string; a falsy value of any type ([undefined], [null],
    [false], 0, [NaN], the empty string) gives the empty string. *)
Theorem rendering_raises_on_truthy_non_strings v :
  (escapeHTML v = None <-> truthy v = true /\ is_text v = false)
  /\ (liteMarkdown v = None <-> truthy v = true /\ is_text v = false)
  /\ (truthy v = false -> escapeHTML v = Some [] /\ liteMarkdown v = Some []).
Proof.
  rewrite escapeHTML_cases, liteMarkdown_cases.
  destruct (truthy v) eqn:E.
  - destruct v; cbn [is_text]; repeat split; try discriminate; try reflexivity;
      intros [_ H]; discriminate.
  - repeat split; try discriminate; intros [H _]; discriminate.
Qed.

(** ** The patterns of liteMarkdown *)

Section Patterns.


(** X3. The bold pattern [/\*\*(.+?)\*\*/].  A match is two stars, a
    span, two stars; the span is not empty and holds no line break, and it
    is the shortest such span: no [**] starts inside it behind its first
    character.  Wherever the input starts with two stars, a span of that
    kind and two stars, the pattern matches, with a span at most that
    long.  At a match the replacement writes the span between [<strong>]
    and [</strong>] and carries on behind the closing stars; where the
    pattern fails it copies one character. *)
Theorem bold_pattern_takes_the_shortest_span b s :
  (forall c rest,
      exec bold_re b s = Some (c, rest) ->
      s = stars ++ group 1 c ++ stars ++ rest
      /\ group 1 c <> []
      /\ single_line (group 1 c) = true
      /\ (forall pre x, group 1 c = pre ++ x -> pre <> [] -> x <> [] ->
            forall z, x ++ stars ++ rest <> stars ++ z)
      /\ replace bold_re strong b s
         = lit "<strong>" ++ group 1 c ++ lit "</strong>"
           ++ replace bold_re strong false rest)
  /\ (forall x y,
      s = stars ++ x ++ stars ++ y -> x <> [] -> single_line x = true ->
      exists c rest,
        exec bold_re b s = Some (c, rest) /\ length (group 1 c) <= length x)
  /\ (forall a s',
      exec bold_re b s = None -> s = a :: s' ->
      replace bold_re strong b s = a :: replace bold_re strong false s').
Proof.
  rewrite exec_bold. split; [|split].
  - intros c rest H.
    destruct (match_bold s) as [[cap rest']|] eqn:E; [|discriminate].
    cbn [with_group] in H. injection H as <- <-.
    change (group 1 [(1, cap)]) with cap.
    destruct (match_bold_spec _ E) as (Es & H1 & H2 & H3).
    repeat split; try assumption.
    rewrite !replace_bold_eq.
    destruct s as [|a s']; [discriminate E|].
    now rewrite replace_bold_step, E.
  - intros x y -> Hne Hsl. unfold match_bold. rewrite two_stars_stars.
    destruct (bold_group_complete y Hne Hsl) as (cap & rest & -> & Hlen).
    exists [(1, cap)], rest. split; [reflexivity | exact Hlen].
  - intros a s' H ->. rewrite !replace_bold_eq, replace_bold_step.
    destruct (match_bold (a :: s')) as [[cap rest]|]; [discriminate H|].
    reflexivity.
Qed.

(** *** The bullet pattern *)

Lemma dot_run_spec s :
  s = fst (dot_run s) ++ snd (dot_run s)
  /\ single_line (fst (dot_run s)) = true
  /\ at_line_end (snd (dot_run s)) = true.
Proof.
  induction s as [|c s (IH1 & IH2 & IH3)]; [now repeat split|].
  cbn [dot_run]. destruct (is_line_terminator c) eqn:Ec.
  - cbn [fst snd app single_line forallb at_line_end]. now repeat split.
  - destruct (dot_run s) as [run rest]. cbn [fst snd] in *.
    cbn [app single_line forallb]. rewrite Ec. cbn [negb andb].
    split; [now rewrite <- IH1 | now split].
Qed.

Lemma dot_plus_spec s p2 rest :
  dot_plus s = Some (p2, rest) ->
  s = p2 ++ rest /\ p2 <> [] /\ single_line p2 = true /\ at_line_end rest = true.
Proof.
  unfold dot_plus. destruct (dot_run_spec s) as (H1 & H2 & H3).
  destruct (dot_run s) as [[|c run] r]; [discriminate|].
  intros [= <- <-]. cbn [fst snd] in *. repeat split; try assumption.
  discriminate.
Qed.

Lemma dot_run_exact t R :
  single_line t = true -> at_line_end R = true -> dot_run (t ++ R) = (t, R).
Proof.
  intros Ht HR. induction t as [|c t IH].
  - destruct R as [|c R]; [reflexivity|]. cbn in *. now rewrite HR.
  - cbn [single_line forallb] in Ht. apply andb_true_iff in Ht as [Hc Ht].
    apply negb_true_iff in Hc. cbn [app dot_run]. rewrite Hc.
    now rewrite (IH Ht).
Qed.

Lemma spaces_then_text_spec s : forall p2 rest,
  spaces_then_text s = Some (p2, rest) ->
  exists gap,
    s = gap ++ p2 ++ rest
    /\ gap <> [] /\ forallb is_space gap = true
    /\ p2 <> [] /\ single_line p2 = true /\ at_line_end rest = true.
Proof.
  induction s as [|c s IH]; intros p2 rest; [discriminate|].
  cbn [spaces_then_text]. destruct (is_space c) eqn:Ec; [|discriminate].
  destruct (spaces_then_text s) as [[q r]|] eqn:E.
  - intros [= <- <-].
    destruct (IH _ _ eq_refl) as (gap & -> & _ & Hgap & H1 & H2 & H3).
    exists (c :: gap). cbn [forallb app]. rewrite Ec.
    repeat split; try assumption. discriminate.
  - intros H. apply dot_plus_spec in H as (-> & H1 & H2 & H3).
    exists [c]. cbn [forallb app]. rewrite Ec.
    repeat split; try assumption. discriminate.
Qed.

Lemma bullet_tail_spec s p2 rest :
  bullet_tail s = Some (p2, rest) ->
  exists m gap,
    s = m :: gap ++ p2 ++ rest
    /\ is_marker m = true
    /\ gap <> [] /\ forallb is_space gap = true
    /\ p2 <> [] /\ single_line p2 = true /\ at_line_end rest = true.
Proof.
  destruct s as [|m s]; [discriminate|]. cbn [bullet_tail].
  destruct (is_marker m) eqn:Em; [|discriminate].
  intros H. apply spaces_then_text_spec in H as (gap & -> & H).
  exists m, gap. now repeat split.
Qed.

Lemma match_bullet_spec b s p1 p2 rest :
  match_bullet b s = Some (p1, p2, rest) ->
  exists m gap,
    s = p1 ++ m :: gap ++ p2 ++ rest
    /\ ((p1 = [] /\ b = true) \/ p1 = [Ch.newline])
    /\ is_marker m = true
    /\ gap <> [] /\ forallb is_space gap = true
    /\ p2 <> [] /\ single_line p2 = true /\ at_line_end rest = true.
Proof.
  unfold match_bullet.
  destruct (if b then bullet_tail s else None) as [[q r]|] eqn:E.
  - intros [= <- <- <-]. destruct b; [|discriminate].
    apply bullet_tail_spec in E as (m & gap & -> & H).
    exists m, gap. split; [reflexivity|]. split; [now left | exact H].
  - destruct s as [|c s]; [discriminate|].
    destruct (N.eqb_spec c Ch.newline) as [->|]; [|discriminate].
    destruct (bullet_tail s) as [[q r]|] eqn:E'; [|discriminate].
    intros [= <- <- <-].
    apply bullet_tail_spec in E' as (m & gap & -> & H).
    exists m, gap. split; [reflexivity|]. split; [now right | exact H].
Qed.

Lemma bullet_tail_complete m gap c t R :
  is_marker m = true ->
  gap <> [] -> forallb is_space gap = true ->
  is_space c = false -> single_line (c :: t) = true ->
  at_line_end R = true ->
  bullet_tail (m :: gap ++ (c :: t) ++ R) = Some (c :: t, R).
Proof.
  intros Hm Hne Hgap Hc Ht HR. cbn [bullet_tail]. rewrite Hm.
  apply spaces_then_text_gap; try assumption.
  - cbn [app spaces_then_text]. now rewrite Hc.
  - unfold dot_plus. now rewrite (dot_run_exact _ _ Ht HR).
Qed.

Lemma single_line_not_newline s :
  single_line s = true -> forallb not_newline s = true.
Proof.
  unfold single_line. rewrite !forallb_forall. intros H c Hc.
  specialize (H c Hc). unfold not_newline.
  destruct (N.eqb_spec c Ch.newline) as [->|]; [discriminate H | reflexivity].
Qed.

(** X4. The bullet pattern [/(^|\n)[*-]\s+(.+)/].  A match is the start
    of the input or a line feed, one marker, white space, and text that
    runs to the end of its line; the match begins at the very start of the
    input or at a line feed, never elsewhere.  The white space behind the
    marker may hold line breaks: a marker alone on its line takes the next
    line that has text as the text of its item, and the lines between
    disappear. *)
Theorem bullet_pattern_and_its_white_space :
  (forall b s c rest,
      exec bullet_re b s = Some (c, rest) ->
      exists m gap,
        s = group 1 c ++ m :: gap ++ group 2 c ++ rest
        /\ ((group 1 c = [] /\ b = true) \/ group 1 c = [Ch.newline])
        /\ is_marker m = true
        /\ gap <> [] /\ forallb is_space gap = true
        /\ group 2 c <> [] /\ single_line (group 2 c) = true
        /\ at_line_end rest = true)
  /\ (forall m gap c t R,
      is_marker m = true ->
      gap <> [] -> forallb is_space gap = true ->
      is_space c = false -> single_line (c :: t) = true ->
      at_line_end R = true ->
      replace bullet_re bulleted true (m :: gap ++ (c :: t) ++ R)
      = [Ch.bullet; Ch.space] ++ (c :: t) ++ replace bullet_re bulleted false R)
  /\ (forall c, is_line_terminator c = true -> is_space c = true)
  /\ (forall c s, c <> Ch.newline -> exec bullet_re false (c :: s) = None).
Proof.
  split; [|split; [|split]].
  - intros b s c rest. rewrite exec_bullet.
    destruct (match_bullet b s) as [[[p1 p2] r]|] eqn:E; [|discriminate].
    intros [= <- <-].
    change (group 1 [(2, p2); (1, p1)]) with p1.
    change (group 2 [(2, p2); (1, p1)]) with p2.
    now apply match_bullet_spec.
  - intros m gap c t R Hm Hne Hgap Hc Ht HR.
    rewrite !replace_bullets_eq, bullets_from_step.
    unfold match_bullet.
    rewrite (@bullet_tail_complete m gap c t R Hm Hne Hgap Hc Ht HR). reflexivity.
  - apply line_terminator_is_space.
  - intros c s Hc. rewrite exec_bullet, match_bullet_off_newline; [reflexivity|].
    unfold not_newline. now destruct (N.eqb_spec c Ch.newline).
Qed.

End Patterns.

(** ** The HTML liteMarkdown writes *)

Section Markup.

Lemma angle_cases c : not_angle c = false -> c = Ch.lt \/ c = Ch.gt.
Proof.
  unfold not_angle.
  destruct (N.eqb_spec c Ch.lt); [now left|].
  destruct (N.eqb_spec c Ch.gt); [now right | discriminate].
Qed.

Lemma space_not_angle c : is_space c = true -> not_angle c = true.
Proof.
  intros H. destruct (not_angle c) eqn:E; [reflexivity|].
  apply angle_cases in E as [-> | ->]; vm_compute in H; discriminate H.
Qed.

Lemma marker_not_angle c : is_marker c = true -> not_angle c = true.
Proof.
  intros H. destruct (not_angle c) eqn:E; [reflexivity|].
  apply angle_cases in E as [-> | ->]; vm_compute in H; discriminate H.
Qed.

Lemma spaces_not_angle gap :
  forallb is_space gap = true -> forallb not_angle gap = true.
Proof.
  rewrite !forallb_forall. intros H c Hc. apply space_not_angle. now apply H.
Qed.

Lemma markup_run u v : forallb not_angle u = true -> markup v -> markup (u ++ v).
Proof.
  induction u as [|c u IH]; intros Hu Hv; [exact Hv|].
  cbn [forallb] in Hu. apply andb_true_iff in Hu as [Hc Hu].
  cbn [app]. apply markup_text; [exact Hc | now apply IH].
Qed.

(** A character that is not an angle bracket is text: what follows it is
    markup on its own. *)
Lemma markup_behind c s : not_angle c = true -> markup (c :: s) -> markup s.
Proof.
  intros Hc H. remember (c :: s) as x eqn:Ex.
  destruct H as [|c' s' Hc' Hs|s' Hs|cap s' _ _ _ Hs].
  - discriminate Ex.
  - now injection Ex as -> ->.
  - cbn in Ex. injection Ex as <- _. discriminate Hc.
  - cbn in Ex. injection Ex as <- _. discriminate Hc.
Qed.

Lemma markup_strip u v : forallb not_angle u = true -> markup (u ++ v) -> markup v.
Proof.
  induction u as [|c u IH]; intros Hu Hv; [exact Hv|].
  cbn [forallb] in Hu. apply andb_true_iff in Hu as [Hc Hu].
  apply IH; [exact Hu|]. now apply (markup_behind Hc).
Qed.

Lemma escape_char_not_angle c : forallb not_angle (escape_char c) = true.
Proof.
  unfold escape_char.
  destruct (N.eqb_spec c Ch.amp); [reflexivity|].
  destruct (c =? Ch.lt)%N eqn:E1; [reflexivity|].
  destruct (c =? Ch.gt)%N eqn:E2; [reflexivity|].
  cbn [forallb]. unfold not_angle. now rewrite E1, E2.
Qed.

Lemma escape_not_angle s : forallb not_angle (escape_string s) = true.
Proof.
  induction s as [|c s IH]; [reflexivity|].
  rewrite escape_string_cons, forallb_app, escape_char_not_angle. exact IH.
Qed.

(** The bold pass, on text without angle brackets, writes markup. *)
Lemma replace_bold_markup n : forall s,
  length s <= n -> forallb not_angle s = true -> markup (replace_bold s).
Proof.
  induction n as [|n IH]; intros s Hn Hs.
  - destruct s; [|simpl in Hn; lia]. rewrite replace_bold_equation_1.
    apply markup_nil.
  - destruct s as [|c s]; [rewrite replace_bold_equation_1; apply markup_nil|].
    rewrite replace_bold_step.
    destruct (match_bold (c :: s)) as [[cap rest]|] eqn:E.
    + pose proof (match_bold_shorter _ E) as Hlen.
      destruct (match_bold_spec _ E) as (Es & Hne & Hsl & _).
      rewrite Es, !forallb_app in Hs.
      apply andb_true_iff in Hs as [_ Hs].
      apply andb_true_iff in Hs as [Hcap Hs].
      apply andb_true_iff in Hs as [_ Hrest].
      apply markup_strong; try assumption.
      apply IH; [simpl in *; lia | exact Hrest].
    + cbn [forallb] in Hs. apply andb_true_iff in Hs as [Hc Hs].
      apply markup_text; [exact Hc|]. apply IH; [simpl in *; lia | exact Hs].
Qed.

Lemma bullets_past u s b :
  bullet_tail (u ++ s) = None ->
  forallb not_newline u = true ->
  bullets_from b (u ++ s) = u ++ bullets_from false s.
Proof.
  intros Ht Hu. transitivity (bullets_from false (u ++ s)).
  - destruct b; [now apply bullets_from_start | reflexivity].
  - now apply bullets_copy.
Qed.

(** The bullet pass keeps markup: it takes away markers and white space
    and writes bullets, all of them text, and never reaches into a tag. *)
Lemma bullets_markup n : forall s b,
  length s <= n -> markup s -> markup (bullets_from b s).
Proof.
  induction n as [|n IH]; intros s b Hn Hm.
  - destruct s; [|simpl in Hn; lia]. rewrite bullets_from_equation_1.
    apply markup_nil.
  - destruct Hm as [|c s' Hc Hs|s' Hs|cap s' Hne Hang Hsl Hs].
    + rewrite bullets_from_equation_1. apply markup_nil.
    + rewrite bullets_from_step.
      destruct (match_bullet b (c :: s')) as [[[p1 p2] rest]|] eqn:E.
      * pose proof (match_bullet_shorter _ _ E) as Hlen.
        destruct (match_bullet_spec _ _ E)
          as (m & gap & Es & Hp1 & Hm & _ & Hgap & _ & Hp2 & _).
        assert (Hp1' : forallb not_angle p1 = true)
          by (destruct Hp1 as [[-> _]| ->]; reflexivity).
        assert (Hrest : markup (p2 ++ rest)).
        { apply (@markup_strip (p1 ++ m :: gap)).
          - rewrite forallb_app, Hp1'. cbn [forallb andb].
            now rewrite (marker_not_angle _ Hm), (spaces_not_angle _ Hgap).
          - rewrite <- app_assoc. cbn [app]. rewrite <- Es.
            now apply markup_text. }
        assert (Hl : length (p2 ++ rest) <= n).
        { apply (f_equal (@length N)) in Es.
          rewrite !length_app in *. cbn [length] in *.
          rewrite !length_app in *. lia. }
        pose proof (IH _ false Hl Hrest) as Hb.
        rewrite bullets_copy in Hb by (now apply single_line_not_newline).
        apply markup_run; [exact Hp1'|].
        apply markup_text; [reflexivity|]. apply markup_text; [reflexivity|].
        exact Hb.
      * apply markup_text; [exact Hc|]. apply IH; [simpl in Hn; lia | exact Hs].
    + rewrite bullets_past by reflexivity.
      apply markup_br. apply IH; [|exact Hs].
      rewrite length_app in Hn. cbn in Hn. lia.
    + rewrite !app_assoc. rewrite <- (app_assoc (lit "<strong>")).
      rewrite bullets_past.
      * rewrite <- !app_assoc. apply markup_strong; try assumption.
        apply IH; [|exact Hs]. rewrite !length_app in Hn.
        change (length (lit "<strong>")) with 8 in Hn. lia.
      * rewrite <- !app_assoc. reflexivity.
      * rewrite !forallb_app. rewrite (single_line_not_newline _ Hsl).
        reflexivity.
Qed.

(** The last pass keeps markup and writes a [<br>] for each line feed. *)
Lemma newlines_markup s : markup s -> markup (replace_newlines s).
Proof.
  induction 1 as [|c s Hc Hs IH|s Hs IH|cap s Hne Hang Hsl Hs IH].
  - apply markup_nil.
  - change (replace_newlines (c :: s))
      with ((if (c =? Ch.newline)%N then lit "<br>" else [c])
            ++ replace_newlines s).
    destruct (c =? Ch.newline)%N.
    + now apply markup_br.
    + now apply markup_text.
  - rewrite replace_newlines_app. now apply markup_br.
  - rewrite !replace_newlines_app.
    rewrite (replace_newlines_id cap) by (now apply single_line_not_newline).
    now apply markup_strong.
Qed.

Lemma liteMarkdown_markup s :
  markup (replace_newlines (replace_bullets (replace_bold (escape_string s)))).
Proof.
  apply newlines_markup. unfold replace_bullets.
  apply (@bullets_markup (length (replace_bold (escape_string s)))); [lia|].
  apply (@replace_bold_markup (length (escape_string s))); [lia|].
  apply escape_not_angle.
Qed.

Lemma replace_newlines_no_newline s : ~ In Ch.newline (replace_newlines s).
Proof.
  unfold replace_newlines. rewrite in_flat_map. intros (x & _ & Hx).
  destruct (x =? Ch.newline)%N eqn:E.
  - cbn in Hx. repeat (destruct Hx as [Hx|Hx]; [discriminate Hx|]). exact Hx.
  - destruct Hx as [Hx|[]]. subst x. discriminate E.
Qed.

(** X5. Whatever the content of a turn, the HTML [liteMarkdown] hands to
    [innerHTML] is text without angle brackets, [<br>] elements, and
    [<strong>] elements that are closed, not nested and not empty: no
    other tag and no stray angle bracket can come out of it, so the content
    of a turn cannot inject markup; and no line feed is left in it.  (For
    contrast, [<script>] and an unclosed [<strong>] are not of that
    form.) *)
Theorem liteMarkdown_writes_nothing_but_its_own_tags :
  (forall s, exists html, liteMarkdown (VStr s) = Some html /\ markup html)
  /\ (forall v html, liteMarkdown v = Some html -> markup html)
  /\ (forall m html, In (bubble (role m) html) (bubbles [m]) -> markup html)
  /\ ~ markup (lit "<script>")
  /\ ~ markup (lit "<strong>a")
  /\ (forall v html, liteMarkdown v = Some html -> ~ In Ch.newline html).
Proof.
  assert (H : forall v html, liteMarkdown v = Some html -> markup html).
  { intros v html. rewrite liteMarkdown_cases. destruct (truthy v).
    - destruct v; try discriminate. intros [= <-]. apply liteMarkdown_markup.
    - intros [= <-]. apply markup_nil. }
  split; [|split; [exact H|split; [|split; [|split]]]].
  5:{ intros v html. rewrite liteMarkdown_cases. destruct (truthy v).
      - destruct v; try discriminate. intros [= <-].
        apply replace_newlines_no_newline.
      - intros [= <-] []. }
  - intros s. rewrite liteMarkdown_string. eexists. split; [reflexivity|].
    apply liteMarkdown_markup.
  - intros m html. cbn [bubbles flat_map].
    destruct (liteMarkdown (content m)) as [html'|] eqn:E; [|intros []].
    cbn [app]. intros [Hb|[]]. unfold bubble in Hb. injection Hb as <-.
    exact (H _ _ E).
  - intros Hm. remember (lit "<script>") as x eqn:Ex.
    destruct Hm as [|c s Hc Hs|s Hs|cap s _ _ _ Hs]; cbn in Ex.
    + discriminate Ex.
    + injection Ex as -> _. discriminate Hc.
    + discriminate Ex.
    + discriminate Ex.
  - intros Hm. remember (lit "<strong>a") as x eqn:Ex.
    destruct Hm as [|c s Hc Hs|s Hs|cap s Hne _ _ Hs]; cbn in Ex.
    + discriminate Ex.
    + injection Ex as -> _. discriminate Hc.
    + discriminate Ex.
    + injection Ex as Ex. destruct cap as [|c cap]; [contradiction|].
      cbn in Ex. injection Ex as _ Ex. destruct cap; discriminate Ex.
Qed.

(** *** Plain text *)

Lemma plain_parts c :
  plain c = true ->
  (c =? Ch.amp)%N = false /\ (c =? Ch.lt)%N = false /\ (c =? Ch.gt)%N = false
  /\ (c =? Ch.star)%N = false /\ (c =? Ch.dash)%N = false
  /\ (c =? Ch.newline)%N = false.
Proof.
  unfold plain. intros H.
  repeat (apply andb_true_iff in H as [H ?]).
  repeat match goal with X : negb _ = true |- _ => apply negb_true_iff in X end.
  now repeat split.
Qed.

Lemma plain_escape s : forallb plain s = true -> escape_string s = s.
Proof.
  induction s as [|c s IH]; [reflexivity|]. cbn [forallb].
  intros H. apply andb_true_iff in H as [Hc Hs].
  apply plain_parts in Hc as (H1 & H2 & H3 & _).
  rewrite escape_string_cons, (escape_char_other _ H1 H2 H3), (IH Hs).
  reflexivity.
Qed.

Lemma plain_no_two_stars s : forallb plain s = true -> no_two_stars s = true.
Proof.
  induction s as [|c s IH]; [reflexivity|]. cbn [forallb].
  intros H. apply andb_true_iff in H as [Hc Hs].
  apply plain_parts in Hc as (_ & _ & _ & H4 & _).
  apply no_two_stars_cons. split; [now apply two_stars_off | now apply IH].
Qed.

Lemma plain_bullets s : forall b,
  forallb plain s = true -> bullets_from b s = s.
Proof.
  induction s as [|c s IH]; intros b; [now rewrite bullets_from_equation_1|].
  cbn [forallb]. intros H. apply andb_true_iff in H as [Hc Hs].
  apply plain_parts in Hc as (_ & _ & _ & H4 & H5 & H6).
  rewrite bullets_from_step.
  assert (E : match_bullet b (c :: s) = None).
  { unfold match_bullet, bullet_tail, is_marker. rewrite H4, H5, H6.
    now destruct b. }
  now rewrite E, IH.
Qed.

Lemma plain_newlines s : forallb plain s = true -> replace_newlines s = s.
Proof.
  intros H. apply replace_newlines_id.
  rewrite forallb_forall in *. intros c Hc. specialize (H c Hc).
  apply plain_parts in H as (_ & _ & _ & _ & _ & H6).
  unfold not_newline. now rewrite H6.
Qed.

(** X6. Text that holds none of [&], [<], [>], [*], [-] and no line feed
    is shown as it is: [escapeHTML] and [liteMarkdown] return it
    unchanged.  The characters the passes look for are exactly these
    six. *)
Theorem plain_text_is_shown_as_it_is s :
  forallb plain s = true ->
  escapeHTML (VStr s) = Some s /\ liteMarkdown (VStr s) = Some s.
Proof.
  intros H. split.
  - rewrite escapeHTML_cases. destruct s; [reflexivity|].
    cbn [truthy]. now rewrite plain_escape.
  - rewrite liteMarkdown_string, (plain_escape _ H).
    rewrite (replace_bold_id _ (plain_no_two_stars _ H)).
    unfold replace_bullets. rewrite (plain_bullets _ true H).
    now rewrite plain_newlines.
Qed.

End Markup.

(** ** render *)

Section Screen.

Arguments liteMarkdown : simpl never.
Arguments lit : simpl never.

Lemma formattable_liteMarkdown v :
  formattable v = true -> exists html, liteMarkdown v = Some html.
Proof.
  rewrite liteMarkdown_cases. unfold formattable.
  destruct (truthy v); [|eauto].
  destruct v; cbn [is_text negb orb]; try discriminate; eauto.
Qed.

Lemma unformattable_liteMarkdown v :
  formattable v = false -> liteMarkdown v = None.
Proof.
  rewrite liteMarkdown_cases. unfold formattable.
  destruct (truthy v); [|rewrite orb_true_r; discriminate].
  destruct v; cbn [is_text negb orb]; try discriminate; reflexivity.
Qed.

Lemma with_children_same w : with_children w (elMessages w) = w.
Proof. now destruct w. Qed.

(** The loop of [render] over turns it can format appends their bubbles
    and goes on with the turns behind them. *)
Lemma forEach_render_prefix good :
  all_formattable good = true ->
  forall later w,
    forEach render_message (good ++ later) w
    = forEach render_message later
        (with_children w (elMessages w ++ bubbles good)).
Proof.
  induction good as [|m good IH]; intros H later w.
  - cbn [bubbles flat_map app]. now rewrite app_nil_r, with_children_same.
  - apply andb_true_iff in H as [Hm Hgood].
    destruct (formattable_liteMarkdown _ Hm) as [html Hhtml].
    cbn [forEach app].
    rewrite (bind_Ok _ _ _ (render_message_text _ _ Hhtml)).
    rewrite IH by exact Hgood.
    cbn [bubbles flat_map]. rewrite Hhtml.
    rewrite with_children_twice. cbn [elMessages with_children].
    now rewrite <- app_assoc.
Qed.

Lemma bubbles_nth ms :
  all_formattable ms = true ->
  forall i m, nth_error ms i = Some m ->
    exists html, liteMarkdown (content m) = Some html
                 /\ nth_error (bubbles ms) i = Some (bubble (role m) html).
Proof.
  induction ms as [|m0 ms IH]; intros H i m Hi.
  - destruct i; discriminate.
  - apply andb_true_iff in H as [Hm Hms].
    destruct (formattable_liteMarkdown _ Hm) as [html Hhtml].
    cbn [bubbles flat_map]. rewrite Hhtml.
    destruct i as [|i].
    + injection Hi as <-. exists html. now split.
    + cbn [nth_error app] in *. now apply IH.
Qed.

Lemma bubbles_formattable_length ms :
  all_formattable ms = true -> length (bubbles ms) = length ms.
Proof.
  induction ms as [|m ms IH]; [reflexivity|].
  intros H. apply andb_true_iff in H as [Hm Hms].
  destruct (formattable_liteMarkdown _ Hm) as [html Hhtml].
  cbn [bubbles flat_map]. rewrite Hhtml. cbn [app length].
  f_equal. now apply IH.
Qed.

Lemma render_unfold w :
  render w
  = match forEach render_message (messages (state w)) (with_children w []) with
    | (Ok _, w') => when (loading (state w')) (appendChild typing_indicator) w'
    | (Throw, w') => (Throw, w')
    end.
Proof. reflexivity. Qed.

(** X7. On a transcript [liteMarkdown] can format, [render] replaces the
    children of [#messages] by one bubble per turn, in the order of the
    transcript, each holding its turn's formatted content on the side its
    role asks for, and the typing indicator behind them exactly while
    [loading]. *)
Theorem render_shows_every_turn_in_order w :
  all_formattable (messages (state w)) = true ->
  let ms := messages (state w) in
  render w
  = (Ok tt, with_children w (bubbles ms ++ if loading (state w)
                                           then [typing_indicator] else []))
  /\ length (bubbles ms) = length ms
  /\ (forall i m, nth_error ms i = Some m ->
        exists html, liteMarkdown (content m) = Some html
                     /\ nth_error (bubbles ms) i = Some (bubble (role m) html))
  /\ (forall html, bubble user html
                   = Bubble (lit "msg right") (lit "bubble bubble-user") html)
  /\ (forall html, bubble assistant html
                   = Bubble (lit "msg left") (lit "bubble bubble-bot") html).
Proof.
  intros H ms. split; [|split; [|split; [|split]]].
  - rewrite render_unfold. fold ms.
    rewrite <- (app_nil_r ms) at 1.
    rewrite forEach_render_prefix by exact H.
    cbn [forEach ret elMessages with_children app].
    rewrite with_children_twice. cbn [state with_children].
    destruct (loading (state w)); cbn [when ret].
    + reflexivity.
    + now rewrite app_nil_r.
  - now apply bubbles_formattable_length.
  - now apply bubbles_nth.
  - reflexivity.
  - reflexivity.
Qed.

Lemma render_first_bad w good bad later :
  messages (state w) = good ++ bad :: later ->
  all_formattable good = true ->
  formattable (content bad) = false ->
  render w = (Throw, with_children w (bubbles good)).
Proof.
  intros Hms Hgood Hbad.
  rewrite render_unfold, Hms.
  rewrite forEach_render_prefix by exact Hgood.
  cbn [forEach elMessages with_children app].
  rewrite (bind_Throw _ _ _ (render_message_throws _ _ (unformattable_liteMarkdown _ Hbad))).
  now rewrite with_children_twice.
Qed.

(** X8. [render] stops at the first turn it cannot format, a truthy value
    that is not a string: it raises there, the bubbles of the turns before
    it are on the page, the turns behind it and the typing indicator are
    not. *)
Theorem render_stops_at_the_first_turn_it_cannot_format w good bad later :
  messages (state w) = good ++ bad :: later ->
  all_formattable good = true ->
  formattable (content bad) = false ->
  render w = (Throw, with_children w (bubbles good))
  /\ length (bubbles good) = length good
  /\ ~ In typing_indicator (elMessages (snd (render w))).
Proof.
  intros Hms Hgood Hbad.
  rewrite (render_first_bad _ _ _ _ Hms Hgood Hbad).
  split; [reflexivity|]. split; [now apply bubbles_formattable_length|].
  cbn [snd elMessages with_children]. unfold bubbles.
  rewrite in_flat_map. intros (m & _ & Hm).
  destruct (liteMarkdown (content m)); [|exact Hm].
  destruct Hm as [Hm|[]]. discriminate Hm.
Qed.


End Screen.

(** ** updateCounter, for every limit *)

Section AnyLimit.
Context {host : Host}.

Arguments slice : simpl never.
Arguments NumberToString : simpl never.
Arguments lit : simpl never.

Lemma slice_to {A} (l : list A) (z : Z) :
  slice l (num_of_Z 0) (Some (Fin (inject_Z z)))
  = firstn (relative_index (length l) (Int z)) l.
Proof.
  unfold slice. rewrite ToIntegerOrInfinity_Z.
  cbn [ToIntegerOrInfinity relative_index]. rewrite Qtruncate_inject_Z.
  cbn [Z.ltb Z.compare Z.to_nat Nat.min skipn]. now rewrite Nat.sub_0_r.
Qed.

Lemma slice_to_number {A} (l : list A) (limit : number) :
  slice l (num_of_Z 0) (Some limit)
  = firstn (relative_index (length l) (ToIntegerOrInfinity limit)) l.
Proof.
  unfold slice. rewrite ToIntegerOrInfinity_Z.
  cbn [relative_index Z.ltb Z.compare Z.to_nat Nat.min skipn].
  now rewrite Nat.sub_0_r.
Qed.

Lemma Qfloor_eq q : Qfloor q = (Qnum q / Zpos (Qden q))%Z.
Proof. now destruct q. Qed.

Lemma Qceiling_eq q : Qceiling q = (- ((- Qnum q) / Zpos (Qden q)))%Z.
Proof. now destruct q. Qed.

Lemma num_gt_fin (len : nat) q :
  num_gt (num_of_nat len) (Fin q)
  = (Qnum q <? Z.of_nat len * Zpos (Qden q))%Z.
Proof.
  unfold num_gt, num_of_nat, num_of_Z, Qltb. cbn [inject_Z Qnum Qden].
  now rewrite Z.mul_1_r.
Qed.

(** A limit that is not below zero cuts to its integer part. *)
Lemma clipped_nonneg q s :
  (0 <= Qnum q)%Z ->
  clipped (Fin q) s = firstn (Z.to_nat (Qfloor q)) s.
Proof.
  intros Hq. unfold clipped. rewrite num_gt_fin, Qfloor_eq.
  assert (Hfl : (0 <= Qnum q / Zpos (Qden q))%Z) by (apply Z.div_pos; lia).
  destruct (Z.ltb_spec (Qnum q) (Z.of_nat (length s) * Zpos (Qden q))) as [Hlt|Hge].
  - rewrite slice_to_number. cbn [ToIntegerOrInfinity relative_index].
    unfold Qtruncate. replace (Qnum q <? 0)%Z with false by (symmetry; apply Z.ltb_ge; lia).
    rewrite Qfloor_eq.
    replace (Qnum q / Zpos (Qden q) <? 0)%Z with false
      by (symmetry; apply Z.ltb_ge; lia).
    assert (Qnum q / Zpos (Qden q) < Z.of_nat (length s))%Z
      by (apply Z.div_lt_upper_bound; lia).
    f_equal. lia.
  - assert (Z.of_nat (length s) <= Qnum q / Zpos (Qden q))%Z
      by (apply Z.div_le_lower_bound; lia).
    symmetry. apply firstn_all2. lia.
Qed.

(** A limit below zero counts from the end of the input: each call drops
    as many characters as its integer part says, and everything when that
    part is zero. *)
Lemma clipped_negative q s :
  (Qnum q < 0)%Z ->
  clipped (Fin q) s
  = firstn (if (Qceiling q =? 0)%Z then 0
            else length s - Z.to_nat (- Qceiling q)) s.
Proof.
  intros Hq. unfold clipped. rewrite num_gt_fin.
  replace (Qnum q <? Z.of_nat (length s) * Zpos (Qden q))%Z with true
    by (symmetry; apply Z.ltb_lt; nia).
  rewrite slice_to_number. cbn [ToIntegerOrInfinity relative_index].
  unfold Qtruncate. replace (Qnum q <? 0)%Z with true by (symmetry; apply Z.ltb_lt; lia).
  assert (Hc : (Qceiling q <= 0)%Z).
  { rewrite Qceiling_eq.
    assert (0 <= - Qnum q / Zpos (Qden q))%Z by (apply Z.div_pos; lia). lia. }
  destruct (Z.eqb_spec (Qceiling q) 0) as [E|E].
  - rewrite E. reflexivity.
  - replace (Qceiling q <? 0)%Z with true by (symmetry; apply Z.ltb_lt; lia).
    f_equal. lia.
Qed.




(** Under a limit that is not below zero the clipped input is within the
    limit. *)
Lemma clipped_within limit s :
  num_gt (num_of_nat 0) limit = false ->
  num_gt (num_of_nat (length (clipped limit s))) limit = false.
Proof.
  intros H0. destruct (num_gt (num_of_nat (length s)) limit) eqn:E.
  - destruct limit as [|[|]|q]; try discriminate.
    rewrite num_gt_fin in H0. apply Z.ltb_ge in H0. cbn in H0.
    rewrite clipped_nonneg by exact H0.
    rewrite num_gt_fin. apply Z.ltb_ge.
    rewrite length_firstn, Qfloor_eq.
    assert (0 <= Qnum q / Zpos (Qden q))%Z by (apply Z.div_pos; lia).
    pose proof (Z.mul_div_le (Qnum q) (Zpos (Qden q)) eq_refl).
    nia.
  - unfold clipped. now rewrite E.
Qed.

Lemma clipped_again limit s :
  num_gt (num_of_nat 0) limit = false ->
  clipped limit (clipped limit s) = clipped limit s.
Proof.
  intros H0. unfold clipped at 1. now rewrite clipped_within.
Qed.

Lemma updateCounter_input w :
  elInput_value (snd (updateCounter w))
  = clipped (INPUT_LIMIT (config w)) (elInput_value w).
Proof. rewrite updateCounter_eq. reflexivity. Qed.

(** X11. Under a limit that is not below zero a second [updateCounter]
    changes nothing: the input it left is within the limit.  Under a limit
    below zero that is not so: with the limit -1 every call takes the last
    character away, and two calls take two. *)
Theorem updateCounter_settles_unless_the_limit_is_negative w :
  (num_gt (num_of_nat 0) (INPUT_LIMIT (config w)) = false ->
   updateCounter (snd (updateCounter w)) = updateCounter w)
  /\ (INPUT_LIMIT (config w) = num_of_Z (-1) ->
      elInput_value (snd (updateCounter w))
      = firstn (length (elInput_value w) - 1) (elInput_value w)
      /\ elInput_value (snd (updateCounter (snd (updateCounter w))))
         = firstn (length (elInput_value w) - 2) (elInput_value w)).
Proof.
  split.
  - intros H0. rewrite !updateCounter_eq.
    cbn [snd config elInput_value with_counter with_input]. cbv zeta.
    rewrite clipped_again by exact H0. reflexivity.
  - intros E.
    assert (Hc : forall t, clipped (num_of_Z (-1)) t = firstn (length t - 1) t).
    { intros t. unfold num_of_Z. rewrite clipped_negative by reflexivity.
      reflexivity. }
    rewrite !updateCounter_input, updateCounter_eq.
    cbn [snd config elInput_value with_counter with_input]. cbv zeta.
    rewrite E, !Hc. split; [reflexivity|].
    rewrite firstn_firstn, length_firstn. f_equal. lia.
Qed.

End AnyLimit.

(** ** trim: the configuration and the guard of send *)

Section Trim.
Context {host : Host}.

Arguments lit : simpl never.

Lemma drop_while_all {A} (p : A -> bool) l :
  forallb p l = true -> drop_while p l = [].
Proof.
  induction l as [|x l IH]; [reflexivity|]. cbn [forallb drop_while].
  intros H. apply andb_true_iff in H as [-> H]. now apply IH.
Qed.

Lemma drop_while_split {A} (p : A -> bool) l :
  exists pre, l = pre ++ drop_while p l /\ forallb p pre = true.
Proof.
  induction l as [|x l (pre & E & Hpre)].
  - now exists [].
  - cbn [drop_while]. destruct (p x) eqn:Hx.
    + exists (x :: pre). cbn [forallb app]. rewrite Hx, Hpre. now rewrite <- E.
    + now exists [].
Qed.

Lemma drop_while_head {A} (p : A -> bool) l x r :
  drop_while p l = x :: r -> p x = false.
Proof.
  induction l as [|y l IH]; [discriminate|]. cbn [drop_while].
  destruct (p y) eqn:Hy; [exact IH|]. now intros [= <- _].
Qed.

Lemma forallb_rev {A} (p : A -> bool) l :
  forallb p l = true -> forallb p (rev l) = true.
Proof.
  rewrite !forallb_forall. intros H x Hx. apply H. now apply in_rev.
Qed.

(** What [trim] returns: the input without a run of white space at either
    end, and with no white space left at its own ends. *)
Lemma trim_spec s :
  exists pre post,
    s = pre ++ trim s ++ post
    /\ forallb is_space pre = true
    /\ forallb is_space post = true
    /\ (forall c t, trim s = c :: t -> is_space c = false)
    /\ (forall t c, trim s = t ++ [c] -> is_space c = false).
Proof.
  unfold trim.
  destruct (drop_while_split is_space s) as (pre & Es & Hpre).
  set (d := drop_while is_space s) in *.
  destruct (drop_while_split is_space (rev d)) as (q & Ed & Hq).
  set (e := drop_while is_space (rev d)) in *.
  assert (Ed' : d = rev e ++ rev q).
  { rewrite <- rev_app_distr, <- Ed. symmetry. apply rev_involutive. }
  exists pre, (rev q). split; [now rewrite <- Ed'|].
  split; [exact Hpre|]. split; [now apply forallb_rev|]. split.
  - intros c t E.
    rewrite E in Ed'. cbn [app] in Ed'.
    apply (drop_while_head is_space s (x := c) (r := t ++ rev q)). exact Ed'.
  - intros t c E.
    assert (Ee : e = c :: rev t).
    { rewrite <- (rev_involutive e), E, rev_app_distr. reflexivity. }
    apply (drop_while_head is_space (rev d) (x := c) (r := rev t)). exact Ee.
Qed.

Lemma trim_nil_iff s : trim s = [] <-> forallb is_space s = true.
Proof.
  split.
  - intros E. destruct (trim_spec s) as (pre & post & Es & Hpre & Hpost & _).
    rewrite E in Es. rewrite Es. cbn [app]. rewrite forallb_app.
    now rewrite Hpre, Hpost.
  - intros H. unfold trim. now rewrite (drop_while_all _ _ H).
Qed.

Lemma drop_while_keeps {A} (p : A -> bool) x l :
  p x = false -> drop_while p (x :: l) = x :: l.
Proof. cbn [drop_while]. now intros ->. Qed.

(** A string with no white space at its ends is its own trim. *)
Lemma trim_fixed t :
  (forall c r, t = c :: r -> is_space c = false) ->
  (forall r c, t = r ++ [c] -> is_space c = false) ->
  trim t = t.
Proof.
  intros Hhd Hlast. unfold trim. destruct t as [|c r]; [reflexivity|].
  rewrite drop_while_keeps by exact (Hhd _ _ eq_refl).
  destruct (rev (c :: r)) as [|x l] eqn:E.
  - apply (f_equal (@length N)) in E. rewrite length_rev in E. discriminate.
  - assert (E' : c :: r = rev l ++ [x]).
    { rewrite <- (rev_involutive (c :: r)), E. reflexivity. }
    rewrite drop_while_keeps by exact (Hlast _ _ E').
    now rewrite <- E, rev_involutive.
Qed.

Lemma trim_idempotent s : trim (trim s) = trim s.
Proof.
  destruct (trim_spec s) as (_ & _ & _ & _ & _ & Hhd & Hlast).
  now apply trim_fixed.
Qed.

(** X12. The address of the service, [(window.API_BASE || "").trim()]: the
    script stops while it loads exactly when the global is a truthy value
    that is not a string; a falsy global of any type gives the empty
    address (same origin); a string gives the string without the white
    space around it, so the address never starts or ends with white space;
    and the request goes to that address followed by the fixed path. *)
Theorem api_base_is_trimmed v :
  (api_base_of v = None <-> truthy v = true /\ is_text v = false)
  /\ (truthy v = false -> api_base_of v = Some [])
  /\ (forall base, api_base_of v = Some base ->
        trim base = base
        /\ (forall c t, base = c :: t -> is_space c = false)
        /\ (forall t c, base = t ++ [c] -> is_space c = false))
  /\ (forall s, v = VStr s ->
        exists pre post,
          api_base_of v = Some (trim s)
          /\ s = pre ++ trim s ++ post
          /\ forallb is_space pre = true /\ forallb is_space post = true)
  /\ (forall limit, load_config v limit = None <-> api_base_of v = None)
  /\ (forall limit c, load_config v limit = Some c ->
        api_base_of v = Some (API_BASE c)
        /\ INPUT_LIMIT c = input_limit_of limit
        /\ forall w, config w = c ->
             url (request_of w) = API_BASE c ++ lit "/v1/chat/completions").
Proof.
  assert (Hcases : api_base_of v
                   = if truthy v
                     then match v with VStr s => Some (trim s) | _ => None end
                     else Some []).
  { unfold api_base_of, or_else. destruct (truthy v) eqn:E; [|reflexivity].
    destruct v; reflexivity. }
  split; [|split; [|split; [|split; [|split]]]].
  - rewrite Hcases. destruct (truthy v) eqn:E.
    + destruct v; cbn [is_text]; split; try discriminate; try (now split);
        intros [_ H]; discriminate.
    + split; [discriminate | intros [H _]; discriminate].
  - intros E. now rewrite Hcases, E.
  - intros base Hb.
    assert (Ht : exists s, base = trim s).
    { rewrite Hcases in Hb. destruct (truthy v).
      - destruct v; try discriminate. injection Hb as <-. eauto.
      - injection Hb as <-. now exists []. }
    destruct Ht as [s ->].
    destruct (trim_spec s) as (_ & _ & _ & _ & _ & Hhd & Hlast).
    split; [apply trim_idempotent|]. split; assumption.
  - intros s ->. destruct (trim_spec s) as (pre & post & Es & Hpre & Hpost & _).
    exists pre, post. split; [|now split].
    unfold api_base_of, or_else. now destruct s.
  - intros limit. unfold load_config. destruct (api_base_of v); split;
      try discriminate; reflexivity.
  - intros limit c. unfold load_config.
    destruct (api_base_of v) as [base|]; [|discriminate].
    intros [= <-]. cbn [API_BASE INPUT_LIMIT]. split; [reflexivity|].
    split; [reflexivity|]. intros w E. unfold request_of. cbn [url].
    now rewrite E.
Qed.

(** The guard of [send] in terms of the input itself. *)
Lemma accepts_false_iff w :
  accepts w = false <->
  loading (state w) = true \/ forallb is_space (elInput_value w) = true.
Proof.
  rewrite <- trim_nil_iff. unfold accepts.
  destruct (loading (state w)), (trim (elInput_value w)); cbn; split; auto;
    intros [H|H]; discriminate.
Qed.

(** X13. A submit is ignored exactly when an exchange is under way or the
    input is white space only (spaces, tabs, line breaks, or nothing at
    all).  Any other submit adds one user turn whose content is the input
    without the white space around it: not empty, and with no white space
    at either end; white space inside the text is kept. *)
Theorem send_takes_the_text_between_the_blanks w :
  (accepts w = false <->
   loading (state w) = true \/ forallb is_space (elInput_value w) = true)
  /\ (accepts w = false -> send w = (Ok None, w))
  /\ (accepts w = true ->
      exists pre text post,
        elInput_value w = pre ++ text ++ post
        /\ forallb is_space pre = true /\ forallb is_space post = true
        /\ text <> []
        /\ (forall c t, text = c :: t -> is_space c = false)
        /\ (forall t c, text = t ++ [c] -> is_space c = false)
        /\ messages (state (snd (send w)))
           = messages (state w) ++ [{| role := user; content := VStr text |}]
        /\ elInput_value (snd (send w)) = []).
Proof.
  split; [apply accepts_false_iff|]. split; [apply send_rejects|].
  intros Ha.
  destruct (trim_spec (elInput_value w))
    as (pre & post & Es & Hpre & Hpost & Hhd & Hlast).
  exists pre, (trim (elInput_value w)), post.
  split; [exact Es|]. split; [exact Hpre|]. split; [exact Hpost|].
  split.
  { apply accepts_true in Ha as [Ha _].
    destruct (trim (elInput_value w)); [discriminate | discriminate]. }
  split; [exact Hhd|]. split; [exact Hlast|].
  split.
  - rewrite send_state, Ha. reflexivity.
  - rewrite send_accepts by exact Ha.
    destruct (render_frame (turn_pushed w)) as (r & ns & ->).
    destruct r as [[]|]; reflexivity.
Qed.

End Trim.

(** ** The answer read from a response *)

(** X14. Where [send] reads the answer.  The optional chaining never
    raises: a JSON body that is not an object ([null], a number, a
    string, a boolean, an array) gets the notice, and so does an object
    whose [choices] is an empty array.  An object answers with its own
    [content] when that is truthy, whatever else it holds; otherwise with
    the [content] of the [message] of the first element of [choices], and
    of no other element. *)
Theorem answer_reads_two_places_and_never_raises :
  (forall data, (forall props, data <> VObj props) ->
                answer data = VStr empty_notice)
  /\ (forall props,
      truthy (own_property (lit "content") props) = true ->
      answer (VObj props) = own_property (lit "content") props)
  /\ (forall props first others,
      truthy (own_property (lit "content") props) = false ->
      own_property (lit "choices") props = VArr (first :: others) ->
      answer (VObj props)
      = or_else (get_named (get_named first (lit "message")) (lit "content"))
                (VStr empty_notice))
  /\ (forall props,
      truthy (own_property (lit "content") props) = false ->
      own_property (lit "choices") props = VArr [] ->
      answer (VObj props) = VStr empty_notice)
  /\ (forall props,
      own_property (lit "content") props = VUndefined ->
      own_property (lit "choices") props = VUndefined ->
      answer (VObj props) = VStr empty_notice).
Proof.
  split; [|split; [|split; [|split]]].
  - intros data H. destruct data; try reflexivity. now destruct (H props).
  - intros props H. unfold answer, or_else. cbn [get_named]. now rewrite H.
  - intros props first others H Hc. unfold answer. unfold or_else at 1.
    cbn [get_named]. rewrite H, Hc. reflexivity.
  - intros props H Hc. unfold answer. unfold or_else at 1.
    cbn [get_named]. rewrite H, Hc. reflexivity.
  - intros props H Hc. unfold answer, or_else. cbn [get_named].
    rewrite H, Hc. reflexivity.
Qed.

(** ** The event loop, for every trace *)

Section Loop.
Context {host : Host}.

Arguments liteMarkdown : simpl never.
Arguments NumberToString : simpl never.
Arguments trim : simpl never.
Arguments slice : simpl never.
Arguments lit : simpl never.
Arguments num_gt : simpl never.

(** The world after one event; [ns] stands for the children [render]
    leaves under [#messages]. *)
Lemma step_world p e :
  exists ns,
    world (step p e)
    = match e with
      | Input text =>
          let limit := INPUT_LIMIT (config (world p)) in
          with_counter (with_input (world p) (clipped limit text))
                       (counter_text (length (clipped limit text)) limit)
      | Submit =>
          if accepts (world p) then with_children (turn_pushed (world p)) ns
          else world p
      | Settle o =>
          match in_flight p with
          | [] => world p
          | _ :: _ => with_children (settled o (world p)) ns
          end
      | ToggleTheme =>
          let dark := negb (theme_dark (world p)) in
          with_theme (world p) dark (if dark then sun else moon)
                     (Some (if dark then lit "dark" else lit "light"))
      end.
Proof.
  destruct e as [text| |o|].
  - exists []. apply input_world.
  - rewrite submit_world. destruct (accepts (world p)) eqn:E.
    + rewrite send_accepts by exact E.
      destruct (render_frame (turn_pushed (world p))) as (r & ns & ->).
      exists ns. destruct r as [[]|]; reflexivity.
    + exists []. now rewrite send_rejects.
  - unfold step. destruct (in_flight p) as [|req rest]; [now exists []|].
    cbn [world]. rewrite send_settle_eq.
    destruct (render_frame (settled o (world p))) as (r & ns & ->).
    exists ns. destruct r as [[]|]; reflexivity.
  - exists []. reflexivity.
Qed.

(** The world the script leaves when it has loaded. *)
Lemma boot_world c stored input label :
  boot c stored input label
  = let s := clipped (INPUT_LIMIT c) input in
    let w1 := {| config := c; state := initial_state;
                 elInput_value := s;
                 elCounter_textContent := counter_text (length s) (INPUT_LIMIT c);
                 elMessages := bubbles [greeting];
                 theme_dark := false;
                 btnTheme_textContent := label;
                 localStorage_theme := stored |} in
    if prefers_dark stored then with_theme w1 true sun stored else w1.
Proof.
  unfold boot.
  rewrite (bind_Ok _ _ _ (updateCounter_eq _)).
  rewrite render_text by reflexivity.
  cbn [snd config state elInput_value with_counter with_input with_children
       messages loading initial_state].
  rewrite app_nil_r.
  destruct stored as [t|]; [|reflexivity].
  cbn [prefers_dark]. destruct (jsstring_eqb t (lit "dark")); reflexivity.
Qed.

Lemma run_invariant (I : Page -> Prop) :
  (forall p e, I p -> I (step p e)) ->
  forall trace p, I p -> I (run p trace).
Proof.
  intros Hstep trace. induction trace as [|e trace IH]; intros p Hp; [exact Hp|].
  rewrite run_cons. apply IH. now apply Hstep.
Qed.

Lemma run_config trace : forall p, config (world (run p trace)) = config (world p).
Proof.
  induction trace as [|e trace IH]; intros p; [reflexivity|].
  rewrite run_cons, IH. apply step_config.
Qed.

(** *** The counter *)

Lemma step_counted p e : counted p -> counted (step p e).
Proof.
  intros [Hc Hl]. unfold counted.
  rewrite step_config. destruct (step_world p e) as [ns ->].
  destruct e as [text| |o|].
  - cbn [elCounter_textContent elInput_value with_counter with_input].
    split; [reflexivity | apply clipped_within].
  - destruct (accepts (world p)); [|split; assumption].
    cbn [elCounter_textContent elInput_value with_children turn_pushed
         with_state with_counter with_input length].
    split; [reflexivity | tauto].
  - destruct (in_flight p); split; assumption.
  - split; assumption.
Qed.

Lemma start_counted c stored input label : counted (start c stored input label).
Proof.
  unfold counted. cbn [start world]. rewrite boot_world. cbv zeta.
  destruct (prefers_dark stored);
    cbn [config elCounter_textContent elInput_value with_theme];
    (split; [reflexivity | apply clipped_within]).
Qed.

(** X15. Whatever the user does and whatever the service answers, the
    counter under the input box shows the length of what the box holds;
    and under a limit that is not below zero (a number that is not
    negative, [+Infinity], or [NaN]) the box never holds more than the
    limit.  A submit that passes the guard empties the box and sets the
    counter back to zero. *)
Theorem counter_always_shows_the_input c stored input label trace :
  let w := world (run (start c stored input label) trace) in
  elCounter_textContent w
  = counter_text (length (elInput_value w)) (INPUT_LIMIT c)
  /\ (num_gt (num_of_nat 0) (INPUT_LIMIT c) = false ->
      num_gt (num_of_nat (length (elInput_value w))) (INPUT_LIMIT c) = false)
  /\ (accepts w = true ->
      elInput_value (snd (send w)) = []
      /\ elCounter_textContent (snd (send w)) = counter_text 0 (INPUT_LIMIT c)).
Proof.
  intros w.
  assert (Hc : config w = c).
  { unfold w. rewrite run_config. cbn [start world]. apply boot_state. }
  assert (H : counted (run (start c stored input label) trace)).
  { apply run_invariant; [apply step_counted | apply start_counted]. }
  unfold counted in H. fold w in H. rewrite Hc in H. cbv zeta in H.
  destruct H as [H1 H2]. split; [exact H1|]. split; [exact H2|].
  intros Ha. rewrite send_accepts by exact Ha.
  destruct (render_frame (turn_pushed w)) as (r & ns & ->).
  rewrite <- Hc. destruct r as [[]|]; split; reflexivity.
Qed.

(** *** The theme *)

Lemma jsstring_eqb_refl s : jsstring_eqb s s = true.
Proof. unfold jsstring_eqb. now destruct (list_eq_dec N.eq_dec s s). Qed.

Lemma step_themed label0 p e : themed label0 p -> themed label0 (step p e).
Proof.
  intros H. unfold themed. destruct (step_world p e) as [ns ->].
  destruct e as [text| |o|].
  - exact H.
  - destruct (accepts (world p)); exact H.
  - destruct (in_flight p); exact H.
  - cbn [theme_dark btnTheme_textContent localStorage_theme with_theme].
    destruct (theme_dark (world p)); cbn [negb prefers_dark].
    + split; [reflexivity|]. split; [discriminate | now left].
    + rewrite jsstring_eqb_refl. split; [reflexivity|].
      split; [reflexivity | discriminate].
Qed.

Lemma start_themed c stored input label :
  themed label (start c stored input label).
Proof.
  unfold themed. cbn [start world]. rewrite boot_world. cbv zeta.
  destruct (prefers_dark stored) eqn:E;
    cbn [theme_dark btnTheme_textContent localStorage_theme with_theme];
    rewrite E; split; try reflexivity; split; try discriminate; auto.
Qed.

Lemma step_theme_dark p e :
  theme_dark (world (step p e))
  = xorb (theme_dark (world p)) (is_toggle e).
Proof.
  destruct (step_world p e) as [ns ->].
  destruct e as [text| |o|]; cbn [is_toggle].
  - now rewrite xorb_false_r.
  - rewrite xorb_false_r. now destruct (accepts (world p)).
  - rewrite xorb_false_r. now destruct (in_flight p).
  - cbn [theme_dark with_theme]. now destruct (theme_dark (world p)).
Qed.

Lemma run_theme_dark trace : forall p,
  theme_dark (world (run p trace))
  = xorb (theme_dark (world p)) (Nat.odd (length (filter is_toggle trace))).
Proof.
  induction trace as [|e trace IH]; intros p.
  - cbn. now rewrite xorb_false_r.
  - rewrite run_cons, IH, step_theme_dark. cbn [filter].
    destruct (is_toggle e).
    + cbn [length]. rewrite Nat.odd_succ, <- Nat.negb_odd.
      now destruct (theme_dark (world p)), (Nat.odd _).
    + now rewrite xorb_false_r.
Qed.

(** X16. The theme.  The page starts dark exactly when the store holds
    ["dark"] under [theme]; every click on the button flips it, and no
    other event touches it.  At every moment the class on [body] and the
    stored preference agree, so loading the page again brings the same
    theme back; while the page is dark the button shows the sun, and after
    a click back to light the moon. *)
Theorem theme_follows_the_store c stored input label trace :
  let w := world (run (start c stored input label) trace) in
  theme_dark w
  = xorb (prefers_dark stored) (Nat.odd (length (filter is_toggle trace)))
  /\ theme_dark w = prefers_dark (localStorage_theme w)
  /\ (forall c' input' label',
        theme_dark (boot c' (localStorage_theme w) input' label') = theme_dark w)
  /\ (theme_dark w = true -> btnTheme_textContent w = sun)
  /\ (theme_dark w = false ->
      btnTheme_textContent w = moon \/ btnTheme_textContent w = label)
  /\ (let w' := snd (toggleTheme w) in
      theme_dark w' = negb (theme_dark w)
      /\ btnTheme_textContent w' = (if theme_dark w' then sun else moon)
      /\ localStorage_theme w'
         = Some (if theme_dark w' then lit "dark" else lit "light")
      /\ theme_dark (snd (toggleTheme w')) = theme_dark w).
Proof.
  intros w.
  assert (H : themed label (run (start c stored input label) trace)).
  { apply run_invariant; [apply step_themed | apply start_themed]. }
  unfold themed in H. fold w in H. cbv zeta in H. destruct H as (H1 & H2 & H3).
  split; [|split; [|split; [|split; [|split]]]].
  - unfold w. rewrite run_theme_dark. cbn [start world]. rewrite boot_world.
    cbv zeta. now destruct (prefers_dark stored).
  - exact H1.
  - intros c' input' label'. rewrite boot_world. cbv zeta. rewrite H1.
    now destruct (prefers_dark (localStorage_theme w)).
  - exact H2.
  - exact H3.
  - cbv zeta. cbn [toggleTheme]. repeat split.
    cbn. now destruct (theme_dark w).
Qed.

End Loop.

(** ** The transcript, for every trace *)

Section Turns.
Context {host : Host}.

Arguments liteMarkdown : simpl never.
Arguments trim : simpl never.
Arguments slice : simpl never.
Arguments lit : simpl never.

(** The answer the script picks is never falsy: the chain of [||] ends in
    a text that is not empty. *)
Lemma answer_truthy data : truthy (answer data) = true.
Proof.
  unfold answer, or_else.
  destruct (truthy (get_named data (lit "content"))) eqn:E1; [exact E1|].
  match goal with |- truthy (if truthy ?v then _ else _) = true =>
    destruct (truthy v) eqn:E2; [exact E2 | reflexivity] end.
Qed.

Lemma reply_truthy o : truthy (content (reply o)) = true.
Proof.
  destruct o as [|status [data|]]; try reflexivity.
  cbn [reply]. destruct (ok status); [apply answer_truthy | reflexivity].
Qed.

Lemma reply_role o : role (reply o) = assistant.
Proof.
  destruct o as [|status [data|]]; try reflexivity.
  cbn [reply]. destruct (ok status); reflexivity.
Qed.

Lemma user_turn_truthy w :
  accepts w = true -> truthy (content (user_turn w)) = true.
Proof.
  intros H. apply accepts_true in H as [H _]. unfold user_turn. cbn [content truthy].
  destruct (trim (elInput_value w)); [discriminate | reflexivity].
Qed.

Lemma alternates_app first ms m :
  alternates first (ms ++ [m])
  = (alternates first ms
     && role_eqb (role m) (if Nat.even (length ms) then first else other first))%bool.
Proof.
  revert first. induction ms as [|m0 ms IH]; intros first.
  - cbn. now rewrite andb_true_r.
  - cbn [alternates app length]. rewrite IH, Nat.even_succ, <- Nat.negb_even.
    rewrite andb_assoc. f_equal. f_equal.
    destruct (Nat.even (length ms)), first; reflexivity.
Qed.

Lemma alternates_nth first ms : forall i m,
  alternates first ms = true ->
  nth_error ms i = Some m ->
  role m = if Nat.even i then first else other first.
Proof.
  revert first. induction ms as [|m0 ms IH]; intros first i m H Hi.
  - destruct i; discriminate.
  - cbn [alternates] in H. apply andb_true_iff in H as [H0 H].
    destruct i as [|i].
    + injection Hi as <-. destruct (role m0), first; try discriminate; reflexivity.
    + cbn [nth_error] in Hi. rewrite (IH _ _ _ H Hi).
      rewrite Nat.even_succ, <- Nat.negb_even.
      destruct (Nat.even i), first; reflexivity.
Qed.

Lemma step_orderly p e : orderly p -> orderly (step p e).
Proof.
  intros (Ha & Ht & Hl & Hn). unfold orderly.
  rewrite step_state, step_in_flight.
  destruct e as [text| |o|]; try (repeat split; assumption).
  - (* submit *)
    destruct (accepts (world p)) eqn:E.
    + pose proof (user_turn_truthy _ E) as Hu.
      apply accepts_true in E as [_ El]. rewrite El in Hn, Hl.
      cbn [messages loading].
      rewrite alternates_app, Ha, forallb_app, Ht, <- Hl, length_app.
      cbn [forallb length role user_turn other role_eqb andb]. rewrite Hu.
      replace (length (messages (state (world p))) + 1)
        with (S (length (messages (state (world p))))) by lia.
      rewrite Nat.even_succ, <- Nat.negb_even, <- Hl.
      repeat split.
      destruct (in_flight p); [|simpl in Hn; lia].
      destruct (send (world p)) as [[[req|]|] w']; simpl; lia.
    + rewrite send_rejects by exact E. repeat split; assumption.
  - (* settle *)
    destruct (in_flight p) as [|req rest] eqn:Ef; [repeat split; assumption|].
    destruct (loading (state (world p))) eqn:El; [|simpl in Hn; lia].
    cbn [messages loading tl].
    rewrite alternates_app, Ha, forallb_app, Ht, <- Hl, length_app.
    cbn [forallb length andb]. rewrite reply_truthy, reply_role.
    replace (length (messages (state (world p))) + 1)
      with (S (length (messages (state (world p))))) by lia.
    rewrite Nat.even_succ, <- Nat.negb_even, <- Hl.
    repeat split. simpl in *. lia.
Qed.

Lemma start_orderly c stored input label : orderly (start c stored input label).
Proof.
  unfold orderly. cbn [start world in_flight].
  destruct (boot_state c stored input label) as [-> _].
  repeat split. simpl. lia.
Qed.

Lemma run_orderly c stored input label trace :
  orderly (run (start c stored input label) trace).
Proof. apply run_invariant; [apply step_orderly | apply start_orderly]. Qed.

(** X17. For every trace, with any responses: the transcript is the
    greeting followed by turns that alternate, user first; [loading] is
    true exactly when the last turn is the user's (the number of turns
    behind the greeting is odd); no turn is empty or otherwise falsy, so
    the [s || ""] of the formatter never replaces the content of a turn;
    and at most one exchange is under way, and none while [loading] is
    false. *)
Theorem turns_alternate_and_are_never_empty c stored input label trace :
  let p := run (start c stored input label) trace in
  exists rest,
    messages (state (world p)) = greeting :: rest
    /\ alternates user rest = true
    /\ loading (state (world p)) = Nat.odd (length rest)
    /\ (forall m, In m (messages (state (world p))) -> truthy (content m) = true)
    /\ length (in_flight p) <= (if loading (state (world p)) then 1 else 0)
    /\ (forall data, truthy (answer data) = true).
Proof.
  intros p.
  destruct (run_orderly c stored input label trace) as (Ha & Ht & Hl & Hn).
  fold p in Ha, Ht, Hl, Hn.
  destruct (run_appends trace (start c stored input label)) as [added E].
  fold p in E. cbn [start world] in E.
  destruct (boot_state c stored input label) as [Eb _]. rewrite Eb in E.
  cbn [messages initial_state app] in E.
  exists added. rewrite E in *. cbn [alternates length] in Ha, Hl.
  apply andb_true_iff in Ha as [_ Ha].
  split; [reflexivity|]. split; [exact Ha|].
  split; [now rewrite Hl, Nat.even_succ|].
  split; [|split; [exact Hn | apply answer_truthy]].
  intros m Hm. rewrite forallb_forall in Ht. now apply Ht.
Qed.

Lemma hd_error_skipn {A} (l : list A) k : hd_error (skipn k l) = nth_error l k.
Proof.
  revert l. induction k as [|k IH]; intros [|x l]; try reflexivity. apply IH.
Qed.

(** X18. The context a submit sends.  In a session whose responses carry
    text, the request of a submit that passes the guard is a POST to the
    configured address followed by [/v1/chat/completions], and its context
    ends with the turn just typed; while the history behind the greeting
    has at most 12 turns the context starts with the user's first turn,
    and once it has more the cut falls so that the context starts with an
    assistant turn: the user turn that answer replied to is no longer
    sent. *)
Theorem context_starts_with_an_answer_once_cut c stored input label trace :
  forallb conforming_event trace = true ->
  let p := run (start c stored input label) trace in
  accepts (world p) = true ->
  let history := tl (messages (state (world p)) ++ [user_turn (world p)]) in
  exists req w' first,
    send (world p) = (Ok (Some req), w')
    /\ body_messages req = skipn (length history - 12) history
    /\ last (body_messages req) greeting = user_turn (world p)
    /\ hd_error (body_messages req) = Some first
    /\ role first = (if length history <=? 12 then user else assistant)
    /\ Nat.odd (length history) = true
    /\ url req = API_BASE c ++ lit "/v1/chat/completions"
    /\ method req = lit "POST".
Proof.
  intros Hc p Ha history.
  assert (Hcfg : config (world p) = c).
  { unfold p. rewrite run_config. cbn [start world]. apply boot_state. }
  assert (Hs : in_sync p)
    by (apply run_in_sync; [exact Hc | apply start_in_sync]).
  destruct Hs as [Ht _].
  destruct (run_orderly c stored input label trace) as (Halt & _ & Hl & _).
  fold p in Halt, Hl.
  pose proof (send_accepts_text _ Ha Ht) as Hsend. cbv zeta in Hsend.
  set (w' := with_children _ _) in Hsend.
  assert (Hbody : body_messages (request_of w')
                  = skipn (length history - 12) history).
  { unfold request_of. cbn [body_messages].
    rewrite slice_from_1.
    rewrite (@slice_last _ _ 12) by lia. reflexivity. }
  assert (Hload : loading (state (world p)) = false)
    by (now apply accepts_true in Ha).
  rewrite Hload in Hl.
  destruct (messages (state (world p))) as [|g rest] eqn:Em; [discriminate|].
  cbn [alternates other] in Halt. apply andb_true_iff in Halt as [_ Halt].
  cbn [length] in Hl. rewrite Nat.even_succ in Hl.
  assert (Hh : history = rest ++ [user_turn (world p)]) by reflexivity.
  assert (Hlen : length history = S (length rest))
    by (rewrite Hh, length_app; simpl; lia).
  clearbody history.
  assert (Halt' : alternates user history = true).
  { rewrite Hh, alternates_app, Halt. cbn [andb other].
    rewrite <- Nat.negb_odd, <- Hl. reflexivity. }
  assert (Hodd : Nat.odd (length history) = true)
    by (now rewrite Hlen, Nat.odd_succ, <- Nat.negb_odd, <- Hl).
  destruct (nth_error history (length history - 12)) as [first|] eqn:Ef.
  2:{ apply nth_error_None in Ef. lia. }
  exists (request_of w'), w', first.
  split; [exact Hsend|]. split; [exact Hbody|].
  split; [|split; [|split; [|split; [exact Hodd|]]]].
  4:{ unfold request_of, w'. cbn [url method config with_children turn_pushed
                                  with_state with_counter with_input].
      now rewrite Hcfg. }
  - rewrite Hbody, Hh.
    assert (Hk : length (rest ++ [user_turn (world p)]) - 12 <= length rest)
      by (rewrite length_app; simpl; lia).
    rewrite skipn_app.
    replace (length (rest ++ [user_turn (world p)]) - 12 - length rest) with 0 by lia.
    cbn [skipn]. apply last_last.
  - now rewrite Hbody, hd_error_skipn.
  - rewrite (@alternates_nth _ _ _ _ Halt' Ef).
    destruct (Nat.leb_spec (length history) 12) as [Hle|Hgt].
    + replace (length history - 12) with 0 by lia. reflexivity.
    + cbn [other].
      assert (He : Nat.even (length history - 12) = false).
      { rewrite <- Nat.negb_odd.
        assert (Hodd' : Nat.odd (length history - 12 + 12) = true)
          by (now replace (length history - 12 + 12) with (length history) by lia).
        rewrite Nat.odd_add in Hodd'. change (Nat.odd 12) with false in Hodd'.
        rewrite xorb_false_r in Hodd'. now rewrite Hodd'. }
      now rewrite He.
Qed.

End Turns.

(** ** The limit and what is sent *)

Section Sent.
Context {host : Host}.

Arguments liteMarkdown : simpl never.
Arguments NumberToString : simpl never.
Arguments trim : simpl never.
Arguments slice : simpl never.
Arguments lit : simpl never.
Arguments num_gt : simpl never.

Lemma num_gt_shorter (a b : nat) limit :
  b <= a ->
  num_gt (num_of_nat a) limit = false -> num_gt (num_of_nat b) limit = false.
Proof.
  intros Hle. destruct limit as [|[|]|q]; try (intros H; exact H).
  rewrite !num_gt_fin, !Z.ltb_ge. nia.
Qed.

Lemma trim_length s : length (trim s) <= length s.
Proof.
  destruct (trim_spec s) as (pre & post & E & _).
  rewrite E at 2. rewrite !length_app. lia.
Qed.

Lemma step_bounded p e :
  num_gt (num_of_nat 0) (INPUT_LIMIT (config (world p))) = false ->
  bounded p -> bounded (step p e).
Proof.
  intros H0 [Hc Hb]. unfold bounded.
  split; [now apply step_counted|].
  rewrite step_config, step_state.
  destruct e as [text| |o|]; try exact Hb.
  - destruct (accepts (world p)); [|exact Hb].
    cbn [messages]. apply Forall_app. split; [exact Hb|].
    constructor; [|constructor]. intros _.
    exists (trim (elInput_value (world p))). split; [reflexivity|].
    apply (@num_gt_shorter (length (elInput_value (world p)))).
    + apply trim_length.
    + apply Hc, H0.
  - destruct (in_flight p); [exact Hb|].
    cbn [messages]. apply Forall_app. split; [exact Hb|].
    constructor; [|constructor]. intros Hr.
    rewrite reply_role in Hr. discriminate Hr.
Qed.

Lemma start_bounded c stored input label : bounded (start c stored input label).
Proof.
  split; [apply start_counted|].
  cbn [start world]. destruct (boot_state c stored input label) as [-> _].
  constructor; [|constructor]. intros Hr. discriminate Hr.
Qed.

(** X19. The limit bounds what is sent.  Under a limit that is not below
    zero, whatever the user types and whatever the service answers, every
    user turn of the transcript, hence every user turn of every request,
    is text no longer than the limit: the box is cut as it is typed into,
    and trimming only shortens. *)
Theorem no_user_turn_exceeds_the_limit c stored input label trace :
  num_gt (num_of_nat 0) (INPUT_LIMIT c) = false ->
  let p := run (start c stored input label) trace in
  (forall m, In m (messages (state (world p))) -> role m = user ->
     exists text, content m = VStr text
                  /\ num_gt (num_of_nat (length text)) (INPUT_LIMIT c) = false)
  /\ (forall s, length (trim s) <= length s).
Proof.
  intros H0 p. split; [|apply trim_length].
  assert (H : config (world p) = c /\ bounded p).
  { unfold p. clear p. revert H0.
    generalize (start_bounded c stored input label).
    assert (Hc : config (world (start c stored input label)) = c)
      by (cbn [start world]; apply boot_state).
    revert Hc. generalize (start c stored input label) as q.
    induction trace as [|e trace IH]; intros q Hc Hb H0; [now split|].
    rewrite run_cons. apply IH.
    - now rewrite step_config.
    - apply step_bounded; [now rewrite Hc | exact Hb].
    - exact H0. }
  destruct H as [Hc [_ Hb]]. rewrite Hc in Hb.
  rewrite Forall_forall in Hb. intros m Hm Hr. exact (Hb m Hm Hr).
Qed.

End Sent.

(** ** What is on the page *)

Section Page.
Context {host : Host}.

Arguments liteMarkdown : simpl never.
Arguments trim : simpl never.
Arguments slice : simpl never.
Arguments lit : simpl never.

Lemma step_shown p e : conforming_event e = true -> shown p -> shown (step p e).
Proof.
  intros Hc [Ht Hv]. unfold shown. destruct e as [text| |o|].
  - rewrite input_world. split; assumption.
  - rewrite submit_world. destruct (accepts (world p)) eqn:Ea.
    + rewrite (send_accepts_text _ Ea Ht). cbn [snd].
      cbn [state elMessages with_children turn_pushed with_state messages loading].
      split; [|reflexivity].
      rewrite text_only_app, Ht. reflexivity.
    + rewrite send_rejects by exact Ea. split; assumption.
  - unfold step. destruct (in_flight p) as [|req rest]; [split; assumption|].
    cbn [world]. rewrite send_settle_eq.
    assert (Ht' : text_only (messages (state (settled o (world p)))) = true).
    { cbn [settled state with_state messages]. rewrite text_only_app, Ht.
      cbn [text_only forallb andb]. simpl in Hc. now rewrite (reply_text _ Hc). }
    rewrite (render_text _ Ht'). cbn [snd state elMessages with_children].
    split; [exact Ht' | reflexivity].
  - split; assumption.
Qed.

Lemma start_shown c stored input label : shown (start c stored input label).
Proof.
  unfold shown. cbn [start world]. rewrite boot_world. cbv zeta.
  destruct (prefers_dark stored); split; reflexivity.
Qed.

Lemma run_shown trace :
  forall p, forallb conforming_event trace = true -> shown p -> shown (run p trace).
Proof.
  induction trace as [|e trace IH]; intros p Hc Hp; [exact Hp|].
  simpl in Hc. apply andb_true_iff in Hc as [He Hc].
  rewrite run_cons. apply IH; [exact Hc|]. now apply step_shown.
Qed.

(** X20. In a session whose responses carry text, what is under
    [#messages] is at every moment the rendering of the transcript: one
    bubble per turn, in order, and the typing indicator last exactly while
    an exchange is under way.  No event leaves the page behind the
    state. *)
Theorem page_always_shows_the_transcript c stored input label trace :
  forallb conforming_event trace = true ->
  let w := world (run (start c stored input label) trace) in
  let ms := messages (state w) in
  elMessages w = bubbles ms ++ (if loading (state w) then [typing_indicator] else [])
  /\ length (bubbles ms) = length ms
  /\ (forall i m, nth_error ms i = Some m ->
        exists html, liteMarkdown (content m) = Some html
                     /\ nth_error (elMessages w) i = Some (bubble (role m) html))
  /\ (In typing_indicator (elMessages w) <-> loading (state w) = true).
Proof.
  intros Hc w ms.
  destruct (@run_shown trace (start c stored input label) Hc
              (start_shown c stored input label)) as [Ht Hv].
  fold w in Ht, Hv. fold ms in Ht, Hv.
  assert (Hf : all_formattable ms = true).
  { unfold all_formattable, formattable. unfold text_only in Ht.
    rewrite forallb_forall in *. intros m Hm. now rewrite (Ht m Hm). }
  split; [exact Hv|]. split; [now apply bubbles_formattable_length|]. split.
  - intros i m Hi. destruct (bubbles_nth _ Hf _ Hi) as (html & Hh & Hn).
    exists html. split; [exact Hh|]. rewrite Hv.
    rewrite nth_error_app1; [exact Hn|].
    apply nth_error_Some. now rewrite Hn.
  - rewrite Hv, in_app_iff. split.
    + intros [H|H].
      * unfold bubbles in H. rewrite in_flat_map in H.
        destruct H as (m & _ & Hm).
        destruct (liteMarkdown (content m)); [|destruct Hm].
        destruct Hm as [Hm|[]]. discriminate Hm.
      * destruct (loading (state w)); [reflexivity | destruct H].
    + intros ->. right. now left.
Qed.

(** *** A turn that cannot be formatted *)

Lemma first_unformattable ms :
  all_formattable ms = false ->
  exists good bad later,
    ms = good ++ bad :: later
    /\ all_formattable good = true
    /\ formattable (content bad) = false.
Proof.
  induction ms as [|m ms IH]; [discriminate|].
  cbn [all_formattable forallb]. destruct (formattable (content m)) eqn:Em.
  - cbn [andb]. intros H. destruct (IH H) as (good & bad & later & -> & Hg & Hb).
    exists (m :: good), bad, later. split; [reflexivity|].
    split; [|exact Hb]. cbn [all_formattable forallb]. now rewrite Em.
  - intros _. exists [], m, ms. now split.
Qed.

Lemma all_formattable_app ms ms' :
  all_formattable (ms ++ ms') = (all_formattable ms && all_formattable ms')%bool.
Proof. apply forallb_app. Qed.

Lemma render_raises w :
  all_formattable (messages (state w)) = false ->
  exists ns, render w = (Throw, with_children w ns).
Proof.
  intros H. destruct (first_unformattable _ H) as (good & bad & later & E & Hg & Hb).
  exists (bubbles good). now apply (render_first_bad _ _ _ _ E).
Qed.

Lemma step_stuck p e :
  stuck p ->
  stuck (step p e) /\ state (world (step p e)) = state (world p).
Proof.
  intros [Hl Hn]. unfold stuck. rewrite step_state, step_in_flight.
  assert (Ha : accepts (world p) = false)
    by (unfold accepts; rewrite Hl; apply andb_false_r).
  destruct e as [text| |o|]; try (repeat split; assumption).
  - rewrite Ha, (send_rejects _ Ha). repeat split; assumption.
  - rewrite Hn. repeat split; assumption.
Qed.

Lemma run_stuck trace : forall p,
  stuck p ->
  stuck (run p trace) /\ state (world (run p trace)) = state (world p).
Proof.
  induction trace as [|e trace IH]; intros p Hp; [now split|].
  rewrite run_cons. destruct (step_stuck e Hp) as [Hs He].
  destruct (IH _ Hs) as [Hs' He']. split; [exact Hs'|]. now rewrite He'.
Qed.

(** X21. An answer that is not a string wedges the widget.  A 2xx response
    whose answer is a truthy value of another type is stored as a turn all
    the same, and [loading] falls; but [render] raises on that turn, so the
    next submit that passes the guard stores its turn, raises [loading] and
    stops before [fetch]: no request leaves, nothing will ever lower
    [loading] again, and from then on every submit is ignored, whatever
    the events that follow. *)
Theorem answer_that_is_not_text_wedges_the_widget :
  (forall p o,
      in_flight p <> [] -> conforming o = false ->
      let p1 := step p (Settle o) in
      all_formattable (messages (state (world p1))) = false
      /\ loading (state (world p1)) = false
      /\ in_flight p1 = tl (in_flight p))
  /\ (forall p,
      all_formattable (messages (state (world p))) = false ->
      accepts (world p) = true ->
      in_flight p = [] ->
      let p2 := step p Submit in
      fst (send (world p)) = Throw
      /\ messages (state (world p2))
         = messages (state (world p)) ++ [user_turn (world p)]
      /\ loading (state (world p2)) = true
      /\ in_flight p2 = []
      /\ forall trace,
           in_flight (run p2 trace) = []
           /\ state (world (run p2 trace)) = state (world p2)
           /\ accepts (world (run p2 trace)) = false).
Proof.
  split.
  - intros p o Hn Hc p1. unfold p1. rewrite step_state, step_in_flight.
    destruct (in_flight p) as [|req rest]; [contradiction|].
    cbn [messages loading tl]. split; [|now split].
    rewrite all_formattable_app. apply andb_false_intro2.
    cbn [all_formattable forallb]. rewrite andb_true_r.
    unfold formattable. rewrite reply_truthy. cbn [negb]. rewrite orb_false_r.
    destruct o as [|status [data|]]; try discriminate.
    cbn [conforming reply] in *. destruct (ok status); [|discriminate].
    exact Hc.
  - intros p Hf Ha Hn p2.
    assert (Hf' : all_formattable (messages (state (turn_pushed (world p)))) = false).
    { cbn [turn_pushed state with_state messages].
      rewrite all_formattable_app, Hf. reflexivity. }
    destruct (render_raises _ Hf') as [ns Hr].
    assert (Hsend : send (world p) = (Throw, with_children (turn_pushed (world p)) ns))
      by (now rewrite send_accepts, Hr).
    assert (Hs : stuck p2).
    { unfold stuck, p2. rewrite step_state, step_in_flight, Ha, Hsend. now split. }
    split; [now rewrite Hsend|].
    split; [unfold p2; now rewrite step_state, Ha|].
    split; [apply Hs|]. split; [apply Hs|].
    intros trace. destruct (run_stuck trace Hs) as [[Hl Hi] He].
    split; [exact Hi|]. split; [exact He|].
    unfold accepts. rewrite Hl. apply andb_false_r.
Qed.

End Page.

(** ** A submit and its request *)

Section Request.
Context {host : Host}.

Arguments liteMarkdown : simpl never.
Arguments NumberToString : simpl never.
Arguments trim : simpl never.
Arguments slice : simpl never.
Arguments lit : simpl never.
Arguments num_gt : simpl never.

Lemma render_formattable w :
  all_formattable (messages (state w)) = true ->
  render w
  = (Ok tt, with_children w (bubbles (messages (state w))
                             ++ if loading (state w) then [typing_indicator]
                                else [])).
Proof.
  intros H. rewrite render_unfold.
  rewrite <- (app_nil_r (messages (state w))) at 1.
  rewrite forEach_render_prefix by exact H.
  cbn [forEach ret elMessages with_children app].
  rewrite with_children_twice. cbn [state with_children].
  destruct (loading (state w)); cbn [when ret]; [reflexivity|].
  now rewrite app_nil_r.
Qed.

(** The turn [send] pushes is text, so it can be formatted whenever the
    turns before it can. *)
Lemma turn_pushed_formattable w :
  all_formattable (messages (state (turn_pushed w)))
  = all_formattable (messages (state w)).
Proof.
  cbn [turn_pushed state with_state messages]. rewrite all_formattable_app.
  cbn [all_formattable forallb user_turn content formattable is_text orb andb].
  apply andb_true_r.
Qed.

(** Past the guard [send] calls [fetch] if [render] returns, which it does
    exactly on a transcript it can format. *)
Lemma send_formattable w :
  accepts w = true ->
  all_formattable (messages (state w)) = true ->
  let w' := with_children (turn_pushed w)
              (bubbles (messages (state w) ++ [user_turn w])
               ++ [typing_indicator]) in
  send w = (Ok (Some (request_of w')), w').
Proof.
  intros Ha Hf. rewrite send_accepts by exact Ha.
  rewrite render_formattable by (now rewrite turn_pushed_formattable).
  reflexivity.
Qed.

Lemma send_raises w :
  accepts w = true ->
  all_formattable (messages (state w)) = false ->
  exists ns, send w = (Throw, with_children (turn_pushed w) ns).
Proof.
  intros Ha Hf. rewrite send_accepts by exact Ha.
  destruct (render_raises (turn_pushed w)) as [ns ->];
    [now rewrite turn_pushed_formattable|].
  now exists ns.
Qed.

(** C1. Whatever request a submit of valid text sends, its [messages] are
    the transcript without its first element (the greeting), cut down to
    its last 12 turns: all of them when there are at most 12, exactly the
    last 12 when there are more; and the page then shows one bubble for
    every turn of the transcript, which keeps them all.  The submit sends
    that request exactly when [render] can format every turn; the state
    keeps every turn either way. *)
Theorem send_body_is_last_12_of_history w :
  accepts w = true ->
  let history := tl (messages (state w) ++ [user_turn w]) in
  let w' := snd (send w) in
  messages (state w') = messages (state w) ++ [user_turn w]
  /\ ((exists req, fst (send w) = Ok (Some req))
      <-> all_formattable (messages (state w)) = true)
  /\ (forall req,
      fst (send w) = Ok (Some req) ->
      req = request_of w'
      /\ body_messages req = skipn (length history - 12) history
      /\ length (body_messages req) = Nat.min 12 (length history)
      /\ (12 < length history ->
          length (body_messages req) = 12
          /\ exists older, history = older ++ body_messages req
                           /\ length older = length history - 12)
      /\ elMessages w' = bubbles (messages (state w')) ++ [typing_indicator]
      /\ length (bubbles (messages (state w'))) = length (messages (state w'))).
Proof.
  intros Ha history w'.
  destruct (all_formattable (messages (state w))) eqn:Hf.
  - pose proof (send_formattable w Ha Hf) as Hs. cbv zeta in Hs.
    unfold w'. rewrite Hs. cbn [fst snd].
    split; [reflexivity|]. split; [split; eauto|].
    intros req [= <-]. split; [reflexivity|].
    cbn [state with_children turn_pushed with_state messages request_of
         body_messages elMessages].
    assert (Hbody : slice (slice (messages (state w) ++ [user_turn w])
                                 (num_of_Z 1) None) (num_of_Z (-12)) None
                    = skipn (length history - 12) history).
    { rewrite slice_from_1. change (-12)%Z with (- Z.of_nat 12)%Z.
      rewrite slice_last by lia. reflexivity. }
    rewrite Hbody.
    repeat split.
    + rewrite length_skipn. lia.
    + rewrite length_skipn. lia.
    + exists (firstn (length history - 12) history). split.
      * symmetry. apply firstn_skipn.
      * rewrite length_firstn. lia.
    + apply bubbles_formattable_length.
      rewrite <- (turn_pushed_formattable w) in Hf. exact Hf.
  - destruct (send_raises w Ha Hf) as [ns Hs].
    unfold w'. rewrite Hs. cbn [fst snd].
    split; [reflexivity|]. split.
    + split; [intros [req H]; discriminate H | discriminate].
    + intros req H. discriminate H.
Qed.

(** C4, and where the code leaves it.  A submit while [loading] is true,
    or with input that is empty once trimmed, changes nothing and sends
    nothing.  Any other submit stores its turn and raises [loading]; it
    sends one request, and only one, when [render] can format every turn,
    and none when it cannot: [render] is called before the [try] block, so
    its exception ends [send] before [fetch].  That happens in this
    session: "Hello" is answered by a 2xx response whose [content] is the
    number 42, "again" is typed and submitted; the guard lets the submit
    through and no request leaves. *)
Theorem submit_guard :
  (forall p, accepts (world p) = false <->
             loading (state (world p)) = true
             \/ trim (elInput_value (world p)) = [])
  /\ (forall p, accepts (world p) = false ->
                send (world p) = (Ok None, world p) /\ step p Submit = p)
  /\ (forall p,
      accepts (world p) = true ->
      all_formattable (messages (state (world p))) = true ->
      exists req w',
        send (world p) = (Ok (Some req), w')
        /\ step p Submit = {| world := w'; in_flight := in_flight p ++ [req] |})
  /\ (forall p,
      accepts (world p) = true ->
      all_formattable (messages (state (world p))) = false ->
      fst (send (world p)) = Throw
      /\ in_flight (step p Submit) = in_flight p
      /\ state (world (step p Submit))
         = {| messages := messages (state (world p)) ++ [user_turn (world p)];
              loading := true |})
  /\ (let odd := Responded 200 (Some (VObj [(lit "content", VNum (num_of_Z 42))])) in
      let p := run fresh_page [Input (lit "Hello"); Submit; Settle odd;
                               Input (lit "again")] in
      accepts (world p) = true
      /\ trim (elInput_value (world p)) = lit "again"
      /\ loading (state (world p)) = false
      /\ in_flight p = []
      /\ fst (send (world p)) = Throw
      /\ in_flight (step p Submit) = []).
Proof.
  split; [|split; [|split; [|split]]].
  - intros p. unfold accepts. destruct (loading (state (world p)));
      destruct (trim (elInput_value (world p))); simpl; split; auto;
      intros [H|H]; discriminate.
  - intros p H. split; [now apply send_rejects|].
    unfold step. rewrite send_rejects by exact H. now destruct p.
  - intros p Ha Hf. eexists. eexists.
    split; [apply (send_formattable _ Ha Hf)|].
    unfold step. rewrite (send_formattable _ Ha Hf). reflexivity.
  - intros p Ha Hf. destruct (send_raises _ Ha Hf) as [ns Hs].
    split; [now rewrite Hs|]. split.
    + unfold step. now rewrite Hs.
    + now rewrite step_state, Ha.
  - cbv zeta. repeat split; vm_compute; reflexivity.
Qed.

(** C8, and where the code leaves it.  [loading] goes from false to true
    only at a submit that passes the guard, and from true to false only
    when an exchange settles.  In every state a session reaches there is
    at most one exchange under way, and none while [loading] is false.
    While the answers are text, [loading] is true exactly when one exchange
    is under way.  After a 2xx response whose [content] is the number 42
    that is no longer so: the next submit raises [loading], [render] raises
    before [fetch], and from then on [loading] is true with no exchange
    under way, whatever follows. *)
Theorem loading_tracks_the_exchange :
  (forall p e,
      loading (state (world p)) = false ->
      loading (state (world (step p e))) = true ->
      e = Submit /\ accepts (world p) = true)
  /\ (forall p e,
      loading (state (world p)) = true ->
      loading (state (world (step p e))) = false ->
      exists o, e = Settle o /\ in_flight p <> [])
  /\ (forall c stored input label trace,
      let p := run (start c stored input label) trace in
      length (in_flight p) <= (if loading (state (world p)) then 1 else 0))
  /\ (forall c stored input label trace,
      forallb conforming_event trace = true ->
      let p := run (start c stored input label) trace in
      (loading (state (world p)) = true <-> exists req, in_flight p = [req])
      /\ (loading (state (world p)) = false <-> in_flight p = []))
  /\ (let odd := Responded 200 (Some (VObj [(lit "content", VNum (num_of_Z 42))])) in
      let p := run fresh_page [Input (lit "Hello"); Submit; Settle odd;
                               Input (lit "again"); Submit] in
      conforming odd = false
      /\ forall later,
           loading (state (world (run p later))) = true
           /\ in_flight (run p later) = []).
Proof.
  split; [|split; [|split; [|split]]].
  - intros p e H0 H1. rewrite step_state in H1.
    destruct e as [text| |o|]; try congruence.
    + destruct (accepts (world p)); [split; reflexivity | congruence].
    + destruct (in_flight p); [congruence | discriminate].
  - intros p e H1 H0. rewrite step_state in H0.
    destruct e as [text| |o|]; try congruence.
    + destruct (accepts (world p)); [discriminate | congruence].
    + exists o. split; [reflexivity|].
      destruct (in_flight p); [congruence | discriminate].
  - intros c stored input label trace p.
    apply (run_orderly c stored input label trace).
  - intros c stored input label trace Hc p.
    assert (Hs : in_sync p)
      by (apply run_in_sync; [exact Hc | apply start_in_sync]).
    destruct Hs as [_ Hn].
    destruct (loading (state (world p))), (in_flight p) as [|req [|req' rest]];
      simpl in Hn; try discriminate; repeat split;
      try discriminate; eauto.
    intros [r' H]. discriminate.
  - cbv zeta. split; [reflexivity|]. intros later.
    match goal with |- context [run ?q later] =>
      assert (Hs : stuck q) by (split; vm_compute; reflexivity);
      destruct (run_stuck later Hs) as [[Hl Hn] _] end.
    split; assumption.
Qed.

End Request.

(** ** The keyboard *)

Section Keyboard.
Context {host : Host}.

Lemma jsstring_eqb_eq a b : jsstring_eqb a b = true -> a = b.
Proof. unfold jsstring_eqb. now destruct (list_eq_dec N.eq_dec a b). Qed.

Lemma keydown_eq e p :
  keydown e p = (plain_enter e, if plain_enter e then step p Submit else p).
Proof.
  unfold keydown, plain_enter.
  destruct (isComposing e); [reflexivity|]. cbn [negb andb].
  destruct (jsstring_eqb (key e) (lit "Enter") && negb (shiftKey e))%bool;
    reflexivity.
Qed.

Lemma react_events g p : react p g = run p (events_of g).
Proof.
  destruct g as [text|e| | |o]; try reflexivity.
  cbn [react events_of]. rewrite keydown_eq. cbn [snd].
  destruct (plain_enter e); reflexivity.
Qed.

Lemma submit_rejected p : accepts (world p) = false -> step p Submit = p.
Proof.
  intros H. unfold step. rewrite send_rejects by exact H. now destruct p.
Qed.

(** X22. The keyboard.  A key sends exactly when it is Enter, without
    Shift, outside an IME composition: then the line break is kept out of
    the box and the listener does what a click on the send button does,
    guard included (so Enter while an exchange is under way, or on a blank
    box, changes nothing).  Every other key, Shift+Enter, and every key
    during a composition leave the page as it is and the key to the
    browser.  A session driven by keys and clicks is a trace of the event
    loop, so what holds for every trace holds for it. *)
Theorem keydown_sends_on_plain_enter_only :
  (forall e p,
      keydown e p = (plain_enter e, if plain_enter e then step p Submit else p))
  /\ (forall e, plain_enter e = true <->
                key e = lit "Enter" /\ shiftKey e = false /\ isComposing e = false)
  /\ (forall e p,
      length (in_flight p) < length (in_flight (snd (keydown e p))) ->
      key e = lit "Enter" /\ shiftKey e = false /\ isComposing e = false
      /\ accepts (world p) = true)
  /\ (forall e p, accepts (world p) = false -> snd (keydown e p) = p)
  /\ (forall p, react p ClickSend
                = snd (keydown {| isComposing := false; key := lit "Enter";
                                  shiftKey := false |} p))
  /\ (forall gestures p,
      fold_left react gestures p = run p (flat_map events_of gestures)).
Proof.
  assert (Hplain : forall e, plain_enter e = true <->
                     key e = lit "Enter" /\ shiftKey e = false
                     /\ isComposing e = false).
  { intros e. unfold plain_enter. split.
    - intros H. apply andb_true_iff in H as [H Hs].
      apply andb_true_iff in H as [Hc Hk].
      apply jsstring_eqb_eq in Hk. apply negb_true_iff in Hs, Hc. now split.
    - intros (-> & -> & ->). reflexivity. }
  split; [apply keydown_eq|]. split; [exact Hplain|].
  split; [|split; [|split]].
  - intros e p. rewrite keydown_eq. cbn [snd].
    destruct (plain_enter e) eqn:E; [|lia].
    intros Hlt. apply Hplain in E as (Hk & Hs & Hc).
    repeat split; try assumption.
    destruct (accepts (world p)) eqn:Ea; [reflexivity|].
    rewrite submit_rejected in Hlt by exact Ea. lia.
  - intros e p Ha. rewrite keydown_eq. cbn [snd].
    destruct (plain_enter e); [now apply submit_rejected | reflexivity].
  - intros p. reflexivity.
  - intros gestures. induction gestures as [|g gestures IH]; intros p.
    + reflexivity.
    + cbn [fold_left flat_map]. rewrite IH, react_events, run_app. reflexivity.
Qed.

End Keyboard.

(** * These statements at work on concrete inputs *)

Lemma escapeHTML_is_injective_witness :
  escapeHTML (VStr (lit "a<b")) = escapeHTML (VStr ([97%N] ++ lit "<b"))
  /\ lit "a<b" = [97%N] ++ lit "<b".
Proof.
  assert (H : escapeHTML (VStr (lit "a<b"))
              = escapeHTML (VStr ([97%N] ++ lit "<b"))) by reflexivity.
  split; [exact H|].
  exact (escapeHTML_is_injective (lit "a<b") ([97%N] ++ lit "<b") H).
Defined.

Lemma rendering_raises_on_truthy_non_strings_witness :
  let v := VNum (num_of_Z 42) in
  (truthy v = true /\ is_text v = false)
  /\ liteMarkdown v = None
  /\ truthy VNull = false
  /\ liteMarkdown VNull = Some [].
Proof.
  intros v.
  assert (H : truthy v = true /\ is_text v = false) by (split; reflexivity).
  split; [exact H|]. split.
  - exact (proj2 (proj1 (proj2 (rendering_raises_on_truthy_non_strings v))) H).
  - split; [reflexivity|].
    exact (proj2 (proj2 (proj2 (rendering_raises_on_truthy_non_strings VNull))
                    eq_refl)).
Defined.

Lemma bold_pattern_takes_the_shortest_span_witness :
  let s := lit "**a*b** c **d**" in
  exec bold_re true s = Some ([(1, lit "a*b")], lit " c **d**")
  /\ s = stars ++ lit "a*b" ++ stars ++ lit " c **d**"
  /\ single_line (lit "a*b") = true.
Proof.
  intros s.
  assert (E : exec bold_re true s = Some ([(1, lit "a*b")], lit " c **d**"))
    by (vm_compute; reflexivity).
  split; [exact E|].
  destruct (proj1 (bold_pattern_takes_the_shortest_span true s) _ _ E)
    as (Es & _ & Hsl & _).
  split; [exact Es | exact Hsl].
Defined.

Lemma bullet_pattern_and_its_white_space_witness :
  let gap := [Ch.newline; Ch.space; Ch.newline; Ch.space] in
  is_marker Ch.dash = true
  /\ forallb is_space gap = true
  /\ replace bullet_re bulleted true (Ch.dash :: gap ++ lit "x" ++ [])
     = [Ch.bullet; Ch.space] ++ lit "x" ++ replace bullet_re bulleted false [].
Proof.
  intros gap.
  assert (Hm : is_marker Ch.dash = true) by reflexivity.
  assert (Hg : forallb is_space gap = true) by reflexivity.
  split; [exact Hm|]. split; [exact Hg|].
  assert (Hne : gap <> []) by discriminate.
  assert (Hc : is_space 120%N = false) by reflexivity.
  assert (Ht : single_line [120%N] = true) by reflexivity.
  assert (HR : at_line_end [] = true) by reflexivity.
  exact (proj1 (proj2 bullet_pattern_and_its_white_space)
           Ch.dash gap 120%N [] [] Hm Hne Hg Hc Ht HR).
Defined.

Lemma liteMarkdown_writes_nothing_but_its_own_tags_witness :
  let v := VStr (lit "<script>**x**") in
  liteMarkdown v = Some (lit "&lt;script&gt;<strong>x</strong>")
  /\ markup (lit "&lt;script&gt;<strong>x</strong>").
Proof.
  intros v.
  assert (E : liteMarkdown v = Some (lit "&lt;script&gt;<strong>x</strong>"))
    by (vm_compute; reflexivity).
  split; [exact E|].
  exact (proj1 (proj2 liteMarkdown_writes_nothing_but_its_own_tags) v _ E).
Defined.

Lemma plain_text_is_shown_as_it_is_witness :
  forallb plain (lit "Hello, world!") = true
  /\ liteMarkdown (VStr (lit "Hello, world!")) = Some (lit "Hello, world!").
Proof.
  assert (H : forallb plain (lit "Hello, world!") = true) by reflexivity.
  split; [exact H|].
  exact (proj2 (plain_text_is_shown_as_it_is (lit "Hello, world!") H)).
Defined.

Lemma render_shows_every_turn_in_order_witness :
  let w := world hello_sent in
  all_formattable (messages (state w)) = true
  /\ length (bubbles (messages (state w))) = 2
  /\ fst (render w) = Ok tt.
Proof.
  intros w.
  assert (H : all_formattable (messages (state w)) = true)
    by (vm_compute; reflexivity).
  split; [exact H|].
  destruct (render_shows_every_turn_in_order w H) as (Hr & Hl & _).
  split.
  - rewrite Hl. vm_compute. reflexivity.
  - rewrite Hr. reflexivity.
Defined.

Lemma render_stops_at_the_first_turn_it_cannot_format_witness :
  let bad := {| role := assistant; content := VNum (num_of_Z 42) |} in
  let w := with_state (world fresh_page)
             {| messages := [greeting; bad; greeting]; loading := true |} in
  formattable (content bad) = false
  /\ render w = (Throw, with_children w (bubbles [greeting]))
  /\ length (bubbles [greeting]) = 1.
Proof.
  intros bad w.
  assert (Hb : formattable (content bad) = false) by reflexivity.
  split; [exact Hb|].
  destruct (render_stops_at_the_first_turn_it_cannot_format
              w [greeting] bad [greeting] eq_refl eq_refl Hb) as (Hr & Hl & _).
  split; [exact Hr | exact Hl].
Defined.

Lemma updateCounter_settles_unless_the_limit_is_negative_witness :
  let w := with_input (world fresh_page) (repeat 97%N 400) in
  num_gt (num_of_nat 0) (INPUT_LIMIT (config w)) = false
  /\ updateCounter (host := decimal_host) (snd (updateCounter (host := decimal_host) w))
     = updateCounter (host := decimal_host) w.
Proof.
  intros w.
  assert (H0 : num_gt (num_of_nat 0) (INPUT_LIMIT (config w)) = false)
    by (vm_compute; reflexivity).
  split; [exact H0|].
  exact (proj1 (@updateCounter_settles_unless_the_limit_is_negative
                  decimal_host w) H0).
Defined.

Lemma api_base_is_trimmed_witness :
  let v := VStr (lit "  http://api.test ") in
  api_base_of v = Some (lit "http://api.test")
  /\ trim (lit "http://api.test") = lit "http://api.test"
  /\ truthy VNull = false
  /\ api_base_of VNull = Some [].
Proof.
  intros v.
  assert (E : api_base_of v = Some (lit "http://api.test"))
    by (vm_compute; reflexivity).
  split; [exact E|]. split.
  - exact (proj1 (proj1 (proj2 (proj2 (@api_base_is_trimmed decimal_host v)))
                    _ E)).
  - split; [reflexivity|].
    exact (proj1 (proj2 (@api_base_is_trimmed decimal_host VNull)) eq_refl).
Defined.

Lemma send_takes_the_text_between_the_blanks_witness :
  let w := with_input (world fresh_page) (lit "  Hello there ") in
  accepts w = true
  /\ (exists pre text post,
        elInput_value w = pre ++ text ++ post
        /\ text <> []
        /\ messages (state (snd (send (host := decimal_host) w)))
           = messages (state w) ++ [{| role := user; content := VStr text |}])
  /\ accepts (world hello_sent) = false
  /\ send (host := decimal_host) (world hello_sent) = (Ok None, world hello_sent).
Proof.
  intros w.
  assert (Ha : accepts w = true) by (vm_compute; reflexivity).
  assert (Hr : accepts (world hello_sent) = false) by (vm_compute; reflexivity).
  split; [exact Ha|]. split.
  - destruct (proj2 (proj2 (@send_takes_the_text_between_the_blanks
                              decimal_host w)) Ha)
      as (pre & text & post & E & _ & _ & Hne & _ & _ & Hm & _).
    exists pre, text, post. split; [exact E|]. split; [exact Hne | exact Hm].
  - split; [exact Hr|].
    exact (proj1 (proj2 (@send_takes_the_text_between_the_blanks
                           decimal_host (world hello_sent))) Hr).
Defined.

Lemma answer_reads_two_places_and_never_raises_witness :
  let message := VObj [(lit "role", VStr (lit "assistant"));
                       (lit "content", VStr (lit "Hi"))] in
  let first := VObj [(lit "index", VNum (num_of_Z 0)); (lit "message", message)] in
  let props := [(lit "id", VStr (lit "x")); (lit "choices", VArr [first])] in
  truthy (own_property (lit "content") props) = false
  /\ answer (VObj props) = VStr (lit "Hi")
  /\ answer (VArr [VStr (lit "Hi")]) = VStr empty_notice.
Proof.
  intros message first props.
  assert (H : truthy (own_property (lit "content") props) = false) by reflexivity.
  split; [exact H|]. split.
  - rewrite (proj1 (proj2 (proj2 answer_reads_two_places_and_never_raises))
               props first [] H eq_refl).
    reflexivity.
  - apply (proj1 answer_reads_two_places_and_never_raises).
    intros props' E. discriminate E.
Defined.

Lemma counter_always_shows_the_input_witness :
  let trace := [Input (lit "Hello"); ToggleTheme] in
  let w := world (run (host := decimal_host)
                    (start (host := decimal_host) default_config None [] moon)
                    trace) in
  num_gt (num_of_nat 0) (INPUT_LIMIT default_config) = false
  /\ num_gt (num_of_nat (length (elInput_value w))) (INPUT_LIMIT default_config)
     = false
  /\ accepts w = true
  /\ elInput_value (snd (send (host := decimal_host) w)) = [].
Proof.
  intros trace w.
  assert (H0 : num_gt (num_of_nat 0) (INPUT_LIMIT default_config) = false)
    by (vm_compute; reflexivity).
  assert (Ha : accepts w = true) by (vm_compute; reflexivity).
  destruct (@counter_always_shows_the_input decimal_host default_config None
              [] moon trace) as (_ & Hl & Hs).
  split; [exact H0|]. split; [exact (Hl H0)|]. split; [exact Ha|].
  exact (proj1 (Hs Ha)).
Defined.

Lemma theme_follows_the_store_witness :
  let trace := [ToggleTheme; Input (lit "x")] in
  let w := world (run (host := decimal_host)
                    (start (host := decimal_host) default_config
                       (Some (lit "dark")) [] (lit "Theme"))
                    trace) in
  theme_dark w = false
  /\ (btnTheme_textContent w = moon \/ btnTheme_textContent w = lit "Theme")
  /\ localStorage_theme w = Some (lit "light").
Proof.
  intros trace w.
  assert (Hd : theme_dark w = false) by (vm_compute; reflexivity).
  split; [exact Hd|].
  destruct (@theme_follows_the_store decimal_host default_config
              (Some (lit "dark")) [] (lit "Theme") trace)
    as (_ & _ & _ & _ & Hm & _).
  split; [exact (Hm Hd)|]. vm_compute. reflexivity.
Defined.

Lemma turns_alternate_and_are_never_empty_witness :
  let trace := [Input (lit "Hello"); Submit] in
  let p := run (host := decimal_host)
             (start (host := decimal_host) default_config None [] moon) trace in
  let m := {| role := user; content := VStr (lit "Hello") |} in
  In m (messages (state (world p)))
  /\ truthy (content m) = true
  /\ length (in_flight p) <= 1.
Proof.
  intros trace p m.
  assert (Hin : In m (messages (state (world p)))) by (vm_compute; auto).
  split; [exact Hin|].
  destruct (@turns_alternate_and_are_never_empty decimal_host default_config
              None [] moon trace) as (rest & _ & _ & _ & Ht & Hn & _).
  split; [exact (Ht m Hin)|].
  fold p in Hn. destruct (loading (state (world p))); lia.
Defined.

Lemma context_starts_with_an_answer_once_cut_witness :
  let fine := Responded 200 (Some (VObj [(lit "content", VStr (lit "ok"))])) in
  let trace := flat_map (fun _ => [Input (lit "hi"); Submit; Settle fine])
                 (seq 0 7)
               ++ [Input (lit "Hello")] in
  let p := run (host := decimal_host)
             (start (host := decimal_host) default_config None [] moon) trace in
  forallb conforming_event trace = true
  /\ accepts (world p) = true
  /\ exists req w' first,
       send (host := decimal_host) (world p) = (Ok (Some req), w')
       /\ length (body_messages req) = 12
       /\ hd_error (body_messages req) = Some first
       /\ role first = assistant.
Proof.
  intros fine trace p.
  assert (Hc : forallb conforming_event trace = true) by (vm_compute; reflexivity).
  assert (Ha : accepts (world p) = true) by (vm_compute; reflexivity).
  split; [exact Hc|]. split; [exact Ha|].
  destruct (@context_starts_with_an_answer_once_cut decimal_host default_config
              None [] moon trace Hc Ha)
    as (req & w' & first & Hs & Hb & _ & Hh & Hr & _).
  exists req, w', first. split; [exact Hs|]. split; [|split; [exact Hh|]].
  - rewrite Hb. vm_compute. reflexivity.
  - rewrite Hr. vm_compute. reflexivity.
Defined.

Lemma no_user_turn_exceeds_the_limit_witness :
  let trace := [Input (repeat 97%N 400); Submit] in
  let p := run (host := decimal_host)
             (start (host := decimal_host) default_config None [] moon) trace in
  num_gt (num_of_nat 0) (INPUT_LIMIT default_config) = false
  /\ In {| role := user; content := VStr (repeat 97%N 350) |}
        (messages (state (world p)))
  /\ exists text,
       VStr (repeat 97%N 350) = VStr text
       /\ num_gt (num_of_nat (length text)) (INPUT_LIMIT default_config) = false.
Proof.
  intros trace p.
  assert (H0 : num_gt (num_of_nat 0) (INPUT_LIMIT default_config) = false)
    by (vm_compute; reflexivity).
  assert (Hin : In {| role := user; content := VStr (repeat 97%N 350) |}
                   (messages (state (world p)))) by (vm_compute; auto).
  split; [exact H0|]. split; [exact Hin|].
  exact (proj1 (@no_user_turn_exceeds_the_limit decimal_host default_config
                  None [] moon trace H0) _ Hin eq_refl).
Defined.

Lemma page_always_shows_the_transcript_witness :
  let fine := Responded 200 (Some (VObj [(lit "content", VStr (lit "ok"))])) in
  let trace := [Input (lit "Hello"); Submit; Settle fine;
                Input (lit "again"); Submit] in
  let w := world (run (host := decimal_host)
                    (start (host := decimal_host) default_config None [] moon)
                    trace) in
  forallb conforming_event trace = true
  /\ length (elMessages w) = 5
  /\ In typing_indicator (elMessages w).
Proof.
  intros fine trace w.
  assert (Hc : forallb conforming_event trace = true) by (vm_compute; reflexivity).
  split; [exact Hc|].
  destruct (@page_always_shows_the_transcript decimal_host default_config
              None [] moon trace Hc) as (Hv & Hl & _ & Ht).
  fold w in Hv, Hl, Ht. split.
  - rewrite Hv, length_app, Hl. vm_compute. reflexivity.
  - apply Ht. vm_compute. reflexivity.
Defined.

Lemma answer_that_is_not_text_wedges_the_widget_witness :
  let odd := Responded 200 (Some (VObj [(lit "content", VNum (num_of_Z 42))])) in
  let fine := Responded 200 (Some (VObj [(lit "content", VStr (lit "ok"))])) in
  let p := run (host := decimal_host) fresh_page
             [Input (lit "Hello"); Submit; Settle odd; Input (lit "again")] in
  let later := [Settle fine; Input (lit "once more"); Submit; Submit] in
  conforming odd = false
  /\ all_formattable (messages (state (world p))) = false
  /\ accepts (world p) = true
  /\ in_flight p = []
  /\ in_flight (run (host := decimal_host)
                  (step (host := decimal_host) p Submit) later) = []
  /\ accepts (world (run (host := decimal_host)
                       (step (host := decimal_host) p Submit) later)) = false.
Proof.
  intros odd fine p later.
  assert (Ho : conforming odd = false) by reflexivity.
  assert (Hf : all_formattable (messages (state (world p))) = false)
    by (vm_compute; reflexivity).
  assert (Ha : accepts (world p) = true) by (vm_compute; reflexivity).
  assert (Hn : in_flight p = []) by (vm_compute; reflexivity).
  split; [exact Ho|]. split; [exact Hf|]. split; [exact Ha|]. split; [exact Hn|].
  destruct (proj2 (@answer_that_is_not_text_wedges_the_widget decimal_host)
              p Hf Ha Hn) as (_ & _ & _ & _ & H).
  destruct (H later) as (H1 & _ & H3). split; [exact H1 | exact H3].
Defined.

Lemma keydown_sends_on_plain_enter_only_witness :
  let enter := {| isComposing := false; key := lit "Enter"; shiftKey := false |} in
  let composing := {| isComposing := true; key := lit "Enter"; shiftKey := false |} in
  accepts (world hello_sent) = false
  /\ snd (keydown (host := decimal_host) enter hello_sent) = hello_sent
  /\ length (in_flight hello_typed)
     < length (in_flight (snd (keydown (host := decimal_host) enter hello_typed)))
  /\ accepts (world hello_typed) = true
  /\ keydown (host := decimal_host) composing hello_typed = (false, hello_typed).
Proof.
  intros enter composing.
  assert (Ha : accepts (world hello_sent) = false) by (vm_compute; reflexivity).
  assert (Hl : length (in_flight hello_typed)
               < length (in_flight (snd (keydown (host := decimal_host)
                                           enter hello_typed))))
    by (vm_compute; lia).
  destruct (@keydown_sends_on_plain_enter_only decimal_host)
    as (Hk & _ & Hs & Hr & _).
  split; [exact Ha|]. split; [exact (Hr enter hello_sent Ha)|].
  split; [exact Hl|]. split; [exact (proj2 (proj2 (proj2 (Hs _ _ Hl))))|].
  rewrite Hk. reflexivity.
Defined.

Lemma send_body_is_last_12_of_history_witness :
  accepts long_session = true
  /\ all_formattable (messages (state long_session)) = true
  /\ exists req,
       fst (send (host := decimal_host) long_session) = Ok (Some req)
       /\ length (body_messages req) = 12
       /\ length (messages (state (snd (send (host := decimal_host)
                                          long_session)))) = 15.
Proof.
  assert (Ha : accepts long_session = true) by (vm_compute; reflexivity).
  assert (Hf : all_formattable (messages (state long_session)) = true)
    by (vm_compute; reflexivity).
  split; [exact Ha|]. split; [exact Hf|].
  pose proof (@send_body_is_last_12_of_history decimal_host long_session Ha)
    as H.
  cbv zeta in H. destruct H as (Hm & Hex & Hreq).
  destruct (proj2 Hex Hf) as [req Hr].
  exists req. split; [exact Hr|].
  destruct (Hreq req Hr) as (_ & _ & _ & H12 & _). split.
  - apply H12. vm_compute. lia.
  - rewrite Hm. vm_compute. reflexivity.
Defined.

Lemma submit_guard_witness :
  (accepts (world hello_sent) = false
   /\ step (host := decimal_host) hello_sent Submit = hello_sent)
  /\ (accepts (world hello_typed) = true
      /\ all_formattable (messages (state (world hello_typed))) = true
      /\ exists req w',
           send (host := decimal_host) (world hello_typed) = (Ok (Some req), w')
           /\ step (host := decimal_host) hello_typed Submit
              = {| world := w'; in_flight := in_flight hello_typed ++ [req] |}).
Proof.
  split.
  - assert (H : accepts (world hello_sent) = false) by (vm_compute; reflexivity).
    split; [exact H|].
    exact (proj2 (proj1 (proj2 (@submit_guard decimal_host)) hello_sent H)).
  - assert (Ha : accepts (world hello_typed) = true) by (vm_compute; reflexivity).
    assert (Hf : all_formattable (messages (state (world hello_typed))) = true)
      by (vm_compute; reflexivity).
    split; [exact Ha|]. split; [exact Hf|].
    exact (proj1 (proj2 (proj2 (@submit_guard decimal_host))) hello_typed Ha Hf).
Defined.

Lemma loading_tracks_the_exchange_witness :
  let hi := VObj [(lit "content", VStr (lit "Hi there"))] in
  let trace := [Input (lit "Hello"); Submit; Settle (Responded 200 (Some hi));
                Input (lit "again"); Submit] in
  let p := run (host := decimal_host) fresh_page trace in
  forallb conforming_event trace = true
  /\ loading (state (world p)) = true
  /\ (exists req, in_flight p = [req])
  /\ length (in_flight p) <= 1.
Proof.
  intros hi trace p.
  assert (Hc : forallb conforming_event trace = true) by (vm_compute; reflexivity).
  split; [exact Hc|].
  destruct (@loading_tracks_the_exchange decimal_host) as (_ & _ & Hle & Hiff & _).
  destruct (Hiff default_config None [] moon trace Hc) as (Ht & _).
  assert (Hl : loading (state (world p)) = true) by (vm_compute; reflexivity).
  split; [exact Hl|]. split; [exact (proj1 Ht Hl)|].
  pose proof (Hle default_config None [] moon trace) as H.
  cbv zeta in H. fold fresh_page in H. fold p in H.
  destruct (loading (state (world p))); lia.
Defined.
